(** * Physics core of the 1-on-1 basketball game: ball, player, ballistic solver

    A shallow embedding of [Ball] (src/unnamed/part_001), [Player]
    (src/Player.js) and [Bot.calculateShotVelocity] (src/Bot.js).

    JavaScript numbers are modelled as real numbers with exact arithmetic:
    every statement below is about the arithmetic the code writes down, not
    about IEEE-754 rounding, overflow or NaN.  The few operations of the
    three.js library the code calls ([Vector3], [Box3], [Math.sign]) are
    modelled in [Module Three] after the library's published behaviour. *)

From Stdlib Require Import Reals Lra Lia List Bool ZArith Psatz.
Import ListNotations.
Open Scope R_scope.

(* ------------------------------------------------------------------ *)
(** ** The three.js values the physics code manipulates *)

Module Three.

Record Vector3 : Type := vec3 { x : R; y : R; z : R }.

Definition zero3 : Vector3 := vec3 0 0 0.

(** [a.clone().sub(b)] *)
Definition sub (a b : Vector3) : Vector3 :=
  vec3 (x a - x b) (y a - y b) (z a - z b).

(** [a.clone().addScaledVector(v, s)] *)
Definition addScaledVector (a v : Vector3) (s : R) : Vector3 :=
  vec3 (x a + x v * s) (y a + y v * s) (z a + z v * s).

Definition multiplyScalar (a : Vector3) (s : R) : Vector3 :=
  vec3 (x a * s) (y a * s) (z a * s).

Definition dot (a b : Vector3) : R := x a * x b + y a * y b + z a * z b.

Definition length (a : Vector3) : R := sqrt (x a * x a + y a * y a + z a * z a).

(** [divideScalar(s)] is [multiplyScalar(1 / s)]. *)
Definition divideScalar (a : Vector3) (s : R) : Vector3 := multiplyScalar a (1 / s).

(** [normalize()] is [divideScalar(length() || 1)]: the zero vector, whose
    length is falsy, is divided by 1 and stays the zero vector. *)
Definition normalize (a : Vector3) : Vector3 :=
  divideScalar a (if Req_dec_T (length a) 0 then 1 else length a).

(** [Math.sign] *)
Definition sign (r : R) : R :=
  if Rlt_dec 0 r then 1 else if Rlt_dec r 0 then -1 else 0.

(** [Box3]: an axis-aligned box given by its two corners. *)
Record Box3 : Type := box3 { bmin : Vector3; bmax : Vector3 }.

(** [a.intersectsBox(b)]: false as soon as the boxes are apart on one axis,
    so boxes that only touch do intersect. *)
Definition intersectsBox (a b : Box3) : bool :=
  if Rlt_dec (x (bmax b)) (x (bmin a)) then false
  else if Rlt_dec (x (bmax a)) (x (bmin b)) then false
  else if Rlt_dec (y (bmax b)) (y (bmin a)) then false
  else if Rlt_dec (y (bmax a)) (y (bmin b)) then false
  else if Rlt_dec (z (bmax b)) (z (bmin a)) then false
  else if Rlt_dec (z (bmax a)) (z (bmin b)) then false
  else true.

(** [isEmpty()]: the box has no point, its max is below its min on an axis. *)
Definition isEmpty (b : Box3) : bool :=
  if Rlt_dec (x (bmax b)) (x (bmin b)) then true
  else if Rlt_dec (y (bmax b)) (y (bmin b)) then true
  else if Rlt_dec (z (bmax b)) (z (bmin b)) then true
  else false.

(** [getCenter(target)]: the midpoint, or the origin for an empty box. *)
Definition getCenter (b : Box3) : Vector3 :=
  if isEmpty b then zero3
  else multiplyScalar (vec3 (x (bmin b) + x (bmax b)) (y (bmin b) + y (bmax b))
                            (z (bmin b) + z (bmax b))) (1 / 2).

End Three.
Import Three.

(** The three axes, which the code names by the strings ['x'], ['y'], ['z']. *)
Inductive Axis : Type := AxisX | AxisY | AxisZ.

Definition coord (a : Axis) (v : Vector3) : R :=
  match a with AxisX => x v | AxisY => y v | AxisZ => z v end.

(** [v[a] += d] *)
Definition addCoord (a : Axis) (d : R) (v : Vector3) : Vector3 :=
  match a with
  | AxisX => vec3 (x v + d) (y v) (z v)
  | AxisY => vec3 (x v) (y v + d) (z v)
  | AxisZ => vec3 (x v) (y v) (z v + d)
  end.

(** [v[a] = r] *)
Definition setCoord (a : Axis) (r : R) (v : Vector3) : Vector3 :=
  match a with
  | AxisX => vec3 r (y v) (z v)
  | AxisY => vec3 (x v) r (z v)
  | AxisZ => vec3 (x v) (y v) r
  end.

(** The unit vector of an axis scaled by [s]: [normal.set(s,0,0)] and so on. *)
Definition axisVector (a : Axis) (s : R) : Vector3 := setCoord a s zero3.

(** [Math.min(a.max, b.max) - Math.max(a.min, b.min)] on one axis. *)
Definition overlap (a : Axis) (m c : Box3) : R :=
  Rmin (coord a (bmax m)) (coord a (bmax c)) - Rmax (coord a (bmin m)) (coord a (bmin c)).

(** The entities that can hold the ball. *)
Inductive Entity : Type := ThePlayer | TheBot.

(** A collidable is represented by its world-space box, the value of
    [box.copy(object.geometry.boundingBox).applyMatrix4(object.matrixWorld)]. *)
Definition Collidable : Type := Box3.

(* ------------------------------------------------------------------ *)
(** ** The ball (src/unnamed/part_001)

    Only the physics state is kept: the mesh position, the velocity, the
    owner and the active flag.  The trail buffer and the visibility flags
    are rendering state that no physics decision reads. *)

Module Ball.

Record t : Type := mk {
  position : Vector3;      (* this.mesh.position *)
  velocity : Vector3;      (* this.velocity *)
  owner : option Entity;   (* this.owner, null when the ball is free *)
  active : bool            (* this.active *)
}.

(** Set once by the constructor and never reassigned. *)
Definition radius : R := 15 / 100.
Definition restitution : R := 8 / 10.
Definition friction : R := 2.

(** Local constants of [update] and [step]. *)
Definition subStepSize : R := 1 / 100.
Definition gravity : R := 15.
Definition drag : R := 1 / 2.

Definition grab (entity : Entity) (b : t) : t :=
  mk (position b) zero3 (Some entity) (active b).

(** [release(velocity)]: returns at once when [!this.owner]. *)
Definition release (v : Vector3) (b : t) : t :=
  match owner b with
  | None => b
  | Some _ => mk (position b) v None (active b)
  end.

Definition reset (b : t) : t := mk (vec3 0 5 0) zero3 None true.

(** [this.ballBox.set(potentialPos - r, potentialPos + r)] *)
Definition ballBoxAt (p : Vector3) : Box3 :=
  box3 (vec3 (x p - radius) (y p - radius) (z p - radius))
       (vec3 (x p + radius) (y p + radius) (z p + radius)).

(** The axis of least overlap: ['y'] to start with, replaced by ['x'] and
    then by ['z'] only on a strictly smaller overlap. *)
Definition leastOverlapAxis (ballBox c : Box3) : Axis :=
  let axis := AxisY in
  let minOverlap := overlap AxisY ballBox c in
  let '(axis, minOverlap) :=
    if Rlt_dec (overlap AxisX ballBox c) minOverlap
    then (AxisX, overlap AxisX ballBox c) else (axis, minOverlap) in
  let '(axis, minOverlap) :=
    if Rlt_dec (overlap AxisZ ballBox c) minOverlap
    then (AxisZ, overlap AxisZ ballBox c) else (axis, minOverlap) in
  axis.

(** The state the collision loop of [step] works on: the candidate position
    and the velocity.  [ballBox] is computed once before the loop and is not
    refreshed after a correction. *)
Definition Motion : Type := (Vector3 * Vector3)%type.

(** The value [normal] holds when the friction test reads it:
    [normal.multiplyScalar(2 * dot)] scales the vector in place and
    [reflection] is the same object. *)
Definition scaledNormal (normal : Vector3) (d : R) : Vector3 :=
  multiplyScalar normal (2 * d).

(** One iteration of the loop over the collidables. *)
Definition bounce (dt : R) (ballBox : Box3) (st : Motion) (c : Collidable) : Motion :=
  let '(potentialPos, vel) := st in
  if intersectsBox ballBox c then
    let axis := leastOverlapAxis ballBox c in
    let ballCenter := coord axis potentialPos in
    let boxCenter := coord axis (getCenter c) in
    let sgn := sign (ballCenter - boxCenter) in
    let normal := axisVector axis sgn in
    let potentialPos := addCoord axis (overlap axis ballBox c * sgn) potentialPos in
    let d := dot vel normal in
    if Rlt_dec d 0 then
      let reflection := scaledNormal normal d in
      let vel := multiplyScalar (sub vel reflection) restitution in
      if Rlt_dec (1 / 2) (Rabs (y reflection)) then
        (potentialPos,
         vec3 (x vel - x vel * friction * dt) (y vel) (z vel - z vel * friction * dt))
      else (potentialPos, vel)
    else (potentialPos, vel)
  else (potentialPos, vel).

(** [step], with the drag coefficient as a parameter; the code's [step] is
    the instance at [drag]. *)
Definition stepWith (dragCoeff : R) (dt : R) (collidables : list Collidable) (b : t) : t :=
  let v0 := velocity b in
  let vy := y v0 - gravity * dt in
  let vx := x v0 - x v0 * dragCoeff * dt in
  let vz := z v0 - z v0 * dragCoeff * dt in
  let vel := vec3 vx vy vz in
  let potentialPos := addScaledVector (position b) vel dt in
  let ballBox := ballBoxAt potentialPos in
  let '(p, v) := fold_left (bounce dt ballBox) collidables (potentialPos, vel) in
  mk p v (owner b) (active b).

Definition step : R -> list Collidable -> t -> t := stepWith drag.

(** The [while (remainingTime > 0)] loop of [update].  [fuel] bounds the
    number of iterations; [None] means the bound was reached with time left. *)
Fixpoint subSteps (fuel : nat) (remainingTime : R) (collidables : list Collidable)
    (b : t) : option t :=
  if Rlt_dec 0 remainingTime then
    match fuel with
    | O => None
    | S fuel' =>
        let dt := Rmin remainingTime subStepSize in
        subSteps fuel' (remainingTime - dt) collidables (step dt collidables b)
    end
  else Some b.

(** The values [dt] takes in the loop, in order: the loop above with the
    state left out. *)
Fixpoint subStepSizes (fuel : nat) (remainingTime : R) : option (list R) :=
  if Rlt_dec 0 remainingTime then
    match fuel with
    | O => None
    | S fuel' =>
        let dt := Rmin remainingTime subStepSize in
        option_map (cons dt) (subStepSizes fuel' (remainingTime - dt))
    end
  else Some [].

(** The floor safety that ends [update]. *)
Definition floorSafety (b : t) : t :=
  if Rlt_dec (y (position b)) (-10) then reset b else b.

(** An iteration bound for the loop of [update]: the integer just above
    [delta / subStepSize]. *)
Definition subStepBound (delta : R) : nat := Z.to_nat (up (delta / subStepSize)).

(** [update(delta, collidables)]: nothing moves while the ball is held;
    otherwise the sub-step loop runs and the floor safety follows.  The loop
    always returns within [subStepBound delta] iterations, so that the
    [None] branch is never taken. *)
Definition update (delta : R) (collidables : list Collidable) (b : t) : t :=
  match owner b with
  | Some _ => b
  | None =>
      match subSteps (subStepBound delta) delta collidables b with
      | Some b' => floorSafety b'
      | None => b
      end
  end.

End Ball.

(* ------------------------------------------------------------------ *)
(** ** The player (src/Player.js)

    [update] is modelled up to and including the floor safety: damping,
    gravity, stamina, input acceleration, speed cap and the three per-axis
    moves.  The ball interaction and the trajectory preview that follow in
    the source read the position but write none of the fields kept here. *)

Module Player.

Record t : Type := mk {
  position : Vector3;     (* this.camera.position *)
  velocity : Vector3;     (* this.velocity *)
  onGround : bool;
  stamina : R;
  moveForward : bool;
  moveBackward : bool;
  moveLeft : bool;
  moveRight : bool;
  isRunning : bool
}.

(** What a frame reads from outside the player: whether the pointer is
    locked ([document.pointerLockElement === document.body]) and the camera's
    forward [(0,0,-1)] and right [(1,0,0)] vectors after
    [applyQuaternion(this.camera.quaternion)]. *)
Record Frame : Type := frame {
  pointerLocked : bool;
  lookForward : Vector3;
  lookRight : Vector3
}.

(** Set by the constructor and never reassigned. *)
Definition speed : R := 6.
Definition sprintMultiplier : R := 17 / 10.
Definition gravity : R := 30.
Definition height : R := 16 / 10.
Definition width : R := 6 / 10.
Definition maxStamina : R := 60.
Definition staminaDrainRate : R := 30.
Definition staminaRegenRate : R := 15.

(** Local constants of [update] and [resolveCollisions]. *)
Definition damping : R := 10.
Definition acceleration : R := 200.
Definition touchEpsilon : R := 1 / 1000.

Definition setMotion (pos vel : Vector3) (g : bool) (p : t) : t :=
  mk pos vel g (stamina p) (moveForward p) (moveBackward p) (moveLeft p)
     (moveRight p) (isRunning p).

(** [this.playerBox.set(pos - (w,h,w), pos + (w,0,w))] with [w = width/2],
    [h = height]: the camera sits at the top of the box. *)
Definition playerBoxAt (pos : Vector3) : Box3 :=
  let w := width / 2 in
  let h := height in
  box3 (vec3 (x pos - w) (y pos - h) (z pos - w))
       (vec3 (x pos + w) (y pos) (z pos + w)).

(** The tiny-touch test that makes the loop [continue]. *)
Definition tinyTouch (playerBox c : Box3) : bool :=
  if Rlt_dec (Rabs (overlap AxisX playerBox c)) touchEpsilon then true
  else if Rlt_dec (Rabs (overlap AxisY playerBox c)) touchEpsilon then true
  else if Rlt_dec (Rabs (overlap AxisZ playerBox c)) touchEpsilon then true
  else false.

(** The push sign on a horizontal axis: against the velocity when there is
    one, else away from the centre of the collider. *)
Definition pushSign (v dir : R) : R :=
  if Req_dec_T v 0 then sign dir else - sign v.

(** One iteration of the loop of [resolveCollisions].  The source refreshes
    [playerBox] after every correction, so at the top of each iteration it
    is the box at the current position. *)
Definition resolveOne (axis : Axis) (p : t) (c : Collidable) : t :=
  let pos := position p in
  let vel := velocity p in
  let playerBox := playerBoxAt pos in
  if intersectsBox playerBox c then
    if tinyTouch playerBox c then p
    else
      match axis with
      | AxisX =>
          let overlapX := overlap AxisX playerBox c in
          if Rlt_dec 0 overlapX then
            let dir := x pos - x (getCenter c) in
            let sgn := pushSign (x vel) dir in
            setMotion (addCoord AxisX (overlapX * sgn) pos) (setCoord AxisX 0 vel)
                      (onGround p) p
          else p
      | AxisZ =>
          let overlapZ := overlap AxisZ playerBox c in
          if Rlt_dec 0 overlapZ then
            let dir := z pos - z (getCenter c) in
            let sgn := pushSign (z vel) dir in
            setMotion (addCoord AxisZ (overlapZ * sgn) pos) (setCoord AxisZ 0 vel)
                      (onGround p) p
          else p
      | AxisY =>
          let overlapY := overlap AxisY playerBox c in
          if Rlt_dec 0 overlapY then
            if Rlt_dec (y vel) 0 then
              setMotion (addCoord AxisY overlapY pos) (setCoord AxisY 0 vel) true p
            else if Rlt_dec 0 (y vel) then
              setMotion (addCoord AxisY (- overlapY) pos) (setCoord AxisY 0 vel)
                        (onGround p) p
            else
              setMotion (addCoord AxisY overlapY pos) vel true p
          else p
      end
  else p.

(** [resolveCollisions(collidables, axis)] *)
Definition resolveCollisions (collidables : list Collidable) (axis : Axis) (p : t) : t :=
  fold_left (resolveOne axis) collidables p.

(** [this.camera.position[axis] += this.velocity[axis] * delta] followed by
    [this.resolveCollisions(collidables, axis)]. *)
Definition moveAxis (delta : R) (collidables : list Collidable) (axis : Axis) (p : t) : t :=
  resolveCollisions collidables axis
    (setMotion (addCoord axis (coord axis (velocity p) * delta) (position p))
               (velocity p) (onGround p) p).

Definition moving (p : t) : bool :=
  moveForward p || moveBackward p || moveLeft p || moveRight p.

(** The stamina block of [update]: the pair of [usingSprint] and the new
    stamina. *)
Definition staminaStep (delta : R) (p : t) : bool * R :=
  if isRunning p && (if Rlt_dec 0 (stamina p) then true else false) then
    if moving p then
      let s := stamina p - staminaDrainRate * delta in
      (true, if Rlt_dec s 0 then 0 else s)
    else (false, stamina p)
  else
    let s := stamina p + staminaRegenRate * delta in
    (false, if Rlt_dec maxStamina s then maxStamina else s).

Definition targetSpeed (usingSprint : bool) : R :=
  speed * (if usingSprint then sprintMultiplier else 1).

(** [tempVec.set(..).applyQuaternion(q); tempVec.y = 0; tempVec.normalize()] *)
Definition flatten (v : Vector3) : Vector3 := normalize (vec3 (x v) 0 (z v)).

Definition add (a b : Vector3) : Vector3 := vec3 (x a + x b) (y a + y b) (z a + z b).

(** The direction the held keys ask for, before normalisation. *)
Definition inputDirection (f : Frame) (p : t) : Vector3 :=
  let d := zero3 in
  let fw := flatten (lookForward f) in
  let d := if moveForward p then add d fw else d in
  let d := if moveBackward p then sub d fw else d in
  let rt := flatten (lookRight f) in
  let d := if moveRight p then add d rt else d in
  let d := if moveLeft p then sub d rt else d in
  d.

(** The input block: acceleration along the normalised input direction. *)
Definition accelerate (f : Frame) (delta : R) (p : t) (vx vz : R) : R * R :=
  let d := inputDirection f p in
  if Rlt_dec 0 (dot d d) then
    let n := normalize d in
    (vx + x n * acceleration * delta, vz + z n * acceleration * delta)
  else (vx, vz).

(** The cap on the horizontal speed. *)
Definition capHorizontal (targetSpeed vx vz : R) : R * R :=
  let currentHorizSpeed := sqrt (vx * vx + vz * vz) in
  if Rlt_dec targetSpeed currentHorizSpeed then
    let ratio := targetSpeed / currentHorizSpeed in
    (vx * ratio, vz * ratio)
  else (vx, vz).

(** Damping, gravity, input acceleration and the horizontal speed cap: the
    velocity with which the per-axis moves start. *)
Definition steer (f : Frame) (delta : R) (usingSprint : bool) (p : t) : Vector3 :=
  let v := velocity p in
  let vx := x v - x v * damping * delta in
  let vz := z v - z v * damping * delta in
  let vy := y v - gravity * delta in
  let '(vx, vz) := accelerate f delta p vx vz in
  let '(vx, vz) := capHorizontal (targetSpeed usingSprint) vx vz in
  vec3 vx vy vz.

(** The fall limit that follows the three moves. *)
Definition fallSafety (p : t) : t :=
  if Rlt_dec (y (position p)) (-20)
  then setMotion (vec3 0 5 5) zero3 (onGround p) p
  else p.

(** The state with which the per-axis moves start: steered velocity, new
    stamina, [onGround] reset. *)
Definition prepare (f : Frame) (delta : R) (p : t) : t :=
  let '(usingSprint, s) := staminaStep delta p in
  mk (position p) (steer f delta usingSprint p) false s
     (moveForward p) (moveBackward p) (moveLeft p) (moveRight p) (isRunning p).

(** [update(delta, collidables)], physics part. *)
Definition update (f : Frame) (delta : R) (collidables : list Collidable) (p : t) : t :=
  if negb (pointerLocked f) then
    setMotion (position p) zero3 (onGround p) p
  else
    let p := prepare f delta p in
    let p := moveAxis delta collidables AxisX p in
    let p := moveAxis delta collidables AxisZ p in
    let p := moveAxis delta collidables AxisY p in
    fallSafety p.

End Player.

(* ------------------------------------------------------------------ *)
(** ** The ballistic solver (src/Bot.js) *)

Module Bot.

(** [const g = 15.0; // Must match Ball.js gravity] *)
Definition g : R := 15.

Definition toRadians (angleDeg : R) : R := angleDeg * (PI / 180).

(** The horizontal distance [x] and the signed height [y] of the shot. *)
Definition diffXZ (startPos targetPos : Vector3) : Vector3 :=
  let diff := sub targetPos startPos in vec3 (x diff) 0 (z diff).

Definition horizontalDistance (startPos targetPos : Vector3) : R :=
  Three.length (diffXZ startPos targetPos).

Definition heightDifference (startPos targetPos : Vector3) : R :=
  y (sub targetPos startPos).

Definition term1 (startPos targetPos : Vector3) : R :=
  g * horizontalDistance startPos targetPos * horizontalDistance startPos targetPos.

Definition term2 (angleDeg : R) : R := 2 * (cos (toRadians angleDeg)) ^ 2.

Definition term3 (startPos targetPos : Vector3) (angleDeg : R) : R :=
  horizontalDistance startPos targetPos * tan (toRadians angleDeg)
  - heightDifference startPos targetPos.

Definition vSquared (startPos targetPos : Vector3) (angleDeg : R) : R :=
  term1 startPos targetPos / (term2 angleDeg * term3 startPos targetPos angleDeg).

(** [calculateShotVelocity(startPos, targetPos, angleDeg)]; [None] is the
    [null] the code returns. *)
Definition calculateShotVelocity (startPos targetPos : Vector3) (angleDeg : R)
    : option Vector3 :=
  let angle := toRadians angleDeg in
  if Rle_dec (term3 startPos targetPos angleDeg) 0 then None
  else
    let v := sqrt (vSquared startPos targetPos angleDeg) in
    let vH := v * cos angle in
    let vY := v * sin angle in
    let velocity := multiplyScalar (normalize (diffXZ startPos targetPos)) vH in
    Some (vec3 (x velocity) vY (z velocity)).

(** The default of the [angleDeg] parameter. *)
Definition defaultAngleDeg : R := 60.

End Bot.

(* ------------------------------------------------------------------ *)
(** ** Vocabulary of the statements *)

(** A free ball at [startPos] with velocity [vel]. *)
Definition launch (startPos vel : Vector3) : Ball.t := Ball.mk startPos vel None true.


Definition distance (a b : Vector3) : R := Three.length (sub a b).

(** The point at fraction [s] of the straight segment from [a] to [b]. *)
Definition between (a b : Vector3) (s : R) : Vector3 :=
  vec3 (x a + s * (x b - x a)) (y a + s * (y b - y a)) (z a + s * (z b - z a)).

(** [v] mirrored about the plane of normal [n]. *)
Definition reflect (v n : Vector3) : Vector3 :=
  sub v (multiplyScalar n (2 * dot v n)).

(** The friction of a floor contact on the horizontal components. *)
Definition damped (dt : R) (v : Vector3) : Vector3 :=
  vec3 (x v * (1 - Ball.friction * dt)) (y v) (z v * (1 - Ball.friction * dt)).

(** The candidate position of a sub-step: where gravity and drag alone take
    the ball. *)
Definition candidate (dt : R) (b : Ball.t) : Vector3 := Ball.position (Ball.step dt [] b).

(** The signed distance by which a hard stop moves the player on [a]. *)
Definition pushOf (a : Axis) (p : Player.t) (c : Collidable) : R :=
  let o := overlap a (Player.playerBoxAt (Player.position p)) c in
  match a with
  | AxisY => if Rlt_dec 0 (y (Player.velocity p)) then - o else o
  | _ => o * Player.pushSign (coord a (Player.velocity p))
                             (coord a (Player.position p) - coord a (getCenter c))
  end.

(** What a pass on axis [a] never touches: the other coordinates of the
    position and of the velocity. *)
Definition sameOffAxis (a : Axis) (p q : Player.t) : Prop :=
  forall b, b <> a ->
    coord b (Player.position q) = coord b (Player.position p) /\
    coord b (Player.velocity q) = coord b (Player.velocity p).


(** The state of a frame with the player's position and velocity replaced. *)
Definition movedTo (pos vel : Vector3) (p : Player.t) : Player.t :=
  Player.setMotion pos vel (Player.onGround p) p.

(** Calls of [Ball.update] one after the other, with the given deltas. *)
Definition updates (deltas : list R) (cs : list Collidable) (b : Ball.t) : Ball.t :=
  fold_left (fun b' d => Ball.update d cs b') deltas b.

(** [n] sub-steps of the full size. *)
Definition fullSteps (n : nat) (cs : list Collidable) (b : Ball.t) : Ball.t :=
  Nat.iter n (Ball.step Ball.subStepSize cs) b.

Definition sumR (l : list R) : R := fold_right Rplus 0 l.

(* ------------------------------------------------------------------ *)
(** ** Level geometry of src/World.js and scenarios *)

(** The court floor: a 20 x 1 x 34 box centred at height -0.5, so that its
    top is at height 0. *)
Definition courtFloor : Collidable := box3 (vec3 (-10) (-1) (-17)) (vec3 10 0 17).

(** The far backboard: 1.8 x 1.2 x 0.1 at (0, 3, -15). *)
Definition backboard : Collidable :=
  box3 (vec3 (- (9 / 10)) (24 / 10) (- (1505 / 100)))
       (vec3 (9 / 10) (36 / 10) (- (1495 / 100))).

(** The far hoop's post: 0.3 x 3 x 0.3 at (0, 1.5, -15.5). *)
Definition hoopPost : Collidable :=
  box3 (vec3 (- (15 / 100)) 0 (- (1565 / 100)))
       (vec3 (15 / 100) 3 (- (1535 / 100))).

(** The target of a 45 degree shot from the origin over 7.5 units of level
    ground. *)
Definition shotTarget : Vector3 := vec3 (15 / 2) 0 0.

(** A ball that has sunk a little into the floor and is already rising. *)
Definition risingBall : Ball.t := launch (vec3 0 (1 / 10) 0) (vec3 1 5 0).

(** A ball rolling on the floor. *)
Definition rollingBall : Ball.t := launch (vec3 0 (15 / 100) 0) (vec3 1 0 0).

(** A ball at rest on the floor. *)
Definition restingBall : Ball.t := launch (vec3 0 (15 / 100) 0) zero3.

(** A ball dropped from the spawn point. *)
Definition droppedBall : Ball.t := launch (vec3 0 5 0) zero3.



(** A player coming down on the court floor, a tenth of a unit into it. *)
Definition lander : Player.t :=
  Player.mk (vec3 0 (15 / 10) 0) (vec3 0 (-3) 0) false 60 false false false false false.

(** A player standing waist-deep in the court floor, moving along x. *)
Definition sunkPlayer : Player.t :=
  Player.mk (vec3 0 1 0) (vec3 3 0 0) false 60 false false false false false.

(** A player who stands still and holds the sprint key, half exhausted. *)
Definition idleSprinter : Player.t :=
  Player.mk (vec3 0 (16 / 10) 0) zero3 true 30 false false false false true.

(** The camera looks along -z; the pointer is locked or not. *)
Definition lookingNorth (locked : bool) : Player.Frame :=
  Player.frame locked (vec3 0 0 (-1)) (vec3 1 0 0).

(* ------------------------------------------------------------------ *)
(** * Further parts of the program

    The input handlers and the ball handling of the player, the level, the
    game loop with its scoring check, remote players, the trajectory
    preview, the trail of the ball, the confetti, the bot, the server, the
    roster of the client and the mouse look. *)

From Stdlib Require String Ascii.

(** The square of the speed: twice the kinetic energy of a unit mass. *)
Definition speedSq (v : Vector3) : R := dot v v.

(* ------------------------------------------------------------------ *)
(** ** The player's input handlers and ball handling (src/Player.js)

    The key and mouse handlers of [initControls], [attemptSteal],
    [getPowerRatio] and the ball interaction that ends [update].  The state
    adds to the body of [Module Player] the fields these read and write and
    the shared ball, [None] while [this.ball] is null.  The trajectory
    preview that [update] refreshes last is in [Module Trajectory]. *)

Module PlayerControls.

(** The values of [KeyboardEvent.code] that the handlers tell apart. *)
Inductive Key : Type :=
  | ArrowUp | KeyW | ArrowLeft | KeyA | ArrowDown | KeyS | ArrowRight | KeyD
  | Space | ShiftLeft | ShiftRight | KeyL | KeyE
  | Equal | NumpadAdd | Minus | NumpadSubtract | OtherKey.

Record t : Type := mk {
  body : Player.t;
  hasBall : bool;
  throwCooldown : R;
  currentPower : R;
  showTrajectory : bool;
  ball : option Ball.t
}.

Definition jumpForce : R := 12.

(** The player as the constructor leaves it, at camera position [pos]. *)
Definition initial (pos : Vector3) : t :=
  mk (Player.mk pos zero3 false 60 false false false false false)
     false 0 20 true None.

Definition assignBall (b : Ball.t) (s : t) : t :=
  mk (body s) (hasBall s) (throwCooldown s) (currentPower s) (showTrajectory s) (Some b).

Definition setBody (p : Player.t) (s : t) : t :=
  mk p (hasBall s) (throwCooldown s) (currentPower s) (showTrajectory s) (ball s).

Definition setPower (power : R) (s : t) : t :=
  mk (body s) (hasBall s) (throwCooldown s) power (showTrajectory s) (ball s).

Definition setKeys (fw bw lf rt run : bool) (p : Player.t) : Player.t :=
  Player.mk (Player.position p) (Player.velocity p) (Player.onGround p) (Player.stamina p)
            fw bw lf rt run.

(** [attemptSteal()] *)
Definition attemptSteal (f : Player.Frame) (s : t) : t :=
  match ball s with
  | None => s
  | Some b =>
      if hasBall s then s
      else
        match Ball.owner b with
        | None => s
        | Some _ =>
            let camPos := Player.position (body s) in
            let dist := distance camPos (Ball.position b) in
            if Rlt_dec 3 dist then s
            else
              let forward := normalize (Player.lookForward f) in
              let toBall := normalize (sub (Ball.position b) camPos) in
              if Rlt_dec (9 / 10) (dot forward toBall) then
                mk (body s) true (1 / 2) (currentPower s) (showTrajectory s)
                   (Some (Ball.grab ThePlayer b))
              else s
        end
  end.

(** The [keydown] handler. *)
Definition onKey (f : Player.Frame) (code : Key) (s : t) : t :=
  let p := body s in
  match code with
  | ArrowUp | KeyW =>
      setBody (setKeys true (Player.moveBackward p) (Player.moveLeft p)
                       (Player.moveRight p) (Player.isRunning p) p) s
  | ArrowLeft | KeyA =>
      setBody (setKeys (Player.moveForward p) (Player.moveBackward p) true
                       (Player.moveRight p) (Player.isRunning p) p) s
  | ArrowDown | KeyS =>
      setBody (setKeys (Player.moveForward p) true (Player.moveLeft p)
                       (Player.moveRight p) (Player.isRunning p) p) s
  | ArrowRight | KeyD =>
      setBody (setKeys (Player.moveForward p) (Player.moveBackward p) (Player.moveLeft p)
                       true (Player.isRunning p) p) s
  | Space =>
      if Player.onGround p
      then setBody (Player.setMotion (Player.position p)
                      (setCoord AxisY jumpForce (Player.velocity p)) (Player.onGround p) p) s
      else s
  | ShiftLeft | ShiftRight =>
      setBody (setKeys (Player.moveForward p) (Player.moveBackward p) (Player.moveLeft p)
                       (Player.moveRight p) true p) s
  | KeyL =>
      mk (body s) (hasBall s) (throwCooldown s) (currentPower s)
         (negb (showTrajectory s)) (ball s)
  | KeyE => attemptSteal f s
  | Equal | NumpadAdd => setPower (Rmin (currentPower s + 35) 35) s
  | Minus | NumpadSubtract => setPower (Rmax (currentPower s - 1) 10) s
  | OtherKey => s
  end.

(** The [keyup] handler. *)
Definition onKeyUp (code : Key) (s : t) : t :=
  let p := body s in
  match code with
  | ArrowUp | KeyW =>
      setBody (setKeys false (Player.moveBackward p) (Player.moveLeft p)
                       (Player.moveRight p) (Player.isRunning p) p) s
  | ArrowLeft | KeyA =>
      setBody (setKeys (Player.moveForward p) (Player.moveBackward p) false
                       (Player.moveRight p) (Player.isRunning p) p) s
  | ArrowDown | KeyS =>
      setBody (setKeys (Player.moveForward p) false (Player.moveLeft p)
                       (Player.moveRight p) (Player.isRunning p) p) s
  | ArrowRight | KeyD =>
      setBody (setKeys (Player.moveForward p) (Player.moveBackward p) (Player.moveLeft p)
                       false (Player.isRunning p) p) s
  | ShiftLeft | ShiftRight =>
      setBody (setKeys (Player.moveForward p) (Player.moveBackward p) (Player.moveLeft p)
                       (Player.moveRight p) false p) s
  | _ => s
  end.

(** The [mousedown] handler: a throw, with the left button while the
    pointer is locked and the player has the ball. *)
Definition onMouseDown (f : Player.Frame) (button : Z) (s : t) : t :=
  if Player.pointerLocked f && Z.eqb button 0 then
    match hasBall s, ball s with
    | true, Some b =>
        let dir := normalize (Player.lookForward f) in
        let velocity := multiplyScalar dir (currentPower s) in
        mk (body s) false (1 / 2) (currentPower s) (showTrajectory s)
           (Some (Ball.release velocity b))
    | _, _ => s
    end
  else s.

(** Where the ball is carried: one unit in front of the camera, 0.2 lower. *)
Definition holdPosition (f : Player.Frame) (camPos : Vector3) : Vector3 :=
  let dir := normalize (Player.lookForward f) in
  let holdPos := Player.add camPos (multiplyScalar dir 1) in
  vec3 (x holdPos) (y holdPos - 2 / 10) (z holdPos).

(** The ball interaction of [update]: cooldown, ownership check and carry,
    or pickup. *)
Definition interact (f : Player.Frame) (delta : R) (s : t) : t :=
  let cooldown :=
    if Rlt_dec 0 (throwCooldown s) then throwCooldown s - delta else throwCooldown s in
  match ball s with
  | None => mk (body s) (hasBall s) cooldown (currentPower s) (showTrajectory s) None
  | Some b =>
      if hasBall s then
        match Ball.owner b with
        | Some ThePlayer =>
            mk (body s) true cooldown (currentPower s) (showTrajectory s)
               (Some (Ball.mk (holdPosition f (Player.position (body s)))
                              (Ball.velocity b) (Ball.owner b) (Ball.active b)))
        | _ => mk (body s) false cooldown (currentPower s) (showTrajectory s) (Some b)
        end
      else
        match Ball.owner b with
        | None =>
            if Rle_dec cooldown 0 then
              if Rlt_dec (distance (Player.position (body s)) (Ball.position b)) 2 then
                mk (body s) true cooldown (currentPower s) (showTrajectory s)
                   (Some (Ball.grab ThePlayer b))
              else mk (body s) false cooldown (currentPower s) (showTrajectory s) (Some b)
            else mk (body s) false cooldown (currentPower s) (showTrajectory s) (Some b)
        | Some _ => mk (body s) false cooldown (currentPower s) (showTrajectory s) (Some b)
        end
  end.

(** [update(delta, collidables)]: the movement of [Player.update], then the
    ball interaction; an unlocked pointer returns before both. *)
Definition update (f : Player.Frame) (delta : R) (collidables : list Collidable) (s : t) : t :=
  if negb (Player.pointerLocked f) then setBody (Player.update f delta collidables (body s)) s
  else interact f delta (setBody (Player.update f delta collidables (body s)) s).

(** [getPowerRatio()] *)
Definition getPowerRatio (s : t) : R :=
  let min := 10 in
  let max := 35 in
  (currentPower s - min) / (max - min).

End PlayerControls.

(** What can happen to the player between two renderings. *)
Inductive PlayerEvent : Type :=
  | KeyDown (code : PlayerControls.Key)
  | KeyUp (code : PlayerControls.Key)
  | MouseDown (button : Z)
  | Frame (delta : R) (collidables : list Collidable).

Definition handle (f : Player.Frame) (e : PlayerEvent) (s : PlayerControls.t)
    : PlayerControls.t :=
  match e with
  | KeyDown code => PlayerControls.onKey f code s
  | KeyUp code => PlayerControls.onKeyUp code s
  | MouseDown button => PlayerControls.onMouseDown f button s
  | Frame delta collidables => PlayerControls.update f delta collidables s
  end.

(** The player's flag and the ball's owner say the same. *)
Definition agrees (s : PlayerControls.t) : Prop :=
  match PlayerControls.ball s with
  | Some b => PlayerControls.hasBall s = true <-> Ball.owner b = Some ThePlayer
  | None => PlayerControls.hasBall s = false
  end.

(** The ball in the middle of the court, as the constructor leaves it. *)
Definition freshBall : Ball.t := Ball.mk (vec3 0 5 0) zero3 None true.

(** A player on the court who holds the ball, with the default power. *)
Definition holder : PlayerControls.t :=
  PlayerControls.mk (Player.mk (vec3 0 (16 / 10) 5) zero3 true 60 false false false false false)
                    true 0 20 true (Some (Ball.grab ThePlayer freshBall)).

(* ------------------------------------------------------------------ *)
(** ** The level (src/World.js)

    Every mesh of the level is a [BoxGeometry] placed by its position alone
    (no rotation, no scale), so that its world matrix is a translation. *)

Module World.

(** The bounding box of [new THREE.BoxGeometry(size.x, size.y, size.z)]. *)
Definition boxGeometry (size : Vector3) : Box3 :=
  box3 (multiplyScalar size (- (1 / 2))) (multiplyScalar size (1 / 2)).

(** [box.applyMatrix4(matrixWorld)] for a mesh placed at [pos]: an empty box
    is returned as it is. *)
Definition placed (local : Box3) (pos : Vector3) : Box3 :=
  if isEmpty local then local
  else box3 (Player.add (bmin local) pos) (Player.add (bmax local) pos).

(** [createBox(pos, size, true, color)], as the collidable it pushes. *)
Definition createBox (pos size : Vector3) : Collidable := placed (boxGeometry size) pos.

(** A scoring trigger: the bounding box of its geometry and its position. *)
Record Trigger : Type := trigger { geometryBox : Box3; triggerPosition : Vector3 }.

(** [createTrigger(position, size)] *)
Definition createTrigger (position size : Vector3) : Trigger :=
  trigger (boxGeometry size) position.

Definition floor : Collidable := createBox (vec3 0 (- (5 / 10)) 0) (vec3 20 1 34).

Definition walls : list Collidable :=
  [ createBox (vec3 (105 / 10) 2 0) (vec3 1 5 34);
    createBox (vec3 (- (105 / 10)) 2 0) (vec3 1 5 34);
    createBox (vec3 0 2 (- (175 / 10))) (vec3 22 5 1);
    createBox (vec3 0 2 (175 / 10)) (vec3 22 5 1) ].

Definition zDir (facingForward : bool) : R := if facingForward then 1 else -1.

Definition rimCenter (pos : Vector3) (facingForward : bool) : Vector3 :=
  vec3 (x pos) (28 / 10) (z pos + 45 / 100 * zDir facingForward).

(** The collidables [createHoop(pos, facingForward)] pushes, in order: post,
    backboard and the four sides of the square rim. *)
Definition hoopBoxes (pos : Vector3) (facingForward : bool) : list Collidable :=
  let rc := rimCenter pos facingForward in
  let radius := 3 / 10 in
  let thickness := 5 / 100 in
  [ createBox (vec3 (x pos) (15 / 10) (z pos - 5 / 10 * zDir facingForward))
              (vec3 (3 / 10) 3 (3 / 10));
    createBox (vec3 (x pos) 3 (z pos)) (vec3 (18 / 10) (12 / 10) (1 / 10));
    createBox (vec3 (x rc - radius) (y rc) (z rc)) (vec3 thickness thickness (radius * 2));
    createBox (vec3 (x rc + radius) (y rc) (z rc)) (vec3 thickness thickness (radius * 2));
    createBox (vec3 (x rc) (y rc) (z rc - radius)) (vec3 (radius * 2) thickness thickness);
    createBox (vec3 (x rc) (y rc) (z rc + radius)) (vec3 (radius * 2) thickness thickness) ].

(** The trigger [createHoop] puts under the rim. *)
Definition hoopTrigger (pos : Vector3) (facingForward : bool) : Trigger :=
  let rc := rimCenter pos facingForward in
  createTrigger (vec3 (x rc) (y rc - 3 / 10) (z rc)) (vec3 (5 / 10) (2 / 10) (5 / 10)).

Definition farHoop : Vector3 := vec3 0 0 (-15).
Definition nearHoop : Vector3 := vec3 0 0 15.

(** [getCollidables()] after [init]. *)
Definition collidables : list Collidable :=
  floor :: walls ++ hoopBoxes farHoop true ++ hoopBoxes nearHoop false.

(** [getTriggers()] after [init]. *)
Definition triggers : list Trigger :=
  [ hoopTrigger farHoop true; hoopTrigger nearHoop false ].

End World.

(* ------------------------------------------------------------------ *)
(** ** The game loop (src/unnamed/part_002, class Game)

    The frame delta, the two physics calls of [animate] on the shared ball,
    and the scoring check with its respawn timer; the handlers of the
    network messages follow the server, further down.  Rendering and the
    user interface are left out. *)

Module Game.

(** [Math.min(this.clock.getDelta(), 0.1)] *)
Definition frameDelta (clockDelta : R) : R := Rmin clockDelta (1 / 10).

(** [this.player.update(delta, collidables)] and then
    [this.ball.update(delta, collidables)], on the ball the two share. *)
Definition physics (f : Player.Frame) (clockDelta : R) (collidables : list Collidable)
    (s : PlayerControls.t) : PlayerControls.t :=
  let delta := frameDelta clockDelta in
  let s := PlayerControls.update f delta collidables s in
  PlayerControls.mk (PlayerControls.body s) (PlayerControls.hasBall s)
                    (PlayerControls.throwCooldown s) (PlayerControls.currentPower s)
                    (PlayerControls.showTrajectory s)
                    (option_map (Ball.update delta collidables) (PlayerControls.ball s)).

Record Score : Type := mkScore { score : nat; botScore : nat; justScored : bool }.

(** What a call of [checkScoring] leaves: the score, the particle bursts it
    asked for (position and count) and the number of respawn timers it
    started. *)
Record Outcome : Type := outcome {
  tally : Score;
  bursts : list (Vector3 * nat);
  timers : nat
}.

(** [trigger.geometry.boundingBox.clone().applyMatrix4(trigger.matrixWorld)] *)
Definition triggerBox (t : World.Trigger) : Box3 :=
  World.placed (World.geometryBox t) (World.triggerPosition t).

(** [boundingBox.getCenter(...).applyMatrix4(trigger.matrixWorld).z] *)
Definition triggerZ (t : World.Trigger) : R :=
  z (getCenter (World.geometryBox t)) + z (World.triggerPosition t).

(** [triggerBox.intersectsBox(this.ball.ballBox)]; the ball's box is [None]
    as long as no sub-step has set it: the empty box of the constructor
    intersects nothing. *)
Definition inTrigger (t : World.Trigger) (ballBox : option Box3) : bool :=
  match ballBox with
  | Some bb => intersectsBox (triggerBox t) bb
  | None => false
  end.

(** The body of the loop over the triggers. *)
Definition checkTrigger (ballBox : option Box3) (b : Ball.t) (acc : Outcome)
    (t : World.Trigger) : Outcome :=
  if inTrigger t ballBox then
    if Rlt_dec (y (Ball.velocity b)) 0 then
      if justScored (tally acc) then acc
      else if Rlt_dec (triggerZ t) 0 then
        outcome (mkScore (S (score (tally acc))) (botScore (tally acc)) true)
                (bursts acc ++ [(Ball.position b, 100%nat)]) (S (timers acc))
      else
        outcome (mkScore (score (tally acc)) (S (botScore (tally acc))) true)
                (bursts acc ++ [(Ball.position b, 100%nat)]) (S (timers acc))
    else acc
  else acc.

(** [checkScoring()] *)
Definition checkScoring (triggers : list World.Trigger) (ballBox : option Box3)
    (b : Ball.t) (sc : Score) : Outcome :=
  if negb (Ball.active b) then outcome sc [] 0
  else
    match triggers with
    | [] => outcome sc [] 0
    | _ => fold_left (checkTrigger ballBox b) triggers (outcome sc [] 0)
    end.

(** The timer's callback, one second after a point. *)
Definition respawn (b : Ball.t) (sc : Score) : Ball.t * Score :=
  (Ball.reset b, mkScore (score sc) (botScore sc) false).

End Game.

(** The first trigger of the list that the ball's box is in. *)
Definition firstTrigger (triggers : list World.Trigger) (ballBox : option Box3)
    : option World.Trigger :=
  find (fun t => Game.inTrigger t ballBox) triggers.

(* ------------------------------------------------------------------ *)
(** ** Remote players (src/unnamed/part_000, class RemotePlayer)

    The mesh position and the target it is interpolated to.  The orientation,
    which no position depends on, is left out. *)

(** [a.lerp(v, alpha)] of three.js *)
Definition lerp (a v : Vector3) (alpha : R) : Vector3 :=
  vec3 (x a + (x v - x a) * alpha) (y a + (y v - y a) * alpha) (z a + (z v - z a) * alpha).

Module RemotePlayer.

Record t : Type := mk {
  position : Vector3;        (* this.mesh.position *)
  targetPosition : Vector3   (* this.targetPosition *)
}.

(** The constructor: [initialData.position || { x: 0, y: 0, z: 0 }]. *)
Definition create (initialPosition : option Vector3) : t :=
  let p := match initialPosition with Some p => p | None => zero3 end in
  mk p p.

(** [updateData(data)] *)
Definition updateData (dataPosition : option Vector3) (r : t) : t :=
  match dataPosition with
  | Some p => mk (position r) p
  | None => r
  end.

(** [update(delta)] *)
Definition update (delta : R) (r : t) : t :=
  let lerpFactor := 10 * delta in
  mk (lerp (position r) (targetPosition r) lerpFactor) (targetPosition r).

End RemotePlayer.

(** The frames of the game loop for one remote player, from the times the
    clock reports. *)
Definition remoteFrames (clockDeltas : list R) (r : RemotePlayer.t) : RemotePlayer.t :=
  fold_left (fun r' d => RemotePlayer.update (Game.frameDelta d) r') clockDeltas r.

(** The part of the way to the target that is left after these frames. *)
Definition lerpRest (clockDeltas : list R) : R :=
  fold_right Rmult 1 (map (fun d => 1 - 10 * Game.frameDelta d) clockDeltas).

(* ------------------------------------------------------------------ *)
(** ** The trajectory preview (src/unnamed/part_000, class Trajectory)

    The ray cast of three.js is a parameter: every statement holds for
    whatever it returns. *)

Module Trajectory.

Definition pointCount : nat := 30.
Definition stepSize : R := 5 / 100.
Definition gravity : R := 15.
Definition drag : R := 1 / 2.

(** [raycaster.set(origin, direction)], [raycaster.far = far] and
    [intersectObjects(collidables, false)]: the point of the first
    intersection, if there is one. *)
Definition RayCast : Type := Vector3 -> Vector3 -> R -> list Collidable -> option Vector3.

(** The simulation state of the loop. *)
Record Sim : Type := sim { pos : Vector3; vel : Vector3; stopped : bool }.

(** One turn of the loop: the new state and the dot it sets, [None] for a
    dot that is hidden. *)
Definition point (cast : RayCast) (collidables : list Collidable) (s : Sim)
    : Sim * option Vector3 :=
  if stopped s then (s, None)
  else
    let v := vel s in
    let v' := vec3 (x v - x v * drag * stepSize) (y v - gravity * stepSize)
                   (z v - z v * drag * stepSize) in
    let nextPos := addScaledVector (pos s) v' stepSize in
    let direction := sub nextPos (pos s) in
    let far := length direction in
    match cast (pos s) (normalize direction) far collidables with
    | Some hit => (sim hit v' true, Some hit)
    | None => (sim nextPos v' false, Some nextPos)
    end.

Fixpoint points (cast : RayCast) (collidables : list Collidable) (n : nat) (s : Sim)
    : list (option Vector3) :=
  match n with
  | O => []
  | S n' =>
      let (s', d) := point cast collidables s in
      d :: points cast collidables n' s'
  end.

(** [update(origin, velocity, collidables)]: the dots, in order. *)
Definition update (cast : RayCast) (origin velocity : Vector3)
    (collidables : list Collidable) : list (option Vector3) :=
  points cast collidables pointCount (sim origin velocity false).

End Trajectory.

(** The ball after [j] collision-free steps of the preview's step size. *)
Definition previewFlight (origin velocity : Vector3) (j : nat) : Ball.t :=
  Nat.iter j (Ball.step Trajectory.stepSize []) (launch origin velocity).

(** What the ray cast answers for the [j]-th segment of that flight. *)
Definition rayAt (cast : Trajectory.RayCast) (collidables : list Collidable)
    (origin velocity : Vector3) (j : nat) : option Vector3 :=
  let p := Ball.position (previewFlight origin velocity j) in
  let q := Ball.position (previewFlight origin velocity (S j)) in
  cast p (normalize (sub q p)) (length (sub q p)) collidables.

(* ------------------------------------------------------------------ *)
(** ** The ball's trail (src/unnamed/part_001, updateTrail and resetTrail)

    The [Float32Array] of 30 points, three numbers each, as a list; the
    rounding to single precision of a stored number is outside the model. *)

Module Trail.

Definition trailLength : nat := 30.

(** [a[i] = v]: a typed array ignores a write past its end. *)
Fixpoint setAt (i : nat) (v : R) (a : list R) : list R :=
  match a, i with
  | [], _ => []
  | _ :: rest, O => v :: rest
  | h :: rest, S j => h :: setAt j v rest
  end.

(** [a[i]], read inside the array. *)
Definition getAt (i : nat) (a : list R) : R := nth i a 0.

(** The body of the loop of [updateTrail]. *)
Definition copyPoint (i : nat) (a : list R) : list R :=
  let currentIdx := (i * 3)%nat in
  let prevIdx := ((i - 1) * 3)%nat in
  let a := setAt currentIdx (getAt prevIdx a) a in
  let a := setAt (currentIdx + 1) (getAt (prevIdx + 1) a) a in
  setAt (currentIdx + 2) (getAt (prevIdx + 2) a) a.

(** [for (let i = start; i > 0; i--)] *)
Fixpoint shiftFrom (i : nat) (a : list R) : list R :=
  match i with
  | O => a
  | S j => shiftFrom j (copyPoint (S j) a)
  end.

Definition setPoint (i : nat) (p : Vector3) (a : list R) : list R :=
  setAt (i * 3 + 2) (z p) (setAt (i * 3 + 1) (y p) (setAt (i * 3) (x p) a)).

(** [updateTrail()], for the ball at [p]; [visible] is [this.mesh.visible]. *)
Definition updateTrail (active visible : bool) (p : Vector3) (a : list R) : list R :=
  if negb active && negb visible then a
  else
    let a := shiftFrom (trailLength - 1) a in
    setAt 2 (z p) (setAt 1 (y p) (setAt 0 (x p) a)).

(** [resetTrail(pos)] *)
Definition resetTrail (p : Vector3) (a : list R) : list R :=
  fold_left (fun a' i => setPoint i p a') (seq 0 trailLength) a.

End Trail.

(** The [i]-th point of the trail, the newest first. *)
Definition trailPoint (a : list R) (i : nat) : Vector3 :=
  vec3 (Trail.getAt (i * 3) a) (Trail.getAt (i * 3 + 1) a) (Trail.getAt (i * 3 + 2) a).

(* ------------------------------------------------------------------ *)
(** ** The confetti (src/unnamed/part_003, class ParticleSystem)

    The pool of particles with what their motion depends on: the active
    flag, the life, the position and the velocity.  Colour and rotation are
    rendering state.  [Math.random] is a parameter: the sequence of the
    values it returns, of which [emit] draws seven for every particle. *)

Module ParticleSystem.

Definition maxParticles : nat := 1000.

Record Particle : Type := particle {
  active : bool;
  life : R;
  position : Vector3;
  velocity : Vector3
}.

(** The values [Math.random()] returns, by the number of earlier calls. *)
Definition Random : Type := nat -> R.

(** The pool the constructor builds. *)
Definition initial : list Particle := repeat (particle false 0 zero3 zero3) maxParticles.

(** The body of the loop of [emit] for an inactive particle, when [drawn]
    random values have been used: speed, angle, yBias, the three factors of
    the velocity and the hue are drawn in this order. *)
Definition spawn (rand : Random) (drawn : nat) (pos : Vector3) (p : Particle) : Particle :=
  let speed := 2 + rand drawn * 3 in
  particle true 2 pos
           (vec3 ((rand (drawn + 3)%nat - 5 / 10) * speed)
                 ((rand (drawn + 4)%nat * (5 / 10) + 5 / 10) * speed)
                 ((rand (drawn + 5)%nat - 5 / 10) * speed)).

(** The loop of [emit] over the rest of the pool, with [spawned] particles
    activated so far. *)
Fixpoint emitLoop (rand : Random) (drawn : nat) (pos : Vector3) (count spawned : nat)
    (pool : list Particle) : list Particle :=
  match pool with
  | [] => []
  | p :: rest =>
      if active p then p :: emitLoop rand drawn pos count spawned rest
      else
        let p' := spawn rand drawn pos p in
        if (count <=? S spawned)%nat then p' :: rest
        else p' :: emitLoop rand (drawn + 7) pos count (S spawned) rest
  end.

(** [emit(position, count)] *)
Definition emit (rand : Random) (pos : Vector3) (count : nat) (pool : list Particle)
    : list Particle :=
  emitLoop rand 0 pos count 0 pool.

(** The body of the loop of [update]. *)
Definition updateParticle (delta : R) (p : Particle) : Particle :=
  if active p then
    let life' := life p - delta in
    if Rle_dec life' 0 then particle false life' (position p) (velocity p)
    else
      let v := velocity p in
      let v' := vec3 (x v * (98 / 100)) (y v - 98 / 10 * delta) (z v * (98 / 100)) in
      particle true life' (addScaledVector (position p) v' delta) v'
  else p.

(** [update(delta)], on a pool of [maxParticles] particles. *)
Definition update (delta : R) (pool : list Particle) : list Particle :=
  map (updateParticle delta) pool.

End ParticleSystem.

Definition activeCount (pool : list ParticleSystem.Particle) : nat :=
  List.length (filter ParticleSystem.active pool).

Definition inactiveCount (pool : list ParticleSystem.Particle) : nat :=
  List.length (filter (fun p => negb (ParticleSystem.active p)) pool).

(** A particle as [emit] leaves it: two seconds to live, at the place of
    the burst, flying upwards. *)
Definition freshlyEmitted (pos : Vector3) (p : ParticleSystem.Particle) : Prop :=
  ParticleSystem.active p = true /\
  ParticleSystem.life p = 2 /\
  ParticleSystem.position p = pos /\
  1 <= y (ParticleSystem.velocity p) < 5 /\
  Rabs (x (ParticleSystem.velocity p)) <= 5 / 2 /\
  Rabs (z (ParticleSystem.velocity p)) <= 5 / 2.

(* ------------------------------------------------------------------ *)
(** ** The bot (src/Bot.js, update)

    The bot's position, stamina and timers, and what [update] shares with
    the rest of the game: the ball and the player's [hasBall] flag, which a
    steal clears.  [shootDistance] is [None] while the field is undefined or
    null; the two timers, undefined until first used, start at 0, which is
    what [if (!this.aimingTime) this.aimingTime = 0] makes of them.
    [update] can throw: [None] is the TypeError of reading the camera of an
    owner that has none. *)

Module BotAI.

Record t : Type := mk {
  position : Vector3;
  stamina : R;
  hasBall : bool;
  shootDistance : option R;
  aimingTime : R;
  stealTimer : R;
  meshPosition : Vector3     (* this.mesh.position *)
}.

Definition speed : R := 6.
Definition sprintMultiplier : R := 17 / 10.
Definition maxStamina : R := 60.
Definition staminaDrainRate : R := 30.
Definition staminaRegenRate : R := 15.
Definition targetHoop : Vector3 := vec3 0 3 15.

(** The bot as the constructor leaves it. *)
Definition initial : t := mk (vec3 0 1 (-10)) 60 false None 0 0 (vec3 0 1 (-10)).

(** What [update] reads and writes outside the bot. *)
Record Shared : Type := shared { ball : Ball.t; playerHasBall : bool }.

(** [if (!this.shootDistance) this.shootDistance = 6 + Math.random() * 8]:
    a distance of 0 is falsy as well. *)
Definition drawDistance (rand : R) (b : t) : R :=
  match shootDistance b with
  | Some d => if Req_dec_T d 0 then 6 + rand * 8 else d
  | None => 6 + rand * 8
  end.

(** The distance to the hoop on the floor plan. *)
Definition hoopDistance (b : t) : R :=
  let dx := x (position b) - x targetHoop in
  let dz := z (position b) - z targetHoop in
  sqrt (dx * dx + dz * dz).

(** Where the bot aims: the centre of the near rim. *)
Definition shotTarget : Vector3 := vec3 0 (28 / 10) (1455 / 100).
Definition shotAngle : R := 70.
Definition holdOffset : Vector3 := vec3 0 (15 / 10) (5 / 10).

(** [dir = target.sub(position).normalize(); dir.y = 0] *)
Definition flatDirection (target pos : Vector3) : Vector3 :=
  setCoord AxisY 0 (normalize (sub target pos)).

Definition setBallPosition (p : Vector3) (b : Ball.t) : Ball.t :=
  Ball.mk p (Ball.velocity b) (Ball.owner b) (Ball.active b).

(** The end of [update]: the mesh takes the position, which is then put at
    height 1 and clamped to the court. *)
Definition settle (b : t) : t :=
  mk (vec3 (Rmax (-9) (Rmin 9 (x (position b)))) 1
           (Rmax (-16) (Rmin 16 (z (position b)))))
     (stamina b) (hasBall b) (shootDistance b) (aimingTime b) (stealTimer b)
     (position b).

(** The attack: run to the shooting range, then aim and shoot; the ball is
    carried over the head in either case. *)
Definition attack (rand delta : R) (b : t) (sh : Shared) : t * Shared :=
  let sd := drawDistance rand b in
  let moved :=
    if Rlt_dec sd (hoopDistance b) then
      let tempVec := flatDirection (vec3 0 0 15) (position b) in
      let currentSpeed := if Rlt_dec 0 (stamina b) then speed * sprintMultiplier else speed in
      let st := if Rlt_dec 0 (stamina b) then stamina b - staminaDrainRate * delta
                else stamina b + staminaRegenRate * delta in
      let st := if Rlt_dec maxStamina st then maxStamina else st in
      let st := if Rlt_dec st 0 then 0 else st in
      (mk (addScaledVector (position b) tempVec (currentSpeed * delta)) st true (Some sd)
          (aimingTime b) (stealTimer b) (meshPosition b), ball sh)
    else
      let aim := aimingTime b + delta in
      if Rlt_dec (2 / 10) aim then
        let velocity :=
          match Bot.calculateShotVelocity (position b) shotTarget shotAngle with
          | Some v => v
          | None => vec3 0 10 0
          end in
        (mk (position b) (stamina b) false None 0 (stealTimer b) (meshPosition b),
         Ball.release velocity (ball sh))
      else
        (mk (position b) (stamina b) true (Some sd) aim (stealTimer b) (meshPosition b),
         ball sh) in
  (fst moved,
   shared (setBallPosition (Player.add (position (fst moved)) holdOffset) (snd moved))
          (playerHasBall sh)).

(** The chase of a loose ball. *)
Definition chase (delta : R) (b : t) (sh : Shared) : t * Shared :=
  let distToBall := distance (position b) (Ball.position (ball sh)) in
  let dir := flatDirection (Ball.position (ball sh)) (position b) in
  let pos := addScaledVector (position b) dir (speed * delta) in
  if Rlt_dec distToBall (15 / 10) then
    (mk pos (stamina b) true (shootDistance b) (aimingTime b) (stealTimer b) (meshPosition b),
     shared (Ball.grab TheBot (ball sh)) (playerHasBall sh))
  else
    (mk pos (stamina b) (hasBall b) (shootDistance b) (aimingTime b) (stealTimer b)
        (meshPosition b), sh).

(** The defence against the player, whose camera is at [camera]. *)
Definition defend (delta : R) (camera : Vector3) (b : t) (sh : Shared) : t * Shared :=
  let dir := flatDirection (Ball.position (ball sh)) (position b) in
  let pos := addScaledVector (position b) dir (speed * (9 / 10) * delta) in
  let distToPlayer := distance pos camera in
  if Rlt_dec distToPlayer 2 then
    let timer := stealTimer b + delta in
    if Rlt_dec 1 timer then
      (mk pos (stamina b) true (shootDistance b) (aimingTime b) 0 (meshPosition b),
       shared (Ball.grab TheBot (ball sh)) false)
    else
      (mk pos (stamina b) (hasBall b) (shootDistance b) (aimingTime b) timer (meshPosition b),
       sh)
  else
    (mk pos (stamina b) (hasBall b) (shootDistance b) (aimingTime b) 0 (meshPosition b), sh).

(** [update(delta, collidables)]; [rand] is what [Math.random()] returns if
    it is called, [camera] the position of the player's camera. *)
Definition update (rand delta : R) (camera : Vector3) (b : t) (sh : Shared)
    : option (t * Shared) :=
  if hasBall b then
    let r := attack rand delta b sh in Some (settle (fst r), snd r)
  else
    match Ball.owner (ball sh) with
    | None => let r := chase delta b sh in Some (settle (fst r), snd r)
    | Some ThePlayer => let r := defend delta camera b sh in Some (settle (fst r), snd r)
    | Some TheBot => None
    end.

End BotAI.

(** A frame of the bot while the game runs: what [Math.random] would
    return, the delta, and where the player's update has left the camera and
    the ball. *)
Record BotFrame : Type := botFrame {
  frameRand : R;
  frameTime : R;
  frameCamera : Vector3;
  frameBall : Vector3
}.

Definition botFrames (frames : list BotFrame) (start : BotAI.t * BotAI.Shared)
    : option (BotAI.t * BotAI.Shared) :=
  fold_left
    (fun acc fr =>
       match acc with
       | Some (b, sh) =>
           BotAI.update (frameRand fr) (frameTime fr) (frameCamera fr) b
             (BotAI.shared (BotAI.setBallPosition (frameBall fr) (BotAI.ball sh))
                           (BotAI.playerHasBall sh))
       | None => None
       end)
    frames (Some start).

(** A bot with the ball, five units in front of the near hoop, that has
    aimed for 0.2 s. *)
Definition aimingBot : BotAI.t :=
  BotAI.mk (vec3 0 1 10) 60 true (Some 6) (2 / 10) 0 (vec3 0 1 10).

(** A player next to the bot, who looks at the ball the bot carries. *)
Definition thief : PlayerControls.t :=
  PlayerControls.mk (Player.mk (vec3 0 (25 / 10) 12) zero3 true 60 false false false false false)
                    false 0 20 true
                    (Some (BotAI.setBallPosition (vec3 0 (25 / 10) (105 / 10))
                             (Ball.grab TheBot freshBall))).

(* ------------------------------------------------------------------ *)
(** ** JavaScript objects used as maps from strings

    The keys in insertion order, as [for (const id in ...)] visits them. *)

Module Dict.

Definition t (A : Type) : Type := list (String.string * A).

(** [d[k]], [None] for a missing key. *)
Definition lookup {A : Type} (k : String.string) (d : t A) : option A :=
  option_map snd (find (fun p => String.eqb (fst p) k) d).

(** [d[k] = v]: an existing key keeps its place. *)
Fixpoint assign {A : Type} (k : String.string) (v : A) (d : t A) : t A :=
  match d with
  | [] => [(k, v)]
  | p :: rest => if String.eqb (fst p) k then (k, v) :: rest else p :: assign k v rest
  end.

(** [delete d[k]] *)
Definition remove {A : Type} (k : String.string) (d : t A) : t A :=
  filter (fun p => negb (String.eqb (fst p) k)) d.

End Dict.

(* ------------------------------------------------------------------ *)
(** ** The server (src/unnamed/part_002, server.js)

    The state the server keeps, the four events it handles and the messages
    it sends.  A socket id is a string; of a player's record the position is
    kept, of a message's payload the fields the handlers and the clients
    read. *)

Module Server.

Definition Id : Type := String.string.

(** [ballState]; [ownerId] is [None] for [null]. *)
Record BallState : Type := ballState {
  ownerId : option Id;
  ballPosition : Vector3;
  ballVelocity : Vector3
}.

(** The payload of a [ball_update]: every field may be missing, and
    [ownerId] may be [null]. *)
Record BallData : Type := ballData {
  dataOwnerId : option (option Id);
  dataPosition : option Vector3;
  dataVelocity : option Vector3
}.

Record t : Type := mk {
  players : Dict.t Vector3;   (* players[id].position *)
  ball : BallState
}.

Inductive Event : Type :=
  | Connection (id : Id)
  | PlayerUpdate (id : Id) (position : option Vector3)
  | BallUpdate (id : Id) (data : BallData)
  | Disconnect (id : Id).

(** Who a message goes to: [socket.emit], [socket.broadcast.emit], [io.emit]. *)
Inductive Recipients : Type :=
  | ToSender (id : Id)
  | ToOthers (id : Id)
  | ToAll.

Inductive Message : Type :=
  | Init (players : Dict.t Vector3) (ball : BallState)
  | PlayerJoined (id : Id) (position : Vector3)
  | PlayerMoved (id : Id) (position : option Vector3)
  | PlayerLeft (id : Id)
  | BallUpdated (ball : BallState).

Definition initial : t := mk [] (ballState None (vec3 0 5 0) zero3).

(** [{ ...ballState, ...data }] *)
Definition merge (b : BallState) (data : BallData) : BallState :=
  ballState (match dataOwnerId data with Some o => o | None => ownerId b end)
            (match dataPosition data with Some p => p | None => ballPosition b end)
            (match dataVelocity data with Some v => v | None => ballVelocity b end).

(** The handler of an event: the new state and the messages sent, in order. *)
Definition handle (e : Event) (s : t) : t * list (Recipients * Message) :=
  match e with
  | Connection id =>
      let ps := Dict.assign id (vec3 0 2 0) (players s) in
      (mk ps (ball s),
       [(ToSender id, Init ps (ball s)); (ToOthers id, PlayerJoined id (vec3 0 2 0))])
  | PlayerUpdate id position =>
      match Dict.lookup id (players s) with
      | Some old =>
          (mk (Dict.assign id (match position with Some p => p | None => old end) (players s))
              (ball s),
           [(ToOthers id, PlayerMoved id position)])
      | None => (s, [])
      end
  | BallUpdate id data =>
      let b := merge (ball s) data in
      (mk (players s) b, [(ToOthers id, BallUpdated b)])
  | Disconnect id =>
      let ps := Dict.remove id (players s) in
      match ownerId (ball s) with
      | Some o =>
          if String.eqb o id then
            let b := ballState None (vec3 0 5 0) zero3 in
            (mk ps b, [(ToAll, PlayerLeft id); (ToAll, BallUpdated b)])
          else (mk ps (ball s), [(ToAll, PlayerLeft id)])
      | None => (mk ps (ball s), [(ToAll, PlayerLeft id)])
      end
  end.

(** The server over a sequence of events: the last state and all messages. *)
Fixpoint run (events : list Event) (s : t) : t * list (Recipients * Message) :=
  match events with
  | [] => (s, [])
  | e :: rest =>
      let (s1, out1) := handle e s in
      let (s2, out2) := run rest s1 in
      (s2, out1 ++ out2)
  end.

End Server.

(** The socket with this id is connected. *)
Definition connected (id : Server.Id) (s : Server.t) : Prop :=
  Dict.lookup id (Server.players s) <> None.

(** What the game client does: it sends [ball_update] over its own socket,
    while it is connected, with its own id as owner and the ball's position
    and velocity. *)
Definition honest (e : Server.Event) (s : Server.t) : Prop :=
  match e with
  | Server.BallUpdate id data =>
      connected id s /\ Server.dataOwnerId data = Some (Some id) /\
      Server.dataPosition data <> None /\ Server.dataVelocity data <> None
  | _ => True
  end.

Fixpoint honestRun (events : list Server.Event) (s : Server.t) : Prop :=
  match events with
  | [] => True
  | e :: rest => honest e s /\ honestRun rest (fst (Server.handle e s))
  end.

(** The owner the server has on record, if any, is connected. *)
Definition ownerConnected (s : Server.t) : Prop :=
  match Server.ownerId (Server.ball s) with
  | Some o => connected o s
  | None => True
  end.

(** A message with these recipients reaches the client with this id. *)
Definition reaches (to : Server.Recipients) (id : Server.Id) : Prop :=
  match to with
  | Server.ToSender i => i = id
  | Server.ToOthers i => i <> id
  | Server.ToAll => True
  end.

(** The handler of [ball_updated] in the game client (src/unnamed/part_002),
    for the client whose socket has the id [socketId]: a client that has the
    ball ignores the message; an owner id is falsy when it is null or the
    empty string. *)
Definition onBallUpdated (socketId : Server.Id) (data : Server.BallState)
    (s : PlayerControls.t) : PlayerControls.t :=
  if PlayerControls.hasBall s then s
  else
    match PlayerControls.ball s with
    | Some b =>
        let owner :=
          match Server.ownerId data with
          | Some o =>
              if String.eqb o String.EmptyString then None
              else if String.eqb o socketId then Some ThePlayer else None
          | None => None
          end in
        PlayerControls.mk (PlayerControls.body s) (PlayerControls.hasBall s)
          (PlayerControls.throwCooldown s) (PlayerControls.currentPower s)
          (PlayerControls.showTrajectory s)
          (Some (Ball.mk (Server.ballPosition data) (Server.ballVelocity data) owner
                         (Ball.active b)))
    | None => s
    end.

(** Two socket ids, the strings a and b. *)
Definition socketA : Server.Id :=
  String.String (Ascii.Ascii true false false false false true true false) String.EmptyString.

Definition socketB : Server.Id :=
  String.String (Ascii.Ascii false true false false false true true false) String.EmptyString.

(** [reaches], as a test. *)
Definition reachesb (to : Server.Recipients) (id : Server.Id) : bool :=
  match to with
  | Server.ToSender i => String.eqb i id
  | Server.ToOthers i => negb (String.eqb i id)
  | Server.ToAll => true
  end.

(* ------------------------------------------------------------------ *)
(** ** The game client's roster of remote players (src/unnamed/part_002)

    The handlers of [init], [player_joined], [player_moved] and
    [player_left] on [this.remotePlayers]. *)

Module Client.

Definition Roster : Type := Dict.t RemotePlayer.t.

(** The handler of a message in the client whose socket has id [socketId]. *)
Definition deliver (socketId : Server.Id) (m : Server.Message) (r : Roster) : Roster :=
  match m with
  | Server.Init players _ =>
      fold_left
        (fun r' p =>
           if String.eqb (fst p) socketId then r'
           else Dict.assign (fst p) (RemotePlayer.create (Some (snd p))) r')
        players r
  | Server.PlayerJoined id position =>
      Dict.assign id (RemotePlayer.create (Some position)) r
  | Server.PlayerMoved id position =>
      match Dict.lookup id r with
      | Some remote => Dict.assign id (RemotePlayer.updateData position remote) r
      | None => r
      end
  | Server.PlayerLeft id => Dict.remove id r
  | Server.BallUpdated _ => r
  end.

End Client.

(** The server handles an event and the client with id [c] handles the
    messages that reach it, all of them, in the order they were sent. *)
Definition relay (c : Server.Id) (st : Server.t * Client.Roster) (e : Server.Event)
    : Server.t * Client.Roster :=
  let out := Server.handle e (fst st) in
  (fst out,
   fold_left (fun r m => Client.deliver c (snd m) r)
             (filter (fun m => reachesb (fst m) c) (snd out)) (snd st)).

(** The client's roster lists the connected players but the client itself. *)
Definition rosterMatches (c : Server.Id) (s : Server.t) (r : Client.Roster) : Prop :=
  forall id : Server.Id, Dict.lookup id r <> None <-> (id <> c /\ connected id s).

(* ------------------------------------------------------------------ *)
(** ** The whole of the player's update, with the trajectory preview

    What [update] does to the preview: it draws it, hides it, or returns
    before it gets there and leaves it as it was. *)

Inductive Preview : Type :=
  | Shown (dots : list (option Vector3))
  | Hidden
  | Untouched.

(** [update(delta, collidables)] of src/Player.js to its end. *)
Definition playerFrame (cast : Trajectory.RayCast) (f : Player.Frame) (delta : R)
    (collidables : list Collidable) (s : PlayerControls.t) : PlayerControls.t * Preview :=
  let s' := PlayerControls.update f delta collidables s in
  if negb (Player.pointerLocked f) then (s', Untouched)
  else
    let lost :=
      PlayerControls.hasBall s &&
      match PlayerControls.ball s with
      | Some b => match Ball.owner b with Some ThePlayer => false | _ => true end
      | None => false
      end in
    if lost then (s', Untouched)
    else if PlayerControls.showTrajectory s' && PlayerControls.hasBall s' then
      let dir := normalize (Player.lookForward f) in
      let spawnPos := Player.add (Player.position (PlayerControls.body s'))
                                 (multiplyScalar dir (5 / 10)) in
      let velocity := multiplyScalar dir (PlayerControls.currentPower s') in
      (s', Shown (Trajectory.update cast spawnPos velocity collidables))
    else (s', Hidden).

(* ------------------------------------------------------------------ *)
(** ** Looking around (src/Player.js, the mousemove handler)

    The two angles of the camera the handler writes: [rotation.x], the
    pitch, and [rotation.y], the yaw. *)

Module Look.

Record t : Type := mk { pitch : R; yaw : R }.

Definition sensitivity : R := 2 / 1000.

(** The [mousemove] handler, for a movement of [movementX], [movementY]. *)
Definition onMouseMove (locked : bool) (movementX movementY : R) (c : t) : t :=
  if locked then
    let yaw' := yaw c - movementX * sensitivity in
    let pitch' := pitch c - movementY * sensitivity in
    mk (Rmax (- PI / 2) (Rmin (PI / 2) pitch')) yaw'
  else c.

End Look.

(** Mouse movements one after the other: pointer lock, movementX, movementY. *)
Definition mouseMoves (moves : list (bool * R * R)) (c : Look.t) : Look.t :=
  fold_left (fun (c' : Look.t) (m : bool * R * R) =>
               Look.onMouseMove (fst (fst m)) (snd (fst m)) (snd m) c') moves c.

(** The horizontal mouse travel that counts: that with the pointer locked. *)
Definition lockedTravel (moves : list (bool * R * R)) : R :=
  sumR (map (fun m : bool * R * R => if fst (fst m) then snd (fst m) else 0) moves).

(* ------------------------------------------------------------------ *)
(** ** Proof tools *)

(** Decide every comparison in the goal whose outcome linear arithmetic
    settles, and split on the others. *)
Ltac split_cmp :=
  repeat match goal with
  | |- context [Rlt_dec ?a ?b] => destruct (Rlt_dec a b); try lra
  | |- context [Rle_dec ?a ?b] => destruct (Rle_dec a b); try lra
  | |- context [Req_dec_T ?a ?b] => destruct (Req_dec_T a b); try lra
  end.

(** Compute [Math.min] and [Math.max] on given numbers. *)
Ltac eval_minmax :=
  repeat match goal with
  | |- context [Rmin ?a ?b] =>
      first [rewrite (Rmin_left a b) by lra | rewrite (Rmin_right a b) by lra]
  | |- context [Rmax ?a ?b] =>
      first [rewrite (Rmax_left a b) by lra | rewrite (Rmax_right a b) by lra]
  end.

(** Compute the coordinates and overlaps of given boxes. *)
Ltac eval_box :=
  unfold overlap, Ball.ballBoxAt, Player.playerBoxAt, Ball.radius, Player.width,
    Player.height;
  cbn [coord bmin bmax x y z Player.position Ball.position];
  eval_minmax.

Lemma sign_pos (r : R) : 0 < r -> sign r = 1.
Proof. intros H; unfold sign; split_cmp. Qed.

Lemma sign_neg (r : R) : r < 0 -> sign r = -1.
Proof. intros H; unfold sign; split_cmp. Qed.

Lemma sign_cases (r : R) :
  (0 < r /\ sign r = 1) \/ (r < 0 /\ sign r = -1) \/ (r = 0 /\ sign r = 0).
Proof.
  unfold sign.
  destruct (Rlt_dec 0 r); [left; split; lra |].
  destruct (Rlt_dec r 0); [right; left; split; lra | right; right; split; lra].
Qed.

Lemma Axis_eq_dec (a b : Axis) : {a = b} + {a <> b}.
Proof. decide equality. Defined.

(** Boxes intersect when they are apart on no axis. *)
Lemma intersects_spec (a b : Box3) :
  intersectsBox a b = true <->
  x (bmin a) <= x (bmax b) /\ x (bmin b) <= x (bmax a) /\
  y (bmin a) <= y (bmax b) /\ y (bmin b) <= y (bmax a) /\
  z (bmin a) <= z (bmax b) /\ z (bmin b) <= z (bmax a).
Proof.
  unfold intersectsBox; split.
  - split_cmp; intros H; try discriminate; repeat split; lra.
  - intros (?&?&?&?&?&?); split_cmp.
Qed.

Lemma intersects_true (a b : Box3) :
  x (bmin a) <= x (bmax b) -> x (bmin b) <= x (bmax a) ->
  y (bmin a) <= y (bmax b) -> y (bmin b) <= y (bmax a) ->
  z (bmin a) <= z (bmax b) -> z (bmin b) <= z (bmax a) ->
  intersectsBox a b = true.
Proof. intros. apply intersects_spec. repeat split; assumption. Qed.


Lemma getCenter_nonempty (b : Box3) :
  x (bmin b) <= x (bmax b) -> y (bmin b) <= y (bmax b) -> z (bmin b) <= z (bmax b) ->
  getCenter b = vec3 ((x (bmin b) + x (bmax b)) * (1 / 2))
                     ((y (bmin b) + y (bmax b)) * (1 / 2))
                     ((z (bmin b) + z (bmax b)) * (1 / 2)).
Proof.
  intros Hx Hy Hz. unfold getCenter, isEmpty.
  destruct (Rlt_dec _ _); [lra |].
  destruct (Rlt_dec _ _); [lra |].
  destruct (Rlt_dec _ _); [lra | reflexivity].
Qed.

Lemma courtFloor_center : getCenter courtFloor = vec3 0 (- (1 / 2)) 0.
Proof.
  rewrite getCenter_nonempty; unfold courtFloor; cbn [bmin bmax x y z]; try lra.
  f_equal; field.
Qed.

(** The overlap of intersecting boxes is not negative on an axis on which
    neither box is inside out. *)
Lemma overlap_nonneg (a : Axis) (m c : Box3) :
  intersectsBox m c = true ->
  coord a (bmin m) <= coord a (bmax m) ->
  coord a (bmin c) <= coord a (bmax c) ->
  0 <= overlap a m c.
Proof.
  rewrite intersects_spec. intros (?&?&?&?&?&?) Hm Hc.
  unfold overlap, Rmin, Rmax.
  destruct a; simpl in *; destruct (Rle_dec _ _); destruct (Rle_dec _ _); lra.
Qed.

Lemma axisVector_dot (a : Axis) (s : R) (v : Vector3) :
  dot v (axisVector a s) = coord a v * s.
Proof. destruct a; unfold dot, axisVector, setCoord, zero3; simpl; ring. Qed.

Lemma axisVector_y (a : Axis) (s : R) :
  a <> AxisY -> y (axisVector a s) = 0.
Proof. destruct a; intros H; try reflexivity; contradiction. Qed.

(* ------------------------------------------------------------------ *)
(** ** Releasing a free ball *)

(** C10. Calling [release] on a ball that has no owner is a no-op for every
    velocity argument: position, velocity and owner are what they were, the
    argument is not copied in. *)
Theorem release_without_owner (v : Vector3) (b : Ball.t) :
  Ball.owner b = None ->
  Ball.release v b = b /\
  Ball.position (Ball.release v b) = Ball.position b /\
  Ball.velocity (Ball.release v b) = Ball.velocity b /\
  Ball.owner (Ball.release v b) = None.
Proof.
  intros Hfree; unfold Ball.release; rewrite Hfree; auto.
Qed.

Lemma release_without_owner_witness :
  Ball.owner (launch (vec3 0 5 0) (vec3 1 2 3)) = None /\
  Ball.velocity (Ball.release (vec3 9 9 9) (launch (vec3 0 5 0) (vec3 1 2 3)))
  = vec3 1 2 3.
Proof.
  split; [reflexivity |].
  apply (release_without_owner (vec3 9 9 9) (launch (vec3 0 5 0) (vec3 1 2 3)) eq_refl).
Defined.

(* ------------------------------------------------------------------ *)
(** ** The ballistic solver *)

Section Solver.

Variables startPos targetPos : Vector3.
Variable angleDeg : R.

Let theta := Bot.toRadians angleDeg.
Let dist := Bot.horizontalDistance startPos targetPos.
Let rise := y targetPos - y startPos.

Lemma horizontalDistance_nonneg : 0 <= dist.
Proof. apply sqrt_pos. Qed.

Lemma horizontalDistance_sqr :
  dist * dist
  = (x targetPos - x startPos) * (x targetPos - x startPos)
    + (z targetPos - z startPos) * (z targetPos - z startPos).
Proof.
  unfold dist, Bot.horizontalDistance, Three.length, Bot.diffXZ; simpl.
  rewrite sqrt_sqrt; [ring |].
  pose proof (Rle_0_sqr (x targetPos - x startPos)) as Hx.
  pose proof (Rle_0_sqr (z targetPos - z startPos)) as Hz.
  unfold Rsqr in Hx, Hz. lra.
Qed.

Lemma horizontalDistance_zero :
  dist = 0 -> x targetPos - x startPos = 0 /\ z targetPos - z startPos = 0.
Proof.
  intros H0. pose proof horizontalDistance_sqr as Hs. rewrite H0 in Hs.
  apply Rplus_sqr_eq_0. unfold Rsqr. lra.
Qed.

Lemma term3_unfold :
  Bot.term3 startPos targetPos angleDeg = dist * tan theta - rise.
Proof. reflexivity. Qed.

Lemma vSquared_unfold :
  Bot.vSquared startPos targetPos angleDeg
  = Bot.g * dist ^ 2 / (2 * cos theta ^ 2 * (dist * tan theta - rise)).
Proof.
  unfold Bot.vSquared, Bot.term1, Bot.term2. rewrite term3_unfold.
  fold theta dist. replace (Bot.g * dist * dist) with (Bot.g * dist ^ 2) by ring.
  reflexivity.
Qed.

(** Where the target is reachable and the angle is not vertical, the
    divisor is positive and the radicand is not negative. *)
Lemma vSquared_defined :
  cos theta <> 0 -> 0 < dist * tan theta - rise ->
  0 < 2 * cos theta ^ 2 * (dist * tan theta - rise) /\
  0 <= Bot.g * dist ^ 2 / (2 * cos theta ^ 2 * (dist * tan theta - rise)).
Proof.
  intros Hc Ht.
  assert (Hc2 : 0 < cos theta ^ 2) by (simpl; nra).
  assert (Hd : 0 < 2 * cos theta ^ 2 * (dist * tan theta - rise)) by nra.
  split; [exact Hd |].
  apply Rmult_le_pos.
  - unfold Bot.g. pose proof horizontalDistance_nonneg. simpl; nra.
  - left. apply Rinv_0_lt_compat. exact Hd.
Qed.

Lemma horizontalDistance_explicit :
  dist = sqrt ((x targetPos - x startPos) * (x targetPos - x startPos)
               + (z targetPos - z startPos) * (z targetPos - z startPos)).
Proof.
  unfold dist, Bot.horizontalDistance, Three.length, Bot.diffXZ; simpl.
  f_equal; ring.
Qed.

(** The velocity the solver returns, with a unit direction [(ux, uz)]. *)
Lemma calculateShotVelocity_value :
  let v := sqrt (Bot.g * dist ^ 2 / (2 * cos theta ^ 2 * (dist * tan theta - rise))) in
  0 < dist * tan theta - rise ->
  exists ux uz : R,
    ux ^ 2 + uz ^ 2 = 1 /\
    x targetPos - x startPos = dist * ux /\
    z targetPos - z startPos = dist * uz /\
    Bot.calculateShotVelocity startPos targetPos angleDeg
    = Some (vec3 (ux * (v * cos theta)) (v * sin theta) (uz * (v * cos theta))).
Proof.
  intros v Hpos. unfold Bot.calculateShotVelocity.
  rewrite term3_unfold, vSquared_unfold. fold theta v.
  destruct (Rle_dec _ _) as [Hle | _]; [lra |].
  unfold normalize, divideScalar, multiplyScalar.
  change (Three.length (Bot.diffXZ startPos targetPos)) with dist.
  unfold Bot.diffXZ; simpl.
  destruct (Req_dec_T dist 0) as [H0 | Hne].
  - destruct (horizontalDistance_zero H0) as [Hx Hz].
    assert (Hv : v = 0).
    { unfold v. rewrite H0.
      replace (Bot.g * 0 ^ 2 / _) with 0 by (unfold Rdiv; ring).
      apply sqrt_0. }
    exists 1, 0. rewrite Hx, Hz, H0, Hv. repeat split; try ring.
    f_equal. f_equal; ring.
  - exists ((x targetPos - x startPos) / dist), ((z targetPos - z startPos) / dist).
    pose proof horizontalDistance_sqr as Hs.
    repeat split.
    + field_simplify_eq; [| exact Hne]. nra.
    + field; exact Hne.
    + field; exact Hne.
    + f_equal. f_equal; field; exact Hne.
Qed.

(** A vector of squared length [r] has no component beyond [sqrt r]. *)
Lemma component_bound (vel : Vector3) (r : R) :
  0 <= r -> dot vel vel = r ->
  Rabs (x vel) <= sqrt r /\ Rabs (y vel) <= sqrt r /\ Rabs (z vel) <= sqrt r.
Proof.
  intros Hr Hd. unfold dot in Hd.
  pose proof (sqrt_pos r) as Hs. pose proof (sqrt_sqrt r Hr) as Hss.
  repeat split; apply Rabs_le; split; nra.
Qed.

(** C1. The solver returns [null] exactly when [x tan(theta) - y <= 0], for
    [theta] the launch angle in radians, [angleDeg * (PI / 180)], [x] the
    horizontal distance from start to target and [y] the signed height of
    the target above the start.  Otherwise it returns the velocity whose
    horizontal part is the unit direction [(ux, uz)] from start to target in
    the XZ plane scaled by [v cos(theta)] and whose vertical component is
    [v sin(theta)], for [v = sqrt (g x^2 / (2 cos^2(theta) (x tan(theta) - y)))]
    and [g = 15], the gravity of the ball.  Away from the vertical angles,
    where the tangent does not exist, the returned vector is finite: the
    divisor is positive, the radicand is not negative, the squared length of
    the vector is the radicand, so that no component exceeds [v] in absolute
    value, and its horizontal part has length [v |cos(theta)|].  At a
    vertical angle, where the cosine is 0, [tan] and the quotient under the
    root are those of the total division of the real numbers; the finiteness
    part leaves these angles out. *)
Theorem calculateShotVelocity_spec :
  let angle := angleDeg * (PI / 180) in
  let dx := x targetPos - x startPos in
  let dz := z targetPos - z startPos in
  let xDist := sqrt (dx * dx + dz * dz) in
  let yDiff := y targetPos - y startPos in
  let divisor := 2 * cos angle ^ 2 * (xDist * tan angle - yDiff) in
  let v := sqrt (15 * xDist ^ 2 / divisor) in
  (Bot.calculateShotVelocity startPos targetPos angleDeg = None
   <-> xDist * tan angle - yDiff <= 0) /\
  (0 < xDist * tan angle - yDiff ->
   exists ux uz : R,
     ux ^ 2 + uz ^ 2 = 1 /\
     dx = xDist * ux /\
     dz = xDist * uz /\
     Bot.calculateShotVelocity startPos targetPos angleDeg
     = Some (vec3 (ux * (v * cos angle)) (v * sin angle) (uz * (v * cos angle)))) /\
  (0 < xDist * tan angle - yDiff -> cos angle <> 0 ->
   0 < divisor /\
   0 <= 15 * xDist ^ 2 / divisor /\
   exists vel : Vector3,
     Bot.calculateShotVelocity startPos targetPos angleDeg = Some vel /\
     dot vel vel = 15 * xDist ^ 2 / divisor /\
     Rabs (x vel) <= v /\ Rabs (y vel) <= v /\ Rabs (z vel) <= v /\
     x vel * x vel + z vel * z vel = 15 * xDist ^ 2 / divisor * cos angle ^ 2 /\
     y vel = v * sin angle) /\
  Bot.g = 15 /\ Ball.gravity = 15.
Proof.
  intros angle dx dz xDist yDiff divisor v.
  assert (Ed : xDist = dist) by (symmetry; apply horizontalDistance_explicit).
  change angle with theta in *. change yDiff with rise in *.
  change 15 with Bot.g in v |- *.
  unfold v, divisor. clear v divisor. rewrite !Ed. clear Ed.
  set (v := sqrt (Bot.g * dist ^ 2 / (2 * cos theta ^ 2 * (dist * tan theta - rise)))).
  split; [| split; [| split]].
  - unfold Bot.calculateShotVelocity. rewrite term3_unfold.
    destruct (Rle_dec _ _); split; intros; auto; try discriminate; lra.
  - intros Hpos. exact (calculateShotVelocity_value Hpos).
  - intros Hpos Hc.
    destruct (vSquared_defined Hc Hpos) as [Hdiv Hrad].
    split; [exact Hdiv |]. split; [exact Hrad |].
    destruct (calculateShotVelocity_value Hpos) as (ux & uz & Hu & _ & _ & Hsome).
    fold v in Hsome.
    pose proof (sqrt_sqrt _ Hrad) as Hvv. fold v in Hvv.
    pose proof (sin2_cos2 theta) as Hsc. unfold Rsqr in Hsc.
    eexists. split; [exact Hsome |].
    assert (Hdot : dot (vec3 (ux * (v * cos theta)) (v * sin theta) (uz * (v * cos theta)))
                       (vec3 (ux * (v * cos theta)) (v * sin theta) (uz * (v * cos theta)))
                   = Bot.g * dist ^ 2 / (2 * cos theta ^ 2 * (dist * tan theta - rise))).
    { unfold dot; cbn [x y z]. rewrite <- Hvv.
      transitivity (v * v * ((ux ^ 2 + uz ^ 2) * (cos theta * cos theta)
                             + sin theta * sin theta)); [ring |].
      rewrite Hu. replace (1 * (cos theta * cos theta) + sin theta * sin theta)
        with (sin theta * sin theta + cos theta * cos theta) by ring.
      rewrite Hsc. ring. }
    split; [exact Hdot |].
    destruct (component_bound _ _ Hrad Hdot) as (Bx & By & Bz). fold v in Bx, By, Bz.
    split; [exact Bx |]. split; [exact By |]. split; [exact Bz |].
    split; [| reflexivity].
    cbn [x y z]. rewrite <- Hvv.
    transitivity (v * v * (ux ^ 2 + uz ^ 2) * cos theta ^ 2); [ring |].
    rewrite Hu. ring.
  - unfold Bot.g, Ball.gravity; split; reflexivity.
Qed.

End Solver.


Lemma calculateShotVelocity_none_iff (s t : Vector3) (angleDeg : R) :
  Bot.calculateShotVelocity s t angleDeg = None <-> Bot.term3 s t angleDeg <= 0.
Proof.
  unfold Bot.calculateShotVelocity.
  destruct (Rle_dec _ _); split; intros; auto; try discriminate; lra.
Qed.

(* ------------------------------------------------------------------ *)
(** ** Flight under gravity alone, in closed form *)



(* ------------------------------------------------------------------ *)
(** ** A 45 degree shot over 7.5 units of level ground *)

Lemma toRadians_45 : Bot.toRadians 45 = PI / 4.
Proof. unfold Bot.toRadians; field. Qed.


Lemma sqrt2_pos : 0 < sqrt 2.
Proof. apply sqrt_lt_R0; lra. Qed.


Lemma cos_45_pos : 0 < cos (PI / 4).
Proof.
  rewrite cos_PI4. pose proof sqrt2_pos.
  unfold Rdiv. rewrite Rmult_1_l. apply Rinv_0_lt_compat; assumption.
Qed.

Lemma shot_distance : Bot.horizontalDistance zero3 shotTarget = 15 / 2.
Proof.
  unfold Bot.horizontalDistance, Three.length, Bot.diffXZ, shotTarget; simpl.
  replace ((15 / 2 - 0) * (15 / 2 - 0) + 0 * 0 + (0 - 0) * (0 - 0))
    with (15 / 2 * (15 / 2)) by field.
  apply sqrt_square; lra.
Qed.






(** A target 50 units up and 1 unit away cannot be reached at 45 degrees. *)
Example unreachable_target_gives_null :
  Bot.calculateShotVelocity zero3 (vec3 0 50 1) 45 = None.
Proof.
  apply calculateShotVelocity_none_iff.
  unfold Bot.term3, Bot.heightDifference, Bot.horizontalDistance, Three.length, Bot.diffXZ.
  rewrite toRadians_45, tan_PI4. unfold zero3, sub. cbn [x y z].
  replace ((0 - 0) * (0 - 0) + 0 * 0 + (1 - 0) * (1 - 0)) with 1 by ring.
  rewrite sqrt_1. lra.
Qed.

Lemma calculateShotVelocity_spec_witness :
  let angle := 45 * (PI / 180) in
  let xDist := sqrt ((x shotTarget - x zero3) * (x shotTarget - x zero3)
                     + (z shotTarget - z zero3) * (z shotTarget - z zero3)) in
  let divisor := 2 * cos angle ^ 2 * (xDist * tan angle - (y shotTarget - y zero3)) in
  0 < xDist * tan angle - (y shotTarget - y zero3) /\
  cos angle <> 0 /\
  0 < divisor /\
  exists vel : Vector3,
    Bot.calculateShotVelocity zero3 shotTarget 45 = Some vel /\
    dot vel vel = 15 * xDist ^ 2 / divisor.
Proof.
  intros angle xDist divisor.
  assert (Hpos : 0 < xDist * tan angle - (y shotTarget - y zero3)).
  { unfold xDist. rewrite <- (horizontalDistance_explicit zero3 shotTarget).
    change angle with (Bot.toRadians 45).
    rewrite shot_distance, toRadians_45, tan_PI4. unfold shotTarget; simpl. lra. }
  assert (Hcos : cos angle <> 0).
  { change angle with (Bot.toRadians 45). rewrite toRadians_45.
    pose proof cos_45_pos. lra. }
  split; [exact Hpos | split; [exact Hcos |]].
  destruct (calculateShotVelocity_spec zero3 shotTarget 45) as (_ & _ & Hfin & _).
  destruct (Hfin Hpos Hcos) as (Hdiv & _ & vel & Hsome & Hdot & _).
  split; [exact Hdiv |]. exists vel. split; [exact Hsome | exact Hdot].
Defined.

(* ------------------------------------------------------------------ *)
(** ** Round trip of the solver through the stepper's gravity *)
















(* ------------------------------------------------------------------ *)
(** ** The bounce of the ball *)

Lemma leastOverlapAxis_least (ballBox c : Box3) (a : Axis) :
  overlap (Ball.leastOverlapAxis ballBox c) ballBox c <= overlap a ballBox c.
Proof.
  unfold Ball.leastOverlapAxis.
  set (oX := overlap AxisX ballBox c). set (oY := overlap AxisY ballBox c).
  set (oZ := overlap AxisZ ballBox c).
  destruct (Rlt_dec oX oY); destruct (Rlt_dec oZ _); destruct a;
    fold oX oY oZ; lra.
Qed.

(** A horizontal normal stays horizontal when [multiplyScalar] scales it. *)
Lemma scaledNormal_flat (a : Axis) (s d : R) :
  a <> AxisY -> Rabs (y (Ball.scaledNormal (axisVector a s) d)) = 0.
Proof.
  intros H. unfold Ball.scaledNormal; simpl. rewrite (axisVector_y a s H).
  rewrite Rmult_0_l. apply Rabs_R0.
Qed.

(** The contact axis, case by case: y unless another overlap is strictly
    smaller, x unless the z overlap is strictly smaller than the x overlap. *)
Lemma leastOverlapAxis_cases (ballBox c : Box3) :
  let oX := overlap AxisX ballBox c in
  let oY := overlap AxisY ballBox c in
  let oZ := overlap AxisZ ballBox c in
  (Ball.leastOverlapAxis ballBox c = AxisY <-> oY <= oX /\ oY <= oZ) /\
  (Ball.leastOverlapAxis ballBox c = AxisX <-> oX < oY /\ oX <= oZ) /\
  (Ball.leastOverlapAxis ballBox c = AxisZ <-> oZ < oY /\ oZ < oX).
Proof.
  intros oX oY oZ. unfold Ball.leastOverlapAxis. fold oX oY oZ.
  destruct (Rlt_dec oX oY); destruct (Rlt_dec oZ _);
    repeat split; intros; try discriminate; try reflexivity; lra.
Qed.

Section Bounce.

Variable dt : R.
Variable ballBox : Box3.
Variable c : Collidable.
Variables pos vel : Vector3.

Let axis := Ball.leastOverlapAxis ballBox c.
Let sgn := sign (coord axis pos - coord axis (getCenter c)).
Let normal := axisVector axis sgn.

(** C3, amended.  For a collider that the ball's box intersects, the bounce
    takes the axis of least overlap as contact axis, and ties go to y, then
    x: the axis is y exactly when the y overlap is at most the x and the z
    overlap, x exactly when the x overlap is strictly smaller than the y
    overlap and at most the z overlap, and z exactly when the z overlap is
    strictly smaller than both others.  The overlap on an axis is the smaller
    of the two upper faces minus the larger of the two lower faces.  The
    candidate position is moved along the contact axis by the overlap,
    towards the side of the collider's centre on which the ball's centre
    lies.  The velocity is mirrored about the unit normal of that axis and
    scaled by the restitution exactly when it points against the normal;
    otherwise it is left as it is.  The extra damping of the x and z
    components is applied only to a mirrored velocity and only when the
    contact axis is y. *)
Theorem bounce_spec :
  intersectsBox ballBox c = true ->
  let pos' := fst (Ball.bounce dt ballBox (pos, vel) c) in
  let vel' := snd (Ball.bounce dt ballBox (pos, vel) c) in
  let oX := overlap AxisX ballBox c in
  let oY := overlap AxisY ballBox c in
  let oZ := overlap AxisZ ballBox c in
  (forall a, overlap axis ballBox c <= overlap a ballBox c) /\
  (forall a, overlap a ballBox c
             = Rmin (coord a (bmax ballBox)) (coord a (bmax c))
               - Rmax (coord a (bmin ballBox)) (coord a (bmin c))) /\
  (axis = AxisY <-> oY <= oX /\ oY <= oZ) /\
  (axis = AxisX <-> oX < oY /\ oX <= oZ) /\
  (axis = AxisZ <-> oZ < oY /\ oZ < oX) /\
  pos' = addCoord axis (overlap axis ballBox c * sgn) pos /\
  (0 <= dot vel normal -> vel' = vel) /\
  (dot vel normal < 0 ->
     (sgn = 1 \/ sgn = -1) /\
     (vel' = multiplyScalar (reflect vel normal) Ball.restitution \/
      (axis = AxisY /\
       vel' = damped dt (multiplyScalar (reflect vel normal) Ball.restitution))) /\
     (axis <> AxisY -> vel' = multiplyScalar (reflect vel normal) Ball.restitution)).
Proof.
  intros Hint pos' vel' oX oY oZ.
  split; [intros a; apply leastOverlapAxis_least |].
  split; [intros a; reflexivity |].
  destruct (leastOverlapAxis_cases ballBox c) as (HY & HX & HZ).
  split; [exact HY |]. split; [exact HX |]. split; [exact HZ |].
  clear HY HX HZ.
  unfold pos', vel', Ball.bounce. rewrite Hint. fold axis sgn normal.
  destruct (Rlt_dec (dot vel normal) 0) as [Hd | Hd].
  - destruct (Rlt_dec (1 / 2) _) as [Hf | Hf]; simpl.
    + split; [reflexivity |]. split; [intros; lra |]. intros _.
      assert (Hy : axis = AxisY).
      { destruct (Axis_eq_dec axis AxisY) as [Hy | Hn]; [exact Hy | exfalso].
        unfold normal in Hf. rewrite (scaledNormal_flat _ sgn _ Hn) in Hf. lra. }
      split; [| split].
      * unfold normal in Hd. rewrite axisVector_dot in Hd.
        destruct (sign_cases (coord axis pos - coord axis (getCenter c)))
          as [[_ H] | [[_ H] | [_ H]]]; fold sgn in H; auto.
        rewrite H in Hd. lra.
      * right. split; [exact Hy |].
        unfold damped, Ball.scaledNormal, reflect; simpl. f_equal; ring.
      * intros Hn. contradiction.
    + split; [reflexivity |]. split; [intros; lra |]. intros _.
      split; [| split].
      * unfold normal in Hd. rewrite axisVector_dot in Hd.
        destruct (sign_cases (coord axis pos - coord axis (getCenter c)))
          as [[_ H] | [[_ H] | [_ H]]]; fold sgn in H; auto.
        rewrite H in Hd. lra.
      * left. reflexivity.
      * intros _. reflexivity.
  - simpl. split; [reflexivity |]. split; [intros _; reflexivity | intros; lra].
Qed.

End Bounce.

(** *** Evaluation rules for a sub-step *)

Lemma leastOverlapAxis_y (ballBox c : Box3) :
  overlap AxisY ballBox c <= overlap AxisX ballBox c ->
  overlap AxisY ballBox c <= overlap AxisZ ballBox c ->
  Ball.leastOverlapAxis ballBox c = AxisY.
Proof.
  intros Hx Hz. unfold Ball.leastOverlapAxis.
  destruct (Rlt_dec _ _); [lra |]. destruct (Rlt_dec _ _); [lra | reflexivity].
Qed.

Lemma leastOverlapAxis_x (ballBox c : Box3) :
  overlap AxisX ballBox c < overlap AxisY ballBox c ->
  overlap AxisX ballBox c <= overlap AxisZ ballBox c ->
  Ball.leastOverlapAxis ballBox c = AxisX.
Proof.
  intros Hy Hz. unfold Ball.leastOverlapAxis.
  destruct (Rlt_dec _ _); [| lra]. destruct (Rlt_dec _ _); [lra | reflexivity].
Qed.


Section BounceRules.

Variable dt : R.
Variable ballBox : Box3.
Variable c : Collidable.
Variables pos vel : Vector3.
Variable a : Axis.
Variables o sg : R.

Hypothesis Hint : intersectsBox ballBox c = true.
Hypothesis Haxis : Ball.leastOverlapAxis ballBox c = a.
Hypothesis Ho : overlap a ballBox c = o.
Hypothesis Hsg : sign (coord a pos - coord a (getCenter c)) = sg.

Lemma bounce_away :
  0 <= coord a vel * sg ->
  Ball.bounce dt ballBox (pos, vel) c = (addCoord a (o * sg) pos, vel).
Proof.
  intros Hd. unfold Ball.bounce. rewrite Hint, Haxis, Hsg, Ho, axisVector_dot.
  destruct (Rlt_dec _ _); [lra | reflexivity].
Qed.

Lemma bounce_mirrored :
  coord a vel * sg < 0 ->
  Rabs (2 * (coord a vel * sg) * y (axisVector a sg)) <= 1 / 2 ->
  Ball.bounce dt ballBox (pos, vel) c
  = (addCoord a (o * sg) pos,
     multiplyScalar (reflect vel (axisVector a sg)) Ball.restitution).
Proof.
  intros Hd Hn. unfold Ball.bounce. rewrite Hint, Haxis, Hsg, Ho.
  destruct (Rlt_dec _ _) as [_ | H]; [| rewrite axisVector_dot in H; lra].
  destruct (Rlt_dec _ _) as [H | _]; [| reflexivity].
  exfalso. simpl in H. rewrite axisVector_dot in H.
  replace (y (axisVector a sg) * (2 * (coord a vel * sg)))
    with (2 * (coord a vel * sg) * y (axisVector a sg)) in H by ring.
  lra.
Qed.

Lemma bounce_damped :
  coord a vel * sg < 0 ->
  1 / 2 < Rabs (2 * (coord a vel * sg) * y (axisVector a sg)) ->
  Ball.bounce dt ballBox (pos, vel) c
  = (addCoord a (o * sg) pos,
     damped dt (multiplyScalar (reflect vel (axisVector a sg)) Ball.restitution)).
Proof.
  intros Hd Hn. unfold Ball.bounce. rewrite Hint, Haxis, Hsg, Ho.
  destruct (Rlt_dec _ _) as [_ | H]; [| rewrite axisVector_dot in H; lra].
  destruct (Rlt_dec _ _) as [_ | H].
  - unfold damped, reflect, Ball.scaledNormal; simpl. f_equal. f_equal; ring.
  - exfalso. simpl in H. rewrite axisVector_dot in H.
    replace (y (axisVector a sg) * (2 * (coord a vel * sg)))
      with (2 * (coord a vel * sg) * y (axisVector a sg)) in H by ring.
    lra.
Qed.

End BounceRules.

(** A sub-step against a single collider is one bounce from the candidate
    position. *)
Lemma step_single (dt : R) (c : Collidable) (b : Ball.t) :
  Ball.step dt [c] b
  = let st := Ball.bounce dt (Ball.ballBoxAt (Ball.position (Ball.step dt [] b)))
                (Ball.position (Ball.step dt [] b), Ball.velocity (Ball.step dt [] b)) c in
    Ball.mk (fst st) (snd st) (Ball.owner b) (Ball.active b).
Proof.
  unfold Ball.step, Ball.stepWith. cbn [fold_left].
  destruct (Ball.bounce dt _ _ c). reflexivity.
Qed.

(** A sub-step with nothing to collide with. *)
Lemma step_free (dt : R) (b : Ball.t) :
  Ball.step dt [] b
  = let v := Ball.velocity b in
    let v' := vec3 (x v - x v * Ball.drag * dt) (y v - Ball.gravity * dt)
                   (z v - z v * Ball.drag * dt) in
    Ball.mk (addScaledVector (Ball.position b) v' dt) v' (Ball.owner b) (Ball.active b).
Proof. reflexivity. Qed.


(** The rising ball: where gravity and drag take it, and how it meets the
    floor there. *)
Lemma rising_free :
  Ball.step (1 / 100) [] risingBall
  = launch (vec3 (199 / 20000) (297 / 2000) 0) (vec3 (199 / 200) (97 / 20) 0).
Proof.
  rewrite step_free. unfold risingBall, launch, Ball.drag, Ball.gravity, addScaledVector.
  cbn. f_equal; f_equal; field.
Qed.

Lemma rising_contact :
  let bb := Ball.ballBoxAt (vec3 (199 / 20000) (297 / 2000) 0) in
  intersectsBox bb courtFloor = true /\
  Ball.leastOverlapAxis bb courtFloor = AxisY /\
  overlap AxisY bb courtFloor = 3 / 2000.
Proof.
  intros bb.
  assert (Hy : overlap AxisY bb courtFloor = 3 / 2000)
    by (unfold bb, courtFloor; eval_box; lra).
  assert (Hx : overlap AxisX bb courtFloor = 3 / 10)
    by (unfold bb, courtFloor; eval_box; lra).
  assert (Hz : overlap AxisZ bb courtFloor = 3 / 10)
    by (unfold bb, courtFloor; eval_box; lra).
  split; [| split; [| exact Hy]].
  - apply intersects_true; unfold bb, courtFloor; eval_box; lra.
  - apply leastOverlapAxis_y; rewrite Hy; [rewrite Hx | rewrite Hz]; lra.
Qed.

Lemma rising_step :
  Ball.step (1 / 100) [courtFloor] risingBall
  = launch (vec3 (199 / 20000) (15 / 100) 0) (vec3 (199 / 200) (97 / 20) 0).
Proof.
  destruct rising_contact as (Hint & Hax & Ho).
  rewrite step_single, rising_free. unfold launch at 1 2 3. cbn [Ball.position Ball.velocity].
  rewrite (bounce_away (1 / 100) _ courtFloor _ _ AxisY (3 / 2000) 1 Hint Hax Ho).
  - unfold risingBall, launch. cbn. f_equal. f_equal; field.
  - rewrite courtFloor_center. cbn [coord x y z]. apply sign_pos. lra.
  - cbn [coord x y z]. lra.
Qed.

(** Counterexample to C3.  In a sub-step of 0.01 s the rising ball's box
    intersects the court floor, y is the axis of least overlap and the ball's
    centre is above the floor's, so that the normal is (0, 1, 0); the ball is
    pushed up to rest on the floor, but its velocity is neither mirrored nor
    damped: it is the velocity gravity and drag left, (0.995, 4.85, 0). *)
Lemma rising_ball_not_reflected :
  let p := candidate (1 / 100) risingBall in
  let v := Ball.velocity (Ball.step (1 / 100) [] risingBall) in
  intersectsBox (Ball.ballBoxAt p) courtFloor = true /\
  Ball.leastOverlapAxis (Ball.ballBoxAt p) courtFloor = AxisY /\
  sign (y p - y (getCenter courtFloor)) = 1 /\
  Ball.position (Ball.step (1 / 100) [courtFloor] risingBall) = vec3 (199 / 20000) (15 / 100) 0 /\
  Ball.velocity (Ball.step (1 / 100) [courtFloor] risingBall) = v /\
  v = vec3 (199 / 200) (97 / 20) 0 /\
  v <> multiplyScalar (reflect v (vec3 0 1 0)) Ball.restitution /\
  v <> damped (1 / 100) v.
Proof.
  intros p v. unfold p, v, candidate. rewrite rising_step, rising_free.
  unfold launch. cbn [Ball.position Ball.velocity].
  destruct rising_contact as (Hint & Hax & Ho).
  repeat split; try assumption.
  - rewrite courtFloor_center. cbn [x y z]. apply sign_pos. lra.
  - unfold reflect, dot, multiplyScalar, sub, Ball.restitution. cbn [x y z].
    intros H. injection H as Hx Hy. lra.
  - unfold damped, Ball.friction. cbn [x y z]. intros H. injection H as Hx. lra.
Qed.

Lemma bounce_spec_witness :
  let p := vec3 0 (1 / 10) 0 in
  intersectsBox (Ball.ballBoxAt p) courtFloor = true /\
  fst (Ball.bounce (1 / 100) (Ball.ballBoxAt p) (p, vec3 1 (-5) 0) courtFloor)
  = addCoord (Ball.leastOverlapAxis (Ball.ballBoxAt p) courtFloor)
      (overlap (Ball.leastOverlapAxis (Ball.ballBoxAt p) courtFloor)
               (Ball.ballBoxAt p) courtFloor
       * sign (coord (Ball.leastOverlapAxis (Ball.ballBoxAt p) courtFloor) p
               - coord (Ball.leastOverlapAxis (Ball.ballBoxAt p) courtFloor)
                       (getCenter courtFloor)))
      p.
Proof.
  intros p.
  assert (Hint : intersectsBox (Ball.ballBoxAt p) courtFloor = true).
  { apply intersects_true; unfold p, courtFloor; eval_box; lra. }
  split; [exact Hint |].
  exact (proj1 (proj2 (proj2 (proj2 (proj2 (proj2
           (bounce_spec (1 / 100) (Ball.ballBoxAt p) courtFloor p
                        (vec3 1 (-5) 0) Hint))))))).
Defined.

Lemma rolling_free :
  Ball.step (1 / 100) [] rollingBall
  = launch (vec3 (199 / 20000) (297 / 2000) 0) (vec3 (199 / 200) (- (15 / 100)) 0).
Proof.
  rewrite step_free. unfold rollingBall, launch, Ball.drag, Ball.gravity, addScaledVector.
  cbn. f_equal; f_equal; field.
Qed.

(** The rolling ball's contact normal is vertical and its velocity is
    mirrored, yet no friction is applied: when the friction test reads
    [normal.y], the normal has already been scaled in place by [2 * dot],
    here to (0, -0.3, 0). *)
Example rolling_ball_gets_no_friction :
  let v := Ball.velocity (Ball.step (1 / 100) [] rollingBall) in
  let mirrored := multiplyScalar (reflect v (vec3 0 1 0)) Ball.restitution in
  Ball.velocity (Ball.step (1 / 100) [courtFloor] rollingBall) = mirrored /\
  mirrored = vec3 (199 / 250) (3 / 25) 0 /\
  mirrored <> damped (1 / 100) mirrored.
Proof.
  intros v mirrored.
  assert (Hm : mirrored = vec3 (199 / 250) (3 / 25) 0).
  { unfold mirrored, v. rewrite rolling_free.
    unfold launch, reflect, dot, multiplyScalar, sub, Ball.restitution.
    cbn [Ball.velocity x y z]. f_equal; field. }
  split; [| split; [exact Hm |]].
  - destruct rising_contact as (Hint & Hax & Ho).
    unfold mirrored, v. rewrite step_single, rolling_free.
    unfold launch at 1 2 3. cbn [Ball.position Ball.velocity].
    rewrite (bounce_mirrored (1 / 100) _ courtFloor _ _ AxisY (3 / 2000) 1 Hint Hax Ho).
    + reflexivity.
    + rewrite courtFloor_center. cbn [coord x y z]. apply sign_pos. lra.
    + cbn [coord x y z]. lra.
    + cbn. rewrite Rabs_left; lra.
  - rewrite Hm. unfold damped, Ball.friction. cbn [x y z].
    intros H. injection H as Hx. lra.
Qed.
(* ------------------------------------------------------------------ *)
(** ** The player's hard stop *)

Lemma tinyTouch_false (playerBox c : Box3) :
  Player.tinyTouch playerBox c = false <->
  forall a, Player.touchEpsilon <= Rabs (overlap a playerBox c).
Proof.
  unfold Player.tinyTouch. split.
  - destruct (Rlt_dec _ _); [discriminate |].
    destruct (Rlt_dec _ _); [discriminate |].
    destruct (Rlt_dec _ _); [discriminate |].
    intros _ [ | | ]; lra.
  - intros H. pose proof (H AxisX). pose proof (H AxisY). pose proof (H AxisZ).
    destruct (Rlt_dec _ _); [lra |].
    destruct (Rlt_dec _ _); [lra |].
    destruct (Rlt_dec _ _); [lra | reflexivity].
Qed.

Lemma tinyTouch_true (playerBox c : Box3) (a : Axis) :
  Rabs (overlap a playerBox c) < Player.touchEpsilon ->
  Player.tinyTouch playerBox c = true.
Proof.
  intros H. destruct (Player.tinyTouch playerBox c) eqn:E; [reflexivity |].
  rewrite tinyTouch_false in E. specialize (E a). lra.
Qed.

Lemma playerBox_ordered (a : Axis) (pos : Vector3) :
  coord a (bmin (Player.playerBoxAt pos)) <= coord a (bmax (Player.playerBoxAt pos)).
Proof.
  unfold Player.playerBoxAt, Player.width, Player.height.
  destruct a; simpl; lra.
Qed.


(** A collider that intersects the player's box and is not a tiny touch
    overlaps it by at least the threshold on every axis on which the
    collider is not inside out. *)
Lemma player_overlap_pos (a : Axis) (pos : Vector3) (c : Collidable) :
  intersectsBox (Player.playerBoxAt pos) c = true ->
  Player.tinyTouch (Player.playerBoxAt pos) c = false ->
  coord a (bmin c) <= coord a (bmax c) ->
  Player.touchEpsilon <= overlap a (Player.playerBoxAt pos) c.
Proof.
  intros Hint Htiny Hc.
  pose proof (overlap_nonneg a _ _ Hint (playerBox_ordered a pos) Hc) as H0.
  rewrite tinyTouch_false in Htiny. specialize (Htiny a).
  rewrite Rabs_pos_eq in Htiny; assumption.
Qed.

Lemma resolveOne_hard_stop (a : Axis) (p : Player.t) (c : Collidable) :
  intersectsBox (Player.playerBoxAt (Player.position p)) c = true ->
  Player.tinyTouch (Player.playerBoxAt (Player.position p)) c = false ->
  coord a (bmin c) <= coord a (bmax c) ->
  let p' := Player.resolveOne a p c in
  Player.position p' = addCoord a (pushOf a p c) (Player.position p) /\
  Player.velocity p' = setCoord a 0 (Player.velocity p) /\
  (a = AxisY -> y (Player.velocity p) <= 0 -> Player.onGround p' = true) /\
  (a = AxisY -> 0 < y (Player.velocity p) -> Player.onGround p' = Player.onGround p) /\
  (a <> AxisY -> Player.onGround p' = Player.onGround p) /\
  Player.stamina p' = Player.stamina p.
Proof.
  intros Hint Htiny Hc p'.
  pose proof (player_overlap_pos a _ c Hint Htiny Hc) as Ho.
  unfold Player.touchEpsilon in Ho.
  unfold p', Player.resolveOne, pushOf. rewrite Hint, Htiny.
  destruct a; simpl in Ho |- *.
  - destruct (Rlt_dec 0 _) as [_ | Hn]; [| lra]. simpl.
    repeat split; auto; congruence.
  - destruct (Rlt_dec 0 _) as [_ | Hn]; [| lra].
    destruct (Rlt_dec (y (Player.velocity p)) 0) as [Hdown | Hnd].
    + destruct (Rlt_dec 0 (y (Player.velocity p))); [lra |]. simpl.
      repeat split; auto; intros; try lra; congruence.
    + destruct (Rlt_dec 0 (y (Player.velocity p))) as [Hup | Hnu]; simpl.
      * repeat split; auto; intros; try lra; congruence.
      * assert (H0 : y (Player.velocity p) = 0) by lra.
        repeat split; auto; try (intros; congruence).
        destruct (Player.velocity p) as [vx vy vz]; simpl in *. rewrite H0. reflexivity.
  - destruct (Rlt_dec 0 _) as [_ | Hn]; [| lra]. simpl.
    repeat split; auto; congruence.
Qed.

Lemma sameOffAxis_refl (a : Axis) (p : Player.t) : sameOffAxis a p p.
Proof. intros b _; split; reflexivity. Qed.

Lemma sameOffAxis_trans (a : Axis) (p q r : Player.t) :
  sameOffAxis a p q -> sameOffAxis a q r -> sameOffAxis a p r.
Proof.
  intros H1 H2 b Hb. destruct (H1 b Hb), (H2 b Hb). split; congruence.
Qed.

Lemma resolveOne_frame (a : Axis) (p : Player.t) (c : Collidable) :
  sameOffAxis a p (Player.resolveOne a p c).
Proof.
  intros b Hb. unfold Player.resolveOne.
  destruct (intersectsBox _ _); [| split; reflexivity].
  destruct (Player.tinyTouch _ _); [split; reflexivity |].
  destruct a;
    repeat (destruct (Rlt_dec _ _); [| try (split; reflexivity)]);
    destruct b; try contradiction; split; reflexivity.
Qed.

Lemma resolveCollisions_frame (cs : list Collidable) (a : Axis) (p : Player.t) :
  sameOffAxis a p (Player.resolveCollisions cs a p).
Proof.
  unfold Player.resolveCollisions. revert p.
  induction cs as [| c cs IH]; intros p; simpl.
  - apply sameOffAxis_refl.
  - eapply sameOffAxis_trans; [apply resolveOne_frame | apply IH].
Qed.

Lemma moveAxis_frame (delta : R) (cs : list Collidable) (a : Axis) (p : Player.t) :
  sameOffAxis a p (Player.moveAxis delta cs a p).
Proof.
  unfold Player.moveAxis.
  eapply sameOffAxis_trans; [| apply resolveCollisions_frame].
  intros b Hb. destruct a, b; try contradiction; split; reflexivity.
Qed.

Lemma resolveOne_skips (a : Axis) (p : Player.t) (c : Collidable) :
  intersectsBox (Player.playerBoxAt (Player.position p)) c = false \/
  Player.tinyTouch (Player.playerBoxAt (Player.position p)) c = true ->
  Player.resolveOne a p c = p.
Proof.
  intros H. unfold Player.resolveOne.
  destruct (intersectsBox _ _); [| reflexivity].
  destruct H as [H | H]; [discriminate | rewrite H; reflexivity].
Qed.

(** The push of a horizontal hard stop: against the velocity when there is
    one, else away from the collider's centre. *)
Lemma pushOf_horizontal (a : Axis) (p : Player.t) (c : Collidable) :
  a <> AxisY ->
  let o := overlap a (Player.playerBoxAt (Player.position p)) c in
  (coord a (Player.velocity p) < 0 -> pushOf a p c = o) /\
  (0 < coord a (Player.velocity p) -> pushOf a p c = - o) /\
  (coord a (Player.velocity p) = 0 ->
   pushOf a p c = o * sign (coord a (Player.position p) - coord a (getCenter c))).
Proof.
  intros Ha o. unfold pushOf. fold o.
  destruct a; try contradiction; unfold Player.pushSign;
    (destruct (Req_dec_T _ _) as [E | E];
     [repeat split; intros; try lra; reflexivity
     | repeat split; intros H;
       [rewrite (sign_neg _ H); ring | rewrite (sign_pos _ H); ring | contradiction]]).
Qed.

Lemma update_unlocked_fields (f : Player.Frame) (delta : R) (cs : list Collidable)
    (p : Player.t) :
  Player.pointerLocked f = false ->
  Player.update f delta cs p
  = Player.mk (Player.position p) (vec3 0 0 0) (Player.onGround p) (Player.stamina p)
      (Player.moveForward p) (Player.moveBackward p) (Player.moveLeft p)
      (Player.moveRight p) (Player.isRunning p).
Proof. intros H. unfold Player.update. rewrite H. reflexivity. Qed.

(** C4, amended.  In an update frame in which the pointer is not locked the
    update only zeroes the velocity: the position, the ground flag, the
    stamina and the inputs stay as they are, nothing is moved and no
    collision is resolved.  In every update frame in which the pointer is
    locked, the position delta is applied and the collisions are resolved
    once per axis, x first, then z, then y.  The pass on an axis changes no
    other coordinate of the position or of the velocity.  A collider that
    does not intersect the player's box, or touches it by less than the
    threshold on some axis, changes nothing.  Each hard stop, against a
    collider that intersects the player's box beyond the touch threshold,
    adds the signed overlap to the position on the axis of the pass and
    leaves the velocity zero on that axis only.  On the vertical axis the
    player is pushed up and [onGround] is set when the vertical velocity is
    negative or zero; with a positive vertical velocity the player is pushed
    down and [onGround] is left as it is.  On a horizontal axis [onGround] is
    left as it is and the push is against the velocity on that axis, or, when
    this is zero, away from the collider's centre. *)
Theorem update_resolves_axis_by_axis (f : Player.Frame) (delta : R)
    (cs : list Collidable) (p : Player.t) :
  (Player.pointerLocked f = false ->
   Player.update f delta cs p
   = Player.mk (Player.position p) (vec3 0 0 0) (Player.onGround p) (Player.stamina p)
       (Player.moveForward p) (Player.moveBackward p) (Player.moveLeft p)
       (Player.moveRight p) (Player.isRunning p)) /\
  (Player.pointerLocked f = true ->
   Player.update f delta cs p
   = Player.fallSafety
       (Player.moveAxis delta cs AxisY
          (Player.moveAxis delta cs AxisZ
             (Player.moveAxis delta cs AxisX (Player.prepare f delta p))))) /\
  (forall a q,
     Player.moveAxis delta cs a q
     = fold_left (Player.resolveOne a) cs
         (Player.setMotion
            (addCoord a (coord a (Player.velocity q) * delta) (Player.position q))
            (Player.velocity q) (Player.onGround q) q) /\
     sameOffAxis a q (Player.moveAxis delta cs a q)) /\
  (forall a q c,
     intersectsBox (Player.playerBoxAt (Player.position q)) c = false \/
     Player.tinyTouch (Player.playerBoxAt (Player.position q)) c = true ->
     Player.resolveOne a q c = q) /\
  (forall a q c,
     intersectsBox (Player.playerBoxAt (Player.position q)) c = true ->
     Player.tinyTouch (Player.playerBoxAt (Player.position q)) c = false ->
     coord a (bmin c) <= coord a (bmax c) ->
     let q' := Player.resolveOne a q c in
     let o := overlap a (Player.playerBoxAt (Player.position q)) c in
     0 < o /\
     (coord a (Player.position q') = coord a (Player.position q) + o \/
      coord a (Player.position q') = coord a (Player.position q) - o \/
      coord a (Player.position q') = coord a (Player.position q)) /\
     Player.position q' = addCoord a (pushOf a q c) (Player.position q) /\
     Player.velocity q' = setCoord a 0 (Player.velocity q) /\
     (a = AxisY -> y (Player.velocity q) <= 0 ->
      Player.onGround q' = true /\ y (Player.position q') = y (Player.position q) + o) /\
     (a = AxisY -> 0 < y (Player.velocity q) ->
      Player.onGround q' = Player.onGround q /\
      y (Player.position q') = y (Player.position q) - o) /\
     (a <> AxisY ->
      Player.onGround q' = Player.onGround q /\
      (coord a (Player.velocity q) < 0 ->
       coord a (Player.position q') = coord a (Player.position q) + o) /\
      (0 < coord a (Player.velocity q) ->
       coord a (Player.position q') = coord a (Player.position q) - o) /\
      (coord a (Player.velocity q) = 0 ->
       coord a (Player.position q')
       = coord a (Player.position q)
         + o * sign (coord a (Player.position q) - coord a (getCenter c))))).
Proof.
  split; [apply update_unlocked_fields |].
  split; [intros Hlock; unfold Player.update; rewrite Hlock; reflexivity |].
  split; [intros a q; split; [reflexivity | apply moveAxis_frame] |].
  split; [intros a q c; apply resolveOne_skips |].
  intros a q c Hint Htiny Hc q' o.
  destruct (resolveOne_hard_stop a q c Hint Htiny Hc) as (Hp & Hv & Hg & Hup & Hside & _).
  fold q' in Hp, Hv, Hg, Hup, Hside.
  pose proof (player_overlap_pos a _ c Hint Htiny Hc) as Ho. fold o in Ho.
  unfold Player.touchEpsilon in Ho.
  assert (Hcoord : coord a (Player.position q')
                   = coord a (Player.position q) + pushOf a q c).
  { rewrite Hp. destruct a; reflexivity. }
  split; [lra |].
  split; [| split; [exact Hp | split; [exact Hv | split; [| split]]]].
  - rewrite Hcoord. unfold pushOf. fold o.
    destruct a; simpl.
    + unfold Player.pushSign. destruct (Req_dec_T _ _).
      * destruct (sign_cases (x (Player.position q) - x (getCenter c)))
          as [[_ H] | [[_ H] | [_ H]]]; rewrite H; [left | right; left | right; right]; lra.
      * destruct (sign_cases (x (Player.velocity q)))
          as [[_ H] | [[_ H] | [_ H]]]; rewrite H; [right; left | left | right; right]; lra.
    + destruct (Rlt_dec _ _); [right; left | left]; lra.
    + unfold Player.pushSign. destruct (Req_dec_T _ _).
      * destruct (sign_cases (z (Player.position q) - z (getCenter c)))
          as [[_ H] | [[_ H] | [_ H]]]; rewrite H; [left | right; left | right; right]; lra.
      * destruct (sign_cases (z (Player.velocity q)))
          as [[_ H] | [[_ H] | [_ H]]]; rewrite H; [right; left | left | right; right]; lra.
  - intros Ha Hdown. split; [apply Hg; assumption |].
    rewrite Hp. unfold pushOf. subst a. fold o. simpl.
    destruct (Rlt_dec _ _); lra.
  - intros Ha Hrise. split; [apply Hup; assumption |].
    rewrite Hp. unfold pushOf. subst a. fold o. simpl.
    destruct (Rlt_dec _ _); lra.
  - intros Ha. split; [apply Hside; exact Ha |].
    destruct (pushOf_horizontal a q c Ha) as (H1 & H2 & H3). fold o in H1, H2, H3.
    rewrite Hcoord.
    split; [intros H; rewrite (H1 H); reflexivity |].
    split; [intros H; rewrite (H2 H); lra | intros H; rewrite (H3 H); reflexivity].
Qed.

(** [sunkPlayer] stands in the court floor, with no vertical velocity. *)
Lemma sunkPlayer_in_floor :
  intersectsBox (Player.playerBoxAt (Player.position sunkPlayer)) courtFloor = true /\
  Player.tinyTouch (Player.playerBoxAt (Player.position sunkPlayer)) courtFloor = false /\
  coord AxisY (bmin courtFloor) <= coord AxisY (bmax courtFloor) /\
  y (Player.velocity sunkPlayer) <= 0.
Proof.
  split; [| split; [| split]].
  - apply intersects_true; unfold sunkPlayer, courtFloor; eval_box; lra.
  - apply tinyTouch_false. unfold Player.touchEpsilon.
    intros [ | | ]; unfold sunkPlayer, courtFloor; eval_box; rewrite Rabs_pos_eq; lra.
  - unfold courtFloor; cbn; lra.
  - unfold sunkPlayer; cbn; lra.
Qed.

Lemma update_resolves_axis_by_axis_witness :
  (Player.pointerLocked (lookingNorth false) = false /\
   Player.update (lookingNorth false) (1 / 10) [courtFloor] sunkPlayer
   = Player.mk (vec3 0 1 0) (vec3 0 0 0) false 60 false false false false false) /\
  (Player.pointerLocked (lookingNorth true) = true /\
   Player.update (lookingNorth true) (1 / 10) [courtFloor] sunkPlayer
   = Player.fallSafety
       (Player.moveAxis (1 / 10) [courtFloor] AxisY
          (Player.moveAxis (1 / 10) [courtFloor] AxisZ
             (Player.moveAxis (1 / 10) [courtFloor] AxisX
                (Player.prepare (lookingNorth true) (1 / 10) sunkPlayer))))) /\
  (intersectsBox (Player.playerBoxAt (Player.position sunkPlayer)) courtFloor = true /\
   Player.tinyTouch (Player.playerBoxAt (Player.position sunkPlayer)) courtFloor = false /\
   coord AxisY (bmin courtFloor) <= coord AxisY (bmax courtFloor) /\
   y (Player.velocity sunkPlayer) <= 0 /\
   Player.onGround (Player.resolveOne AxisY sunkPlayer courtFloor) = true /\
   y (Player.position (Player.resolveOne AxisY sunkPlayer courtFloor))
   = y (Player.position sunkPlayer)
     + overlap AxisY (Player.playerBoxAt (Player.position sunkPlayer)) courtFloor).
Proof.
  destruct sunkPlayer_in_floor as (Hint & Htiny & Hc & Hv).
  split; [split; [reflexivity |] | split; [split; [reflexivity |] |]].
  - exact (proj1 (update_resolves_axis_by_axis (lookingNorth false) (1 / 10)
                    [courtFloor] sunkPlayer) eq_refl).
  - exact (proj1 (proj2 (update_resolves_axis_by_axis (lookingNorth true) (1 / 10)
                           [courtFloor] sunkPlayer)) eq_refl).
  - split; [exact Hint | split; [exact Htiny | split; [exact Hc | split; [exact Hv |]]]].
    exact (proj1 (proj2 (proj2 (proj2 (proj2
             (proj2 (proj2 (proj2 (proj2
                (update_resolves_axis_by_axis (lookingNorth true) (1 / 10)
                   [courtFloor] sunkPlayer)))) AxisY sunkPlayer courtFloor
                Hint Htiny Hc))))) eq_refl Hv).
Defined.

Lemma update_unlocked (f : Player.Frame) (delta : R) (cs : list Collidable)
    (p : Player.t) :
  Player.pointerLocked f = false ->
  Player.update f delta cs p = movedTo (Player.position p) zero3 p.
Proof. intros H. unfold Player.update. rewrite H. reflexivity. Qed.

(** Counterexample to C4.  In a frame in which the pointer is not locked the
    player, who moves along x at 3 units per second and whose box overlaps the
    court floor by 0.6 on y (and by as much on x and z), is not moved and is
    not pushed out of the floor: the position stays where it was and the
    overlap stays 0.6. *)
Lemma unlocked_frame_skips_resolution :
  let p' := Player.update (lookingNorth false) (1 / 10) [courtFloor] sunkPlayer in
  Player.position p' = vec3 0 1 0 /\
  x (Player.position p') <> x (Player.position sunkPlayer)
                            + x (Player.velocity sunkPlayer) * (1 / 10) /\
  intersectsBox (Player.playerBoxAt (Player.position p')) courtFloor = true /\
  Player.tinyTouch (Player.playerBoxAt (Player.position p')) courtFloor = false /\
  overlap AxisY (Player.playerBoxAt (Player.position p')) courtFloor = 6 / 10.
Proof.
  intros p'. unfold p'. rewrite update_unlocked by reflexivity.
  unfold movedTo, sunkPlayer. cbn [Player.setMotion Player.position Player.velocity x].
  split; [reflexivity |]. split; [lra |]. split; [| split].
  - apply intersects_true; unfold courtFloor; eval_box; lra.
  - apply tinyTouch_false. unfold Player.touchEpsilon.
    intros [ | | ]; unfold courtFloor; eval_box; rewrite Rabs_pos_eq; lra.
  - unfold courtFloor; eval_box; lra.
Qed.
(* ------------------------------------------------------------------ *)
(** ** What a resolution pass leaves of the overlap *)




(** The position a bounce leaves. *)
Lemma bounce_position (dt : R) (ballBox : Box3) (c : Collidable) (pos vel : Vector3) :
  intersectsBox ballBox c = true ->
  let a := Ball.leastOverlapAxis ballBox c in
  fst (Ball.bounce dt ballBox (pos, vel) c)
  = addCoord a (overlap a ballBox c * sign (coord a pos - coord a (getCenter c))) pos.
Proof.
  intros Hint a. unfold Ball.bounce. rewrite Hint. fold a.
  destruct (Rlt_dec _ _); [destruct (Rlt_dec _ _) |]; reflexivity.
Qed.




Lemma moveAxis_single (delta : R) (c : Collidable) (a : Axis) (p : Player.t) :
  Player.moveAxis delta [c] a p
  = Player.resolveOne a
      (movedTo (addCoord a (coord a (Player.velocity p) * delta) (Player.position p))
               (Player.velocity p) p) c.
Proof. reflexivity. Qed.







(* ------------------------------------------------------------------ *)
(** ** Tiny touches *)

Lemma resolveOne_tiny (axis a : Axis) (p : Player.t) (c : Collidable) :
  Rabs (overlap a (Player.playerBoxAt (Player.position p)) c) < Player.touchEpsilon ->
  Player.resolveOne axis p c = p.
Proof.
  intros Ha. unfold Player.resolveOne.
  destruct (intersectsBox _ _); [| reflexivity].
  rewrite (tinyTouch_true _ _ a Ha). reflexivity.
Qed.

(** C6, amended.  The player's hard stop skips a collider whose overlap with
    the player's box is below 1e-3 on any of the three axes: position,
    velocity and every other field are left as they were, on whichever axis
    the pass runs.  The ball's bounce has no such threshold: every collider
    its box intersects moves the candidate position by the whole overlap on
    the axis of least overlap, however small, unless the two centres
    coincide on that axis. *)
Theorem tiny_touch_policy :
  (forall (axis a : Axis) (p : Player.t) (c : Collidable),
     intersectsBox (Player.playerBoxAt (Player.position p)) c = true ->
     Rabs (overlap a (Player.playerBoxAt (Player.position p)) c) < 1 / 1000 ->
     Player.resolveOne axis p c = p /\ Player.resolveCollisions [c] axis p = p) /\
  (forall (dt : R) (ballBox : Box3) (c : Collidable) (pos vel : Vector3),
     intersectsBox ballBox c = true ->
     let a := Ball.leastOverlapAxis ballBox c in
     let pos' := fst (Ball.bounce dt ballBox (pos, vel) c) in
     coord a pos <> coord a (getCenter c) ->
     (coord a pos' = coord a pos + overlap a ballBox c \/
      coord a pos' = coord a pos - overlap a ballBox c) /\
     (overlap a ballBox c <> 0 -> pos' <> pos)).
Proof.
  split.
  - intros axis a p c _ Ha.
    assert (H : Player.resolveOne axis p c = p) by (apply (resolveOne_tiny axis a); exact Ha).
    split; [exact H |]. unfold Player.resolveCollisions. simpl. exact H.
  - intros dt ballBox c pos vel Hint a pos' Hne.
    unfold pos'. rewrite (bounce_position dt ballBox c pos vel Hint). fold a.
    assert (Hs : sign (coord a pos - coord a (getCenter c)) = 1 \/
                 sign (coord a pos - coord a (getCenter c)) = -1).
    { destruct (sign_cases (coord a pos - coord a (getCenter c)))
        as [[_ H] | [[_ H] | [H _]]]; [left | right | exfalso]; auto; lra. }
    assert (Hc : forall d, coord a (addCoord a d pos) = coord a pos + d)
      by (intros d; destruct a; reflexivity).
    split.
    + rewrite Hc. destruct Hs as [-> | ->]; [left | right]; ring.
    + intros Ho Heq. apply (f_equal (coord a)) in Heq. rewrite Hc in Heq.
      destruct Hs as [Hs | Hs]; rewrite Hs in Heq; lra.
Qed.

(** The ball at rest on the floor, in a sub-step of 0.005 s. *)
Lemma resting_free :
  Ball.step (1 / 200) [] restingBall
  = launch (vec3 0 (1197 / 8000) 0) (vec3 0 (- (3 / 40)) 0).
Proof.
  rewrite step_free.
  unfold restingBall, launch, zero3, Ball.drag, Ball.gravity, addScaledVector.
  cbn. f_equal; f_equal; field.
Qed.

Lemma resting_contact :
  let bb := Ball.ballBoxAt (vec3 0 (1197 / 8000) 0) in
  intersectsBox bb courtFloor = true /\
  Ball.leastOverlapAxis bb courtFloor = AxisY /\
  overlap AxisY bb courtFloor = 3 / 8000.
Proof.
  intros bb.
  assert (Hy : overlap AxisY bb courtFloor = 3 / 8000)
    by (unfold bb, courtFloor; eval_box; lra).
  assert (Hx : overlap AxisX bb courtFloor = 3 / 10)
    by (unfold bb, courtFloor; eval_box; lra).
  assert (Hz : overlap AxisZ bb courtFloor = 3 / 10)
    by (unfold bb, courtFloor; eval_box; lra).
  split; [| split; [| exact Hy]].
  - apply intersects_true; unfold bb, courtFloor; eval_box; lra.
  - apply leastOverlapAxis_y; rewrite Hy; [rewrite Hx | rewrite Hz]; lra.
Qed.

Lemma tiny_touch_policy_witness :
  let m := Player.playerBoxAt (vec3 0 (15995 / 10000) 0) in
  let p := movedTo (vec3 0 (15995 / 10000) 0) (vec3 0 (-1) 0) lander in
  intersectsBox m courtFloor = true /\
  Rabs (overlap AxisY m courtFloor) < 1 / 1000 /\
  Player.resolveOne AxisY p courtFloor = p.
Proof.
  intros m p.
  assert (Hint : intersectsBox m courtFloor = true).
  { apply intersects_true; unfold m, courtFloor; eval_box; lra. }
  assert (Ho : Rabs (overlap AxisY m courtFloor) < 1 / 1000).
  { unfold m, courtFloor; eval_box. rewrite Rabs_pos_eq; lra. }
  split; [exact Hint | split; [exact Ho |]].
  exact (proj1 (proj1 tiny_touch_policy AxisY AxisY p courtFloor Hint Ho)).
Defined.

(** Counterexample to C6.  In a sub-step of 0.005 s the ball at rest on the
    floor sinks 0.000375 into it: its box intersects the floor with an
    overlap below 1e-3 on y.  The bounce does not skip the floor: it lifts
    the ball back to 0.15 and mirrors its velocity to (0, 0.06, 0), where a
    skip would have left the candidate position and the velocity
    (0, -0.075, 0). *)
Lemma ball_bounces_on_tiny_overlap :
  let bb := Ball.ballBoxAt (candidate (1 / 200) restingBall) in
  intersectsBox bb courtFloor = true /\
  overlap AxisY bb courtFloor = 3 / 8000 /\
  Rabs (overlap AxisY bb courtFloor) < 1 / 1000 /\
  Ball.step (1 / 200) [courtFloor] restingBall
  = launch (vec3 0 (3 / 20) 0) (vec3 0 (3 / 50) 0) /\
  Ball.step (1 / 200) [] restingBall
  = launch (vec3 0 (1197 / 8000) 0) (vec3 0 (- (3 / 40)) 0) /\
  Ball.position (Ball.step (1 / 200) [courtFloor] restingBall)
  <> Ball.position (Ball.step (1 / 200) [] restingBall) /\
  Ball.velocity (Ball.step (1 / 200) [courtFloor] restingBall)
  <> Ball.velocity (Ball.step (1 / 200) [] restingBall).
Proof.
  intros bb. unfold bb, candidate.
  destruct resting_contact as (Hint & Hax & Ho).
  assert (Hstep : Ball.step (1 / 200) [courtFloor] restingBall
                  = launch (vec3 0 (3 / 20) 0) (vec3 0 (3 / 50) 0)).
  { rewrite step_single, resting_free. unfold launch at 1 2 3.
    cbn [Ball.position Ball.velocity].
    rewrite (bounce_mirrored (1 / 200) _ courtFloor _ _ AxisY (3 / 8000) 1 Hint Hax Ho).
    - unfold restingBall, launch, reflect, dot, multiplyScalar, sub, Ball.restitution.
      cbn. f_equal; f_equal; field.
    - rewrite courtFloor_center. cbn [coord x y z]. apply sign_pos. lra.
    - cbn [coord x y z]. lra.
    - cbn. rewrite Rabs_left; lra. }
  rewrite Hstep, resting_free. unfold launch. cbn [Ball.position Ball.velocity].
  split; [exact Hint |]. split; [exact Ho |]. rewrite Ho.
  split; [rewrite Rabs_pos_eq; lra |].
  split; [reflexivity |]. split; [reflexivity |].
  split; intros H; injection H as H; lra.
Qed.

(* ------------------------------------------------------------------ *)
(** ** Sub-stepping *)

Lemma subStepSize_pos : 0 < Ball.subStepSize.
Proof. unfold Ball.subStepSize; lra. Qed.

Lemma subSteps_done (fuel : nat) (rem : R) (cs : list Collidable) (b : Ball.t) :
  rem <= 0 -> Ball.subSteps fuel rem cs b = Some b.
Proof. intros H. destruct fuel; simpl; destruct (Rlt_dec 0 rem); auto; lra. Qed.

Lemma subSteps_more (fuel : nat) (rem : R) (cs : list Collidable) (b : Ball.t) :
  0 < rem ->
  Ball.subSteps (S fuel) rem cs b
  = Ball.subSteps fuel (rem - Rmin rem Ball.subStepSize) cs
      (Ball.step (Rmin rem Ball.subStepSize) cs b).
Proof. intros H. simpl. destruct (Rlt_dec 0 rem); [reflexivity | lra]. Qed.

(** The loop runs the step through the sizes that [subStepSizes] lists. *)
Lemma subSteps_trace (fuel : nat) (rem : R) (cs : list Collidable) (b : Ball.t) :
  Ball.subSteps fuel rem cs b
  = option_map (fun l => fold_left (fun b' dt => Ball.step dt cs b') l b)
               (Ball.subStepSizes fuel rem).
Proof.
  revert rem b. induction fuel as [| fuel IH]; intros rem b; simpl;
    destruct (Rlt_dec 0 rem); try reflexivity.
  rewrite IH. destruct (Ball.subStepSizes fuel _); reflexivity.
Qed.

(** Enough fuel: one unit per full sub-step size that fits in the time. *)
Lemma subStepSizes_enough (fuel : nat) (rem : R) :
  rem <= INR fuel * Ball.subStepSize ->
  exists l, Ball.subStepSizes fuel rem = Some l.
Proof.
  pose proof subStepSize_pos as Hs.
  revert rem. induction fuel as [| fuel IH]; intros rem Hrem.
  - simpl in *. destruct (Rlt_dec 0 rem); [lra | eauto].
  - simpl Ball.subStepSizes. destruct (Rlt_dec 0 rem); [| eauto].
    destruct (IH (rem - Rmin rem Ball.subStepSize)) as [l Hl].
    + rewrite S_INR in Hrem. pose proof (pos_INR fuel).
      unfold Rmin. destruct (Rle_dec _ _); nra.
    + rewrite Hl. simpl. eauto.
Qed.

Lemma subStepSizes_length (fuel : nat) (rem : R) (l : list R) (n : nat) :
  Ball.subStepSizes fuel rem = Some l ->
  rem <= INR n * Ball.subStepSize -> (List.length l <= n)%nat.
Proof.
  pose proof subStepSize_pos as Hs.
  revert rem l n. induction fuel as [| fuel IH]; intros rem l n; simpl;
    destruct (Rlt_dec 0 rem) as [Hpos | Hneg]; try discriminate;
    try (intros [= <-] _; simpl; lia).
  destruct (Ball.subStepSizes fuel _) as [l' |] eqn:El; [| discriminate].
  simpl. intros [= <-] Hn. destruct n as [| n].
  - simpl in Hn. lra.
  - simpl. apply le_n_S. apply (IH _ _ _ El).
    rewrite S_INR in Hn. pose proof (pos_INR n).
    unfold Rmin. destruct (Rle_dec _ _); nra.
Qed.

Lemma subStepSizes_bounds (fuel : nat) (rem : R) (l : list R) :
  Ball.subStepSizes fuel rem = Some l ->
  Forall (fun dt => 0 < dt <= Ball.subStepSize) l.
Proof.
  pose proof subStepSize_pos as Hs.
  revert rem l. induction fuel as [| fuel IH]; intros rem l; simpl;
    destruct (Rlt_dec 0 rem) as [Hpos | Hneg]; try discriminate;
    try (intros [= <-]; constructor).
  destruct (Ball.subStepSizes fuel _) as [l' |] eqn:El; [| discriminate].
  simpl. intros [= <-]. constructor; [| exact (IH _ _ El)].
  unfold Rmin. destruct (Rle_dec _ _); lra.
Qed.

Lemma subStepSizes_sum (fuel : nat) (rem : R) (l : list R) :
  Ball.subStepSizes fuel rem = Some l -> sumR l = Rmax rem 0.
Proof.
  pose proof subStepSize_pos as Hs.
  revert rem l. induction fuel as [| fuel IH]; intros rem l; simpl;
    destruct (Rlt_dec 0 rem) as [Hpos | Hneg]; try discriminate;
    try (intros [= <-]; simpl; rewrite Rmax_right; lra).
  destruct (Ball.subStepSizes fuel _) as [l' |] eqn:El; [| discriminate].
  simpl. intros [= <-]. simpl. rewrite (IH _ _ El).
  unfold Rmin, Rmax. repeat (destruct (Rle_dec _ _)); lra.
Qed.

Lemma subStepSizes_chunks (fuel : nat) (rem : R) (l : list R) (i : nat) :
  Ball.subStepSizes fuel rem = Some l -> (i < List.length l)%nat ->
  nth i l 0 = Rmin (rem - sumR (firstn i l)) Ball.subStepSize.
Proof.
  revert rem l i. induction fuel as [| fuel IH]; intros rem l i; simpl;
    destruct (Rlt_dec 0 rem) as [Hpos | Hneg]; try discriminate;
    try (intros [= <-]; simpl; lia).
  destruct (Ball.subStepSizes fuel _) as [l' |] eqn:El; [| discriminate].
  simpl. intros [= <-] Hi. destruct i as [| i]; simpl.
  - rewrite Rminus_0_r. reflexivity.
  - simpl in Hi. rewrite (IH _ _ i El) by lia. f_equal. ring.
Qed.

(** The bound [update] passes to the loop covers its [delta]. *)
Lemma subStepBound_covers (delta : R) :
  delta <= INR (Ball.subStepBound delta) * Ball.subStepSize.
Proof.
  pose proof subStepSize_pos as Hs. unfold Ball.subStepBound.
  set (r := delta / Ball.subStepSize).
  assert (Hd : delta = r * Ball.subStepSize) by (unfold r; field; lra).
  destruct (archimed r) as [Hup _].
  destruct (Z_lt_le_dec (up r) 0) as [Hneg | Hnn].
  - apply IZR_lt in Hneg.
    assert (Hr : r < 0) by lra.
    pose proof (pos_INR (Z.to_nat (up r))). nra.
  - rewrite INR_IZR_INZ, Z2Nat.id by exact Hnn. nra.
Qed.

(** The sizes do not depend on how much fuel was left over. *)
Lemma subStepSizes_fuel (fuel fuel' : nat) (rem : R) (l l' : list R) :
  Ball.subStepSizes fuel rem = Some l ->
  Ball.subStepSizes fuel' rem = Some l' -> l = l'.
Proof.
  revert fuel' rem l l'. induction fuel as [| fuel IH]; intros fuel' rem l l';
    destruct fuel'; simpl; destruct (Rlt_dec 0 rem); try discriminate;
    try congruence.
  destruct (Ball.subStepSizes fuel _) eqn:E1; [| discriminate].
  destruct (Ball.subStepSizes fuel' _) eqn:E2; [| discriminate].
  simpl. intros [= <-] [= <-]. f_equal. exact (IH _ _ _ _ E1 E2).
Qed.

Lemma update_unowned (delta : R) (cs : list Collidable) (b : Ball.t) (l : list R)
    (fuel : nat) :
  Ball.owner b = None ->
  Ball.subStepSizes fuel delta = Some l ->
  Ball.update delta cs b
  = Ball.floorSafety (fold_left (fun b' dt => Ball.step dt cs b') l b).
Proof.
  intros Hfree Hl. unfold Ball.update. rewrite Hfree.
  destruct (subStepSizes_enough _ _ (subStepBound_covers delta)) as [l' Hl'].
  rewrite subSteps_trace, Hl'. simpl.
  rewrite (subStepSizes_fuel _ _ _ _ _ Hl' Hl). reflexivity.
Qed.

(** C7.  A call of [update] on a ball without owner consumes [delta] by
    sub-steps whose sizes are, one after the other, the minimum of the time
    that remains and 0.01 s, until no time remains.  The loop returns with
    every iteration bound that covers [delta / 0.01]; the number of its
    iterations is at most every natural number that is not below
    [delta / 0.01], that is, at most the ceiling of [delta / 0.01].  With a
    zero or negative [delta] it returns without a single step. *)
Theorem update_substeps (delta : R) (cs : list Collidable) (b : Ball.t) :
  Ball.owner b = None ->
  exists sizes : list R,
    let result := fold_left (fun b' dt => Ball.step dt cs b') sizes b in
    (forall fuel : nat, delta / Ball.subStepSize <= INR fuel ->
       Ball.subSteps fuel delta cs b = Some result) /\
    Ball.update delta cs b = Ball.floorSafety result /\
    (forall i : nat, (i < List.length sizes)%nat ->
       nth i sizes 0 = Rmin (delta - sumR (firstn i sizes)) (1 / 100)) /\
    Forall (fun dt => 0 < dt <= 1 / 100) sizes /\
    sumR sizes = Rmax delta 0 /\
    (forall n : nat, delta / (1 / 100) <= INR n -> (List.length sizes <= n)%nat) /\
    (delta <= 0 -> sizes = [] /\ result = b).
Proof.
  intros Hfree. pose proof subStepSize_pos as Hs.
  assert (Hdiv : forall n : nat, delta / Ball.subStepSize <= INR n ->
                                 delta <= INR n * Ball.subStepSize).
  { intros n Hn. apply (Rmult_le_compat_r Ball.subStepSize) in Hn; [| lra].
    replace (delta / Ball.subStepSize * Ball.subStepSize) with delta in Hn
      by (field; lra).
    exact Hn. }
  destruct (subStepSizes_enough _ _ (subStepBound_covers delta)) as [sizes Hsizes].
  exists sizes. intros result.
  assert (Hupd : Ball.update delta cs b = Ball.floorSafety result)
    by (apply (update_unowned delta cs b sizes _ Hfree Hsizes)).
  repeat split.
  - intros fuel Hfuel. rewrite subSteps_trace.
    destruct (subStepSizes_enough fuel delta (Hdiv _ Hfuel)) as [l Hl].
    rewrite Hl. simpl. unfold result.
    rewrite (subStepSizes_fuel _ _ _ _ _ Hl Hsizes). reflexivity.
  - exact Hupd.
  - intros i Hi. exact (subStepSizes_chunks _ _ _ i Hsizes Hi).
  - exact (subStepSizes_bounds _ _ _ Hsizes).
  - exact (subStepSizes_sum _ _ _ Hsizes).
  - intros n Hn. apply (subStepSizes_length _ _ _ n Hsizes). apply Hdiv. exact Hn.
  - destruct (Ball.subStepBound delta); simpl in Hsizes;
      destruct (Rlt_dec 0 delta); try lra; congruence.
  - unfold result. destruct (Ball.subStepBound delta); simpl in Hsizes;
      destruct (Rlt_dec 0 delta); try lra; injection Hsizes as <-; reflexivity.
Qed.

Lemma update_substeps_witness :
  Ball.owner droppedBall = None /\
  exists sizes : list R,
    Ball.update (5 / 100) [courtFloor] droppedBall
    = Ball.floorSafety
        (fold_left (fun b' dt => Ball.step dt [courtFloor] b') sizes droppedBall) /\
    (List.length sizes <= 5)%nat.
Proof.
  split; [reflexivity |].
  destruct (update_substeps (5 / 100) [courtFloor] droppedBall eq_refl)
    as (sizes & _ & Hupd & _ & _ & _ & Hlen & _).
  exists sizes. split; [exact Hupd |].
  apply Hlen. simpl. lra.
Defined.

(* ------------------------------------------------------------------ *)
(** ** One call or several *)

Lemma step_owner (dt : R) (cs : list Collidable) (b : Ball.t) :
  Ball.owner (Ball.step dt cs b) = Ball.owner b.
Proof.
  unfold Ball.step, Ball.stepWith.
  destruct (fold_left _ _ _). reflexivity.
Qed.

Lemma fullSteps_owner (n : nat) (cs : list Collidable) (b : Ball.t) :
  Ball.owner (fullSteps n cs b) = Ball.owner b.
Proof.
  induction n as [| n IH]; [reflexivity |].
  unfold fullSteps in *. rewrite Nat.iter_succ, step_owner. exact IH.
Qed.

Lemma fullSteps_add (n k : nat) (cs : list Collidable) (b : Ball.t) :
  fullSteps n cs (fullSteps k cs b) = fullSteps (k + n) cs b.
Proof.
  unfold fullSteps. rewrite Nat.add_comm. symmetry. apply Nat.iter_add.
Qed.

(** The sizes of a delta that starts with [k] whole sub-steps. *)
Lemma subStepSizes_whole (k fuel : nat) (d : R) (l : list R) :
  0 <= d ->
  Ball.subStepSizes fuel d = Some l ->
  Ball.subStepSizes (k + fuel) (INR k * Ball.subStepSize + d)
  = Some (repeat Ball.subStepSize k ++ l).
Proof.
  intros Hd Hl. pose proof subStepSize_pos as Hs.
  induction k as [| k IH].
  - simpl. rewrite Rmult_0_l, Rplus_0_l. exact Hl.
  - pose proof (pos_INR k) as Hk.
    cbn [Nat.add Ball.subStepSizes]. rewrite S_INR.
    destruct (Rlt_dec 0 _) as [_ | Hn]; [| nra].
    rewrite Rmin_right by nra.
    replace ((INR k + 1) * Ball.subStepSize + d - Ball.subStepSize)
      with (INR k * Ball.subStepSize + d) by ring.
    rewrite IH. reflexivity.
Qed.

Lemma fold_whole_steps (k : nat) (cs : list Collidable) (l : list R) (b : Ball.t) :
  fold_left (fun b' dt => Ball.step dt cs b') (repeat Ball.subStepSize k ++ l) b
  = fold_left (fun b' dt => Ball.step dt cs b') l (fullSteps k cs b).
Proof.
  revert b. induction k as [| k IH]; intros b; [reflexivity |].
  cbn [repeat app fold_left]. rewrite IH. f_equal.
  unfold fullSteps. rewrite Nat.iter_succ_r. reflexivity.
Qed.

(** A call whose delta starts with [k] whole sub-steps does what a call
    with the rest of the delta does after [k] full sub-steps. *)
Lemma update_after_whole (k : nat) (d : R) (cs : list Collidable) (b : Ball.t) :
  Ball.owner b = None -> 0 <= d ->
  Ball.update (INR k * Ball.subStepSize + d) cs b
  = Ball.update d cs (fullSteps k cs b).
Proof.
  intros Hfree Hd.
  destruct (subStepSizes_enough _ _ (subStepBound_covers d)) as [l Hl].
  rewrite (update_unowned _ cs b _ _ Hfree (subStepSizes_whole k _ d l Hd Hl)).
  rewrite (update_unowned d cs (fullSteps k cs b) l _
             (eq_trans (fullSteps_owner k cs b) Hfree) Hl).
  rewrite fold_whole_steps. reflexivity.
Qed.

Lemma update_whole (k : nat) (cs : list Collidable) (b : Ball.t) :
  Ball.owner b = None ->
  Ball.update (INR k * Ball.subStepSize) cs b = Ball.floorSafety (fullSteps k cs b).
Proof.
  intros Hfree.
  replace (INR k * Ball.subStepSize) with (INR k * Ball.subStepSize + 0) by ring.
  rewrite (update_after_whole k 0 cs b Hfree) by lra.
  rewrite (update_unowned 0 cs _ [] 0); [reflexivity | | ].
  - rewrite fullSteps_owner. exact Hfree.
  - simpl. destruct (Rlt_dec 0 0); [lra | reflexivity].
Qed.

Lemma floorSafety_above (b : Ball.t) :
  ~ y (Ball.position b) < -10 -> Ball.floorSafety b = b.
Proof. intros H. unfold Ball.floorSafety. destruct (Rlt_dec _ _); tauto. Qed.

(** C8, amended.  A free ball ends at the same position and velocity whether
    [update] is called once with the whole delta or several times with deltas
    of the same total, provided that every call but the last has a delta
    that is a whole multiple of the sub-step size 0.01 s and that no call
    but the last ends with the ball below the floor-safety height -10. *)
Theorem update_chunking (cs : list Collidable) (ks : list nat) (d : R) (b : Ball.t) :
  Ball.owner b = None ->
  0 <= d ->
  (forall j : nat, (j < List.length ks)%nat ->
     ~ y (Ball.position (fullSteps (list_sum (firstn (S j) ks)) cs b)) < -10) ->
  updates (map (fun k => INR k * Ball.subStepSize) ks ++ [d]) cs b
  = Ball.update (INR (list_sum ks) * Ball.subStepSize + d) cs b /\
  sumR (map (fun k => INR k * Ball.subStepSize) ks ++ [d])
  = INR (list_sum ks) * Ball.subStepSize + d.
Proof.
  intros Hfree Hd Hsafe. split.
  - revert b Hfree Hsafe. induction ks as [| k ks IH]; intros b Hfree Hsafe.
    + simpl. rewrite Rmult_0_l, Rplus_0_l. reflexivity.
    + unfold updates in *. cbn [map app fold_left].
      change (list_sum (k :: ks)) with (k + list_sum ks)%nat.
      rewrite (update_whole k cs b Hfree).
      rewrite floorSafety_above.
      2:{ specialize (Hsafe 0%nat).
          replace (list_sum (firstn 1 (k :: ks))) with k in Hsafe by (simpl; lia).
          apply Hsafe. simpl. lia. }
      rewrite IH.
      * rewrite <- update_after_whole.
        -- f_equal. rewrite plus_INR. ring.
        -- exact Hfree.
        -- pose proof (pos_INR (list_sum ks)). pose proof subStepSize_pos. nra.
      * rewrite fullSteps_owner. exact Hfree.
      * intros j Hj. rewrite fullSteps_add.
        specialize (Hsafe (S j)).
        replace (list_sum (firstn (S (S j)) (k :: ks)))
          with (k + list_sum (firstn (S j) ks))%nat in Hsafe by reflexivity.
        apply Hsafe. simpl. lia.
  - clear. induction ks as [| k ks IH]; simpl.
    + lra.
    + rewrite plus_INR. simpl in IH. rewrite IH. ring.
Qed.

(** The dropped ball in free fall, sub-step by sub-step. *)
Lemma drop_fall (n : nat) :
  fullSteps n [] droppedBall
  = launch (vec3 0 (5 - 3 / 4000 * INR n * (INR n + 1)) 0) (vec3 0 (- (3 / 20) * INR n) 0).
Proof.
  induction n as [| n IH].
  - unfold droppedBall, launch, zero3. cbn. f_equal; f_equal; field.
  - unfold fullSteps in *. rewrite Nat.iter_succ, IH, step_free, S_INR.
    unfold launch, addScaledVector, Ball.drag, Ball.gravity, Ball.subStepSize.
    cbn. f_equal; f_equal; field.
Qed.

Lemma update_chunking_witness :
  Ball.owner droppedBall = None /\
  0 <= 1 / 100 /\
  updates (map (fun k => INR k * Ball.subStepSize) [1; 1; 1; 1]%nat ++ [1 / 100])
          [] droppedBall
  = Ball.update (INR (list_sum [1; 1; 1; 1]%nat) * Ball.subStepSize + 1 / 100)
                [] droppedBall.
Proof.
  assert (Hd : 0 <= 1 / 100) by lra.
  split; [reflexivity | split; [exact Hd |]].
  refine (proj1 (update_chunking [] [1; 1; 1; 1]%nat (1 / 100) droppedBall
                   eq_refl Hd _)).
  intros j Hj. rewrite drop_fall. unfold launch. cbn [Ball.position y].
  assert (Hn : INR (list_sum (firstn (S j) [1; 1; 1; 1]%nat)) <= 4).
  { simpl in Hj.
    destruct j as [| [| [| [| j]]]]; [simpl; lra .. | lia]. }
  pose proof (pos_INR (list_sum (firstn (S j) [1; 1; 1; 1]%nat))) as H0.
  nra.
Defined.

Lemma subStepSizes_single (d : R) :
  0 < d -> d <= Ball.subStepSize -> Ball.subStepSizes 1 d = Some [d].
Proof.
  intros Hd Hs. simpl. destruct (Rlt_dec 0 d); [| lra].
  rewrite Rmin_left by lra.
  destruct (Rlt_dec 0 (d - d)); [lra | reflexivity].
Qed.

Lemma update_single_step (d : R) (cs : list Collidable) (b : Ball.t) :
  Ball.owner b = None -> 0 < d -> d <= Ball.subStepSize ->
  Ball.update d cs b = Ball.floorSafety (Ball.step d cs b).
Proof.
  intros Hfree Hd Hs.
  rewrite (update_unowned d cs b [d] 1 Hfree (subStepSizes_single d Hd Hs)).
  reflexivity.
Qed.

(** Counterexample to C8.  One call with 0.01 s takes the dropped ball
    through one sub-step of 0.01 s, to the height 4.9985; two calls with
    0.005 s each, the same total, take it through two sub-steps of 0.005 s,
    to the height 4.998875.  The arithmetic is exact. *)
Lemma split_call_changes_position :
  sumR [1 / 200; 1 / 200] = 1 / 100 /\
  Ball.update (1 / 100) [] droppedBall
  = launch (vec3 0 (9997 / 2000) 0) (vec3 0 (- (3 / 20)) 0) /\
  updates [1 / 200; 1 / 200] [] droppedBall
  = launch (vec3 0 (39991 / 8000) 0) (vec3 0 (- (3 / 20)) 0) /\
  Ball.position (updates [1 / 200; 1 / 200] [] droppedBall)
  <> Ball.position (Ball.update (1 / 100) [] droppedBall).
Proof.
  assert (Hfall : forall (d h v : R),
            0 < d -> d <= 1 / 100 -> ~ h + (v - 15 * d) * d < -10 ->
            Ball.update d [] (launch (vec3 0 h 0) (vec3 0 v 0))
            = launch (vec3 0 (h + (v - 15 * d) * d) 0) (vec3 0 (v - 15 * d) 0)).
  { intros d h v Hd Hs Hsafe.
    rewrite update_single_step by (try reflexivity; unfold Ball.subStepSize; lra).
    rewrite step_free.
    unfold launch, addScaledVector, Ball.drag, Ball.gravity. cbn.
    rewrite floorSafety_above by (cbn; lra).
    f_equal; f_equal; ring. }
  assert (H1 : Ball.update (1 / 100) [] droppedBall
               = launch (vec3 0 (9997 / 2000) 0) (vec3 0 (- (3 / 20)) 0)).
  { unfold droppedBall, zero3. rewrite Hfall by lra.
    unfold launch. f_equal; f_equal; field. }
  assert (H2 : updates [1 / 200; 1 / 200] [] droppedBall
               = launch (vec3 0 (39991 / 8000) 0) (vec3 0 (- (3 / 20)) 0)).
  { unfold updates, droppedBall, zero3. cbn [fold_left].
    rewrite Hfall by lra. rewrite Hfall by lra.
    unfold launch. f_equal; f_equal; field. }
  split; [unfold sumR; simpl; lra |].
  split; [exact H1 | split; [exact H2 |]].
  rewrite H1, H2. unfold launch. cbn [Ball.position].
  intros H. injection H as H. lra.
Qed.

(* ------------------------------------------------------------------ *)
(** ** Stamina *)

Lemma resolveOne_stamina (a : Axis) (p : Player.t) (c : Collidable) :
  Player.stamina (Player.resolveOne a p c) = Player.stamina p.
Proof.
  unfold Player.resolveOne.
  destruct (intersectsBox _ _); [| reflexivity].
  destruct (Player.tinyTouch _ _); [reflexivity |].
  destruct a; repeat (destruct (Rlt_dec _ _); try reflexivity).
Qed.

Lemma moveAxis_stamina (delta : R) (cs : list Collidable) (a : Axis) (p : Player.t) :
  Player.stamina (Player.moveAxis delta cs a p) = Player.stamina p.
Proof.
  unfold Player.moveAxis, Player.resolveCollisions.
  set (q := Player.setMotion _ _ _ p).
  change (Player.stamina p) with (Player.stamina q). clearbody q.
  revert q. induction cs as [| c cs IH]; intros q; [reflexivity |].
  simpl. rewrite IH. apply resolveOne_stamina.
Qed.

Lemma update_stamina (f : Player.Frame) (delta : R) (cs : list Collidable) (p : Player.t) :
  Player.pointerLocked f = true ->
  Player.stamina (Player.update f delta cs p) = snd (Player.staminaStep delta p).
Proof.
  intros Hlock. unfold Player.update. rewrite Hlock. cbn [negb].
  unfold Player.fallSafety. destruct (Rlt_dec _ _); cbn [Player.setMotion Player.stamina];
    rewrite !moveAxis_stamina; unfold Player.prepare;
    destruct (Player.staminaStep delta p); reflexivity.
Qed.

Lemma targetSpeed_pos (usingSprint : bool) : 0 < Player.targetSpeed usingSprint.
Proof.
  unfold Player.targetSpeed, Player.speed, Player.sprintMultiplier.
  destruct usingSprint; lra.
Qed.

Lemma capHorizontal_capped (target vx vz : R) :
  0 < target ->
  let '(vx', vz') := Player.capHorizontal target vx vz in
  sqrt (vx' * vx' + vz' * vz') <= target.
Proof.
  intros Ht. unfold Player.capHorizontal. cbv zeta.
  set (cur := sqrt (vx * vx + vz * vz)).
  destruct (Rlt_dec _ _) as [Hover | Hunder]; [| fold cur; lra].
  assert (Hsq : cur * cur = vx * vx + vz * vz).
  { unfold cur. apply sqrt_sqrt.
    pose proof (Rle_0_sqr vx). pose proof (Rle_0_sqr vz). unfold Rsqr in *. lra. }
  replace (vx * (target / cur) * (vx * (target / cur))
           + vz * (target / cur) * (vz * (target / cur)))
    with (target * target).
  - rewrite sqrt_square; lra.
  - transitivity ((vx * vx + vz * vz) * (target / cur) * (target / cur)); [| ring].
    rewrite <- Hsq. field. lra.
Qed.

(** The cap leaves a horizontal speed below the target as it is and brings
    a larger one down to the target. *)
Lemma capHorizontal_speed (target vx vz : R) :
  0 < target ->
  let '(vx', vz') := Player.capHorizontal target vx vz in
  sqrt (vx' * vx' + vz' * vz') = Rmin (sqrt (vx * vx + vz * vz)) target.
Proof.
  intros Ht. unfold Player.capHorizontal. cbv zeta.
  set (cur := sqrt (vx * vx + vz * vz)).
  destruct (Rlt_dec _ _) as [Hover | Hunder];
    [| fold cur; rewrite Rmin_left by lra; reflexivity].
  assert (Hsq : cur * cur = vx * vx + vz * vz).
  { unfold cur. apply sqrt_sqrt.
    pose proof (Rle_0_sqr vx). pose proof (Rle_0_sqr vz). unfold Rsqr in *. lra. }
  rewrite Rmin_right by lra.
  replace (vx * (target / cur) * (vx * (target / cur))
           + vz * (target / cur) * (vz * (target / cur)))
    with (target * target).
  - rewrite sqrt_square; lra.
  - transitivity ((vx * vx + vz * vz) * (target / cur) * (target / cur)); [| ring].
    rewrite <- Hsq. field. lra.
Qed.

Lemma steer_speed (f : Player.Frame) (delta : R) (usingSprint : bool) (p : Player.t) :
  let v := Player.steer f delta usingSprint p in
  let a := Player.accelerate f delta p
             (x (Player.velocity p) - x (Player.velocity p) * Player.damping * delta)
             (z (Player.velocity p) - z (Player.velocity p) * Player.damping * delta) in
  sqrt (x v * x v + z v * z v)
  = Rmin (sqrt (fst a * fst a + snd a * snd a)) (Player.targetSpeed usingSprint).
Proof.
  unfold Player.steer. cbv zeta.
  destruct (Player.accelerate _ _ _ _ _) as [vx vz].
  pose proof (capHorizontal_speed (Player.targetSpeed usingSprint) vx vz
                (targetSpeed_pos usingSprint)) as Hcap.
  destruct (Player.capHorizontal _ _ _) as [vx' vz']. exact Hcap.
Qed.

(** The steered velocity is never faster, horizontally, than the target
    speed. *)
Lemma steer_capped (f : Player.Frame) (delta : R) (usingSprint : bool) (p : Player.t) :
  let v := Player.steer f delta usingSprint p in
  sqrt (x v * x v + z v * z v) <= Player.targetSpeed usingSprint.
Proof.
  unfold Player.steer. cbv zeta.
  destruct (Player.accelerate _ _ _ _ _) as [vx vz].
  pose proof (capHorizontal_capped (Player.targetSpeed usingSprint) vx vz
                (targetSpeed_pos usingSprint)) as Hcap.
  destruct (Player.capHorizontal _ _ _) as [vx' vz']. exact Hcap.
Qed.

(** C9, amended.  In every frame in which the pointer is locked and whose
    delta is not negative, the stamina stays within [0, maxStamina].  It is
    drained at the drain rate, down to 0, while the sprint input is held, a
    directional input is active and stamina is left; the sprint multiplier
    applies in exactly these frames.  It is regenerated at the regeneration
    rate, up to [maxStamina], while the sprint input is not held or no
    stamina is left.  While the sprint input is held with stamina left and no
    directional input, it is left as it is.  The horizontal speed with which
    the frame moves the player is the speed after damping and input
    acceleration, capped at 6 * 1.7 in the draining frames and at 6 in all
    others.  Once the stamina is 0 the target speed is the base speed, and
    the frame's horizontal speed is capped by it, even with the sprint input
    held. *)
Theorem stamina_frame (f : Player.Frame) (delta : R) (cs : list Collidable)
    (p : Player.t) :
  Player.pointerLocked f = true ->
  0 <= delta ->
  0 <= Player.stamina p <= Player.maxStamina ->
  let p' := Player.update f delta cs p in
  let usingSprint := fst (Player.staminaStep delta p) in
  let v := Player.steer f delta usingSprint p in
  let a := Player.accelerate f delta p
             (x (Player.velocity p) - x (Player.velocity p) * 10 * delta)
             (z (Player.velocity p) - z (Player.velocity p) * 10 * delta) in
  0 <= Player.stamina p' <= Player.maxStamina /\
  (usingSprint = true <->
   Player.isRunning p = true /\ Player.moving p = true /\ 0 < Player.stamina p) /\
  sqrt (x v * x v + z v * z v)
  = Rmin (sqrt (fst a * fst a + snd a * snd a))
         (if usingSprint then 6 * (17 / 10) else 6) /\
  (Player.isRunning p = true -> Player.moving p = true -> 0 < Player.stamina p ->
   usingSprint = true /\
   Player.stamina p' = Rmax 0 (Player.stamina p - Player.staminaDrainRate * delta)) /\
  (Player.isRunning p = true -> Player.moving p = false -> 0 < Player.stamina p ->
   usingSprint = false /\ Player.stamina p' = Player.stamina p) /\
  (Player.isRunning p = false \/ Player.stamina p = 0 ->
   usingSprint = false /\
   Player.stamina p' = Rmin Player.maxStamina
                            (Player.stamina p + Player.staminaRegenRate * delta)) /\
  Player.velocity (Player.prepare f delta p) = v /\
  sqrt (x v * x v + z v * z v)
  <= Player.speed * (if usingSprint then Player.sprintMultiplier else 1) /\
  (Player.stamina p = 0 -> sqrt (x v * x v + z v * z v) <= Player.speed).
Proof.
  intros Hlock Hdelta Hrange p' usingSprint v a.
  unfold p'. rewrite (update_stamina f delta cs p Hlock).
  assert (Hcap := steer_capped f delta usingSprint p). cbv zeta in Hcap. fold v in Hcap.
  assert (Hspeed : sqrt (x v * x v + z v * z v)
                   = Rmin (sqrt (fst a * fst a + snd a * snd a))
                          (if usingSprint then 6 * (17 / 10) else 6)).
  { pose proof (steer_speed f delta usingSprint p) as Hs. cbv zeta in Hs.
    unfold Player.targetSpeed, Player.speed, Player.sprintMultiplier, Player.damping in Hs.
    fold v in Hs. fold a in Hs. rewrite Hs. destruct usingSprint; f_equal; lra. }
  assert (Hiff : usingSprint = true <->
                 Player.isRunning p = true /\ Player.moving p = true /\
                 0 < Player.stamina p).
  { unfold usingSprint, Player.staminaStep.
    destruct (Player.isRunning p); destruct (Rlt_dec 0 (Player.stamina p));
      cbn [andb]; try destruct (Player.moving p); cbn [fst];
      split; try (intros (? & ? & ?)); intros; try discriminate; try lra; auto. }

  assert (Hprep : Player.velocity (Player.prepare f delta p) = v).
  { unfold v, usingSprint, Player.prepare.
    destruct (Player.staminaStep delta p); reflexivity. }
  unfold Player.targetSpeed in Hcap.
  assert (Hstep : forall us s, Player.staminaStep delta p = (us, s) ->
            0 <= s <= Player.maxStamina /\
            (Player.isRunning p = true -> Player.moving p = true ->
             0 < Player.stamina p ->
             us = true /\ s = Rmax 0 (Player.stamina p - Player.staminaDrainRate * delta)) /\
            (Player.isRunning p = true -> Player.moving p = false ->
             0 < Player.stamina p -> us = false /\ s = Player.stamina p) /\
            (Player.isRunning p = false \/ Player.stamina p = 0 ->
             us = false /\
             s = Rmin Player.maxStamina
                      (Player.stamina p + Player.staminaRegenRate * delta))).
  { intros us s. unfold Player.staminaStep, Player.maxStamina, Player.staminaDrainRate,
      Player.staminaRegenRate in *.
    destruct (Player.isRunning p); destruct (Rlt_dec 0 (Player.stamina p));
      cbn [andb]; try destruct (Player.moving p);
      unfold Rmax, Rmin; repeat (destruct (Rlt_dec _ _)); repeat (destruct (Rle_dec _ _));
      intros [= <- <-]; repeat split; intros; try discriminate; try lra; try nra;
      try (destruct H; try discriminate; lra). }
  destruct (Player.staminaStep delta p) as [us s] eqn:Es.
  destruct (Hstep us s eq_refl) as (H1 & H2 & H3 & H4).
  cbn [fst snd] in *. unfold usingSprint in *. cbn [fst] in *.
  repeat (split; [assumption |]).
  intros H0. destruct (H4 (or_intror H0)) as [Hus _]. rewrite Hus in Hcap. lra.
Qed.

Lemma stamina_frame_witness :
  Player.pointerLocked (lookingNorth true) = true /\
  0 <= 1 / 10 /\
  0 <= Player.stamina idleSprinter <= Player.maxStamina /\
  0 <= Player.stamina (Player.update (lookingNorth true) (1 / 10) [courtFloor] idleSprinter)
    <= Player.maxStamina.
Proof.
  assert (Hd : 0 <= 1 / 10) by lra.
  assert (Hr : 0 <= Player.stamina idleSprinter <= Player.maxStamina).
  { unfold idleSprinter, Player.maxStamina. cbn [Player.stamina]. lra. }
  split; [reflexivity | split; [exact Hd | split; [exact Hr |]]].
  exact (proj1 (stamina_frame (lookingNorth true) (1 / 10) [courtFloor] idleSprinter
                  eq_refl Hd Hr)).
Defined.

(** Counterexample to C9.  The player stands still with the sprint input
    held and half the stamina left.  In a locked frame of 0.1 s the stamina
    is not drained, since no directional input is active, and it is not
    regenerated either: it stays 30 where regeneration would give 31.5. *)
Lemma idle_sprint_does_not_regenerate :
  let p' := Player.update (lookingNorth true) (1 / 10) [courtFloor] idleSprinter in
  Player.isRunning idleSprinter = true /\
  Player.moving idleSprinter = false /\
  Player.stamina idleSprinter = 30 /\
  Player.stamina p' = 30 /\
  Player.stamina p'
  <> Rmin Player.maxStamina
          (Player.stamina idleSprinter + Player.staminaRegenRate * (1 / 10)).
Proof.
  intros p'.
  assert (Hs : Player.stamina p' = 30).
  { unfold p'. rewrite update_stamina by reflexivity.
    unfold Player.staminaStep, idleSprinter.
    cbn [Player.isRunning Player.stamina Player.moving Player.moveForward
         Player.moveBackward Player.moveLeft Player.moveRight orb andb].
    destruct (Rlt_dec 0 30); [reflexivity | lra]. }
  repeat split; try reflexivity; try exact Hs.
  rewrite Hs. unfold idleSprinter, Player.maxStamina, Player.staminaRegenRate.
  cbn [Player.stamina]. rewrite Rmin_right by lra. lra.
Qed.

(* ------------------------------------------------------------------ *)
(** ** More on the ball: what collisions, gravity and drag do to the velocity *)

Lemma speedSq_nonneg (v : Vector3) : 0 <= speedSq v.
Proof.
  unfold speedSq, dot.
  pose proof (Rle_0_sqr (x v)). pose proof (Rle_0_sqr (y v)). pose proof (Rle_0_sqr (z v)).
  unfold Rsqr in *. lra.
Qed.

(** Mirroring about an axis keeps the speed. *)
Lemma reflect_speed (a : Axis) (sg : R) (v : Vector3) :
  sg = 1 \/ sg = -1 -> speedSq (reflect v (axisVector a sg)) = speedSq v.
Proof.
  intros Hsg. unfold speedSq, reflect, dot, sub, multiplyScalar.
  destruct a; cbn; destruct Hsg as [-> | ->]; ring.
Qed.

Lemma scaled_speed (v : Vector3) (k : R) :
  speedSq (multiplyScalar v k) = k * k * speedSq v.
Proof. unfold speedSq, dot, multiplyScalar; cbn; ring. Qed.

Lemma damped_speed (dt : R) (v : Vector3) :
  0 <= dt <= 1 -> speedSq (damped dt v) <= speedSq v.
Proof.
  intros Hdt. unfold speedSq, dot, damped, Ball.friction. cbn.
  assert (Hk : (1 - 2 * dt) * (1 - 2 * dt) <= 1) by nra.
  pose proof (Rle_0_sqr (x v)) as Hx. pose proof (Rle_0_sqr (z v)) as Hz.
  unfold Rsqr in *. nra.
Qed.

(** The sign with which a bounce reflects is never zero. *)
Lemma reflecting_sign (a : Axis) (r : R) (v : Vector3) :
  coord a v * sign r < 0 -> sign r = 1 \/ sign r = -1.
Proof.
  intros H. destruct (sign_cases r) as [[_ E] | [[_ E] | [_ E]]]; auto.
  rewrite E in H. lra.
Qed.

Lemma bounce_speed (dt : R) (ballBox : Box3) (c : Collidable) (st : Ball.Motion) :
  0 <= dt <= 1 ->
  speedSq (snd (Ball.bounce dt ballBox st c)) <= speedSq (snd st).
Proof.
  intros Hdt. destruct st as [pos vel]. unfold Ball.bounce.
  destruct (intersectsBox ballBox c); [| cbn; lra].
  set (a := Ball.leastOverlapAxis ballBox c).
  set (r := coord a pos - coord a (getCenter c)).
  rewrite axisVector_dot.
  destruct (Rlt_dec _ _) as [Hd | Hd]; [| cbn; lra].
  pose proof (reflecting_sign a r vel Hd) as Hsg.
  pose proof (speedSq_nonneg vel) as H0.
  assert (Hm : speedSq (multiplyScalar (sub vel (Ball.scaledNormal (axisVector a (sign r))
                                                   (coord a vel * sign r)))
                                       Ball.restitution)
               = 64 / 100 * speedSq vel).
  { rewrite scaled_speed. unfold Ball.restitution.
    change (sub vel (Ball.scaledNormal (axisVector a (sign r)) (coord a vel * sign r)))
      with (sub vel (multiplyScalar (axisVector a (sign r)) (2 * (coord a vel * sign r)))).
    rewrite <- (axisVector_dot a (sign r) vel).
    change (sub vel (multiplyScalar (axisVector a (sign r))
                                    (2 * dot vel (axisVector a (sign r)))))
      with (reflect vel (axisVector a (sign r))).
    rewrite (reflect_speed a (sign r) vel Hsg). field. }
  destruct (Rlt_dec _ _); cbn [snd].
  - set (m := multiplyScalar _ _) in *.
    assert (Hdm : vec3 (x m - x m * Ball.friction * dt) (y m) (z m - z m * Ball.friction * dt)
                  = damped dt m) by (unfold damped; f_equal; ring).
    rewrite Hdm. pose proof (damped_speed dt m Hdt). lra.
  - lra.
Qed.

(** A sub-step is the collision loop run from the candidate position. *)
Lemma step_loop (dt : R) (cs : list Collidable) (b : Ball.t) :
  Ball.step dt cs b
  = let st := fold_left (Ball.bounce dt (Ball.ballBoxAt (candidate dt b))) cs
                (candidate dt b, Ball.velocity (Ball.step dt [] b)) in
    Ball.mk (fst st) (snd st) (Ball.owner b) (Ball.active b).
Proof.
  unfold candidate, Ball.step, Ball.stepWith. cbn [fold_left Ball.position Ball.velocity].
  destruct (fold_left _ cs _). reflexivity.
Qed.

(** X1.  The collisions of a sub-step never add speed: after the loop over
    the collidables the ball is at most as fast as gravity and drag left it,
    whatever the colliders, for every sub-step of at most one second. *)
Theorem step_collisions_never_speed_up (dt : R) (cs : list Collidable) (b : Ball.t) :
  0 <= dt <= 1 ->
  speedSq (Ball.velocity (Ball.step dt cs b))
  <= speedSq (Ball.velocity (Ball.step dt [] b)).
Proof.
  intros Hdt. rewrite (step_loop dt cs b). cbv zeta. cbn [Ball.velocity].
  assert (H : forall bb l s,
             speedSq (snd (fold_left (Ball.bounce dt bb) l s)) <= speedSq (snd s)).
  { intros bb. induction l as [| c l IH]; intros s; cbn [fold_left]; [lra |].
    eapply Rle_trans; [apply IH | apply bounce_speed; exact Hdt]. }
  apply (H _ cs (candidate dt b, Ball.velocity (Ball.step dt [] b))).
Qed.

Lemma step_collisions_never_speed_up_witness :
  0 <= 1 / 100 <= 1 /\
  speedSq (Ball.velocity (Ball.step (1 / 100) [courtFloor; backboard] rollingBall))
  <= speedSq (Ball.velocity (Ball.step (1 / 100) [] rollingBall)).
Proof.
  assert (H : 0 <= 1 / 100 <= 1) by lra.
  split; [exact H |].
  exact (step_collisions_never_speed_up (1 / 100) [courtFloor; backboard] rollingBall H).
Defined.

(** X2.  A bounce that mirrors the velocity takes away 36 percent of the
    kinetic energy or more, and after any bounce the velocity no longer
    points against the contact normal. *)
Theorem bounce_loses_energy_and_leaves (dt : R) (ballBox : Box3) (c : Collidable)
    (pos vel : Vector3) :
  0 <= dt <= 1 ->
  intersectsBox ballBox c = true ->
  let a := Ball.leastOverlapAxis ballBox c in
  let normal := axisVector a (sign (coord a pos - coord a (getCenter c))) in
  let vel' := snd (Ball.bounce dt ballBox (pos, vel) c) in
  0 <= dot vel' normal /\
  (dot vel normal < 0 -> speedSq vel' <= 64 / 100 * speedSq vel /\
                         dot vel' normal = - (8 / 10) * dot vel normal).
Proof.
  intros Hdt Hint a normal vel'. unfold vel', normal, Ball.bounce. rewrite Hint. fold a.
  set (r := coord a pos - coord a (getCenter c)).
  rewrite !axisVector_dot.
  destruct (Rlt_dec _ _) as [Hd | Hd].
  - pose proof (reflecting_sign a r vel Hd) as Hsg.
    assert (Hs2 : sign r * sign r = 1) by (destruct Hsg as [-> | ->]; ring).
    set (m := multiplyScalar _ _).
    assert (Hma : coord a m * sign r = - (8 / 10) * (coord a vel * sign r)).
    { unfold m, Ball.scaledNormal, Ball.restitution, multiplyScalar, sub.
      destruct a; cbn; nra. }
    assert (Hms : speedSq m = 64 / 100 * speedSq vel).
    { unfold m. rewrite scaled_speed. unfold Ball.restitution.
      change (sub vel (Ball.scaledNormal (axisVector a (sign r)) (coord a vel * sign r)))
        with (sub vel (multiplyScalar (axisVector a (sign r)) (2 * (coord a vel * sign r)))).
      rewrite <- (axisVector_dot a (sign r) vel).
      change (sub vel (multiplyScalar (axisVector a (sign r))
                                      (2 * dot vel (axisVector a (sign r)))))
        with (reflect vel (axisVector a (sign r))).
      rewrite (reflect_speed a (sign r) vel Hsg). field. }
    destruct (Rlt_dec _ _) as [Hf | Hf]; cbn [snd].
    + assert (Hy : a = AxisY).
      { destruct (Axis_eq_dec a AxisY) as [E | E]; [exact E | exfalso].
        rewrite (scaledNormal_flat a _ _ E) in Hf. lra. }
      assert (Hdm : vec3 (x m - x m * Ball.friction * dt) (y m)
                         (z m - z m * Ball.friction * dt) = damped dt m)
        by (unfold damped; f_equal; ring).
      rewrite Hdm. pose proof (damped_speed dt m Hdt) as Hle.
      assert (Hc : coord a (damped dt m) = coord a m) by (rewrite Hy; reflexivity).
      rewrite Hc, Hma. split; [lra |]. intros _. split; lra.
    + rewrite Hma. split; [lra |]. intros _. split; lra.
  - cbn [snd]. split; [lra | intros; lra].
Qed.

Lemma bounce_loses_energy_and_leaves_witness :
  let p := vec3 0 (1 / 10) 0 in
  0 <= 1 / 100 <= 1 /\
  intersectsBox (Ball.ballBoxAt p) courtFloor = true /\
  0 <= dot (snd (Ball.bounce (1 / 100) (Ball.ballBoxAt p) (p, vec3 1 (-5) 0) courtFloor))
           (axisVector (Ball.leastOverlapAxis (Ball.ballBoxAt p) courtFloor)
              (sign (coord (Ball.leastOverlapAxis (Ball.ballBoxAt p) courtFloor) p
                     - coord (Ball.leastOverlapAxis (Ball.ballBoxAt p) courtFloor)
                             (getCenter courtFloor)))).
Proof.
  intros p.
  assert (Hdt : 0 <= 1 / 100 <= 1) by lra.
  assert (Hint : intersectsBox (Ball.ballBoxAt p) courtFloor = true).
  { apply intersects_true; unfold p, courtFloor; eval_box; lra. }
  split; [exact Hdt | split; [exact Hint |]].
  exact (proj1 (bounce_loses_energy_and_leaves (1 / 100) (Ball.ballBoxAt p) courtFloor p
                  (vec3 1 (-5) 0) Hdt Hint)).
Defined.

(** Free flight: sub-steps with nothing to collide with. *)
Lemma free_steps_velocity (l : list R) (b : Ball.t) :
  Forall (fun dt => 0 < dt <= Ball.subStepSize) l ->
  exists k : R, 0 < k <= 1 /\
    Ball.velocity (fold_left (fun b' dt => Ball.step dt [] b') l b)
    = vec3 (k * x (Ball.velocity b))
           (y (Ball.velocity b) - Ball.gravity * sumR l)
           (k * z (Ball.velocity b)).
Proof.
  intros Hl. revert b. induction Hl as [| dt l Hdt _ IH]; intros b.
  - exists 1. split; [lra |]. unfold sumR. cbn. destruct (Ball.velocity b); cbn.
    f_equal; ring.
  - cbn [fold_left]. destruct (IH (Ball.step dt [] b)) as (k & Hk & Hv).
    rewrite Hv, step_free. unfold sumR. cbn [Ball.velocity x y z fold_right].
    fold (sumR l).
    unfold Ball.subStepSize, Ball.drag in *.
    exists (k * (1 - 1 / 2 * dt)). split; [nra |].
    f_equal; ring.
Qed.

Lemma steps_owner (l : list R) (cs : list Collidable) (b : Ball.t) :
  Ball.owner (fold_left (fun b' dt => Ball.step dt cs b') l b) = Ball.owner b.
Proof.
  revert b. induction l as [| dt l IH]; intros b; [reflexivity |].
  cbn [fold_left]. rewrite IH. apply step_owner.
Qed.

(** X3.  In a call of [update] on a free ball with nothing to collide with,
    gravity takes exactly [15 * delta] off the vertical velocity, however the
    delta is cut into sub-steps, and drag scales the two horizontal
    components by one common factor in (0, 1]: it slows the ball without
    turning it.  The only other outcome is the floor-safety reset. *)
Theorem update_free_flight (delta : R) (b : Ball.t) :
  Ball.owner b = None ->
  let b' := Ball.update delta [] b in
  b' = Ball.reset b \/
  exists k : R, 0 < k <= 1 /\
    Ball.velocity b'
    = vec3 (k * x (Ball.velocity b))
           (y (Ball.velocity b) - 15 * Rmax delta 0)
           (k * z (Ball.velocity b)).
Proof.
  intros Hfree b'.
  destruct (subStepSizes_enough _ _ (subStepBound_covers delta)) as [l Hl].
  unfold b'. rewrite (update_unowned delta [] b l _ Hfree Hl).
  unfold Ball.floorSafety. destruct (Rlt_dec _ _); [left; reflexivity | right].
  destruct (free_steps_velocity l b (subStepSizes_bounds _ _ _ Hl)) as (k & Hk & Hv).
  exists k. split; [exact Hk |]. rewrite Hv, (subStepSizes_sum _ _ _ Hl). reflexivity.
Qed.

Lemma update_free_flight_witness :
  Ball.owner droppedBall = None /\
  (Ball.update (3 / 100) [] droppedBall = Ball.reset droppedBall \/
   exists k : R, 0 < k <= 1 /\
     Ball.velocity (Ball.update (3 / 100) [] droppedBall)
     = vec3 (k * x (Ball.velocity droppedBall))
            (y (Ball.velocity droppedBall) - 15 * Rmax (3 / 100) 0)
            (k * z (Ball.velocity droppedBall))).
Proof.
  split; [reflexivity |].
  exact (update_free_flight (3 / 100) droppedBall eq_refl).
Defined.



Lemma updates_held (ds : list R) (cs : list Collidable) (b : Ball.t) :
  Ball.owner b <> None -> updates ds cs b = b.
Proof.
  intros Hheld. unfold updates. induction ds as [| d ds IH]; [reflexivity |].
  cbn [fold_left].
  assert (H : Ball.update d cs b = b).
  { unfold Ball.update. destruct (Ball.owner b); [reflexivity | contradiction]. }
  rewrite H. exact IH.
Qed.

(** X5.  Grab, hold, release: while an entity holds the ball no call of
    [update] moves it, and a release then frees it where it was grabbed with
    exactly the velocity passed in; a second release changes nothing. *)
Theorem grab_hold_release (e : Entity) (v w : Vector3) (ds : list R)
    (cs : list Collidable) (b : Ball.t) :
  let released := Ball.release v (updates ds cs (Ball.grab e b)) in
  updates ds cs (Ball.grab e b) = Ball.grab e b /\
  released = Ball.mk (Ball.position b) v None (Ball.active b) /\
  Ball.release w released = released.
Proof.
  intros released. unfold released.
  rewrite updates_held by (cbn; discriminate).
  repeat split.
Qed.
(* ------------------------------------------------------------------ *)
(** ** The player's handlers: possession, shot power, the throw *)

Lemma length_nonneg (v : Vector3) : 0 <= length v.
Proof. apply sqrt_pos. Qed.

Lemma sumsq_nonneg (a b c : R) : 0 <= a * a + b * b + c * c.
Proof.
  pose proof (Rle_0_sqr a). pose proof (Rle_0_sqr b). pose proof (Rle_0_sqr c).
  unfold Rsqr in *. lra.
Qed.

(** A vector that is not of length 0 is normalised to a unit vector. *)
Lemma normalize_unit (v : Vector3) : length v <> 0 -> length (normalize v) = 1.
Proof.
  intros Hv. unfold normalize. destruct (Req_dec_T (length v) 0) as [E | _]; [contradiction |].
  unfold divideScalar, multiplyScalar, length in *. cbn [x y z].
  set (s := x v * x v + y v * y v + z v * z v) in *.
  assert (Hs : 0 <= s) by apply sumsq_nonneg.
  assert (Hq : sqrt s * sqrt s = s) by (apply sqrt_sqrt; exact Hs).
  replace (x v * (1 / sqrt s) * (x v * (1 / sqrt s)) + y v * (1 / sqrt s) * (y v * (1 / sqrt s))
           + z v * (1 / sqrt s) * (z v * (1 / sqrt s)))
    with (s / (sqrt s * sqrt s)) by (unfold s; field; exact Hv).
  rewrite Hq. replace (s / s) with 1; [apply sqrt_1 |].
  field. intro E. apply Hv. rewrite E. apply sqrt_0.
Qed.

Lemma length_scaled (v : Vector3) (k : R) :
  0 <= k -> length (multiplyScalar v k) = k * length v.
Proof.
  intros Hk. unfold multiplyScalar, length. cbn [x y z].
  replace (x v * k * (x v * k) + y v * k * (y v * k) + z v * k * (z v * k))
    with (k * k * (x v * x v + y v * y v + z v * z v)) by ring.
  rewrite sqrt_mult; [| nra | apply sumsq_nonneg].
  rewrite sqrt_square by exact Hk. reflexivity.
Qed.

Lemma interact_agrees (f : Player.Frame) (delta : R) (s : PlayerControls.t) :
  agrees s -> agrees (PlayerControls.interact f delta s).
Proof.
  unfold agrees, PlayerControls.interact.
  destruct (PlayerControls.ball s) as [b |] eqn:Eb; cbn; [| tauto].
  destruct (PlayerControls.hasBall s) eqn:Eh; intros [H1 H2].
  - rewrite (H1 eq_refl). cbn. tauto.
  - assert (Hn : Ball.owner b <> Some ThePlayer) by (intro E; specialize (H2 E); discriminate).
    destruct (Ball.owner b) as [[|] |] eqn:Eo; try congruence; cbn.
    + rewrite Eo. split; congruence.
    + destruct (Rle_dec _ 0); cbn; [destruct (Rlt_dec _ 2); cbn |];
        rewrite ?Eo; split; congruence.
Qed.

Lemma attemptSteal_agrees (f : Player.Frame) (s : PlayerControls.t) :
  agrees s -> agrees (PlayerControls.attemptSteal f s).
Proof.
  intros H. unfold PlayerControls.attemptSteal.
  destruct (PlayerControls.ball s) as [b |] eqn:Eb; [| exact H].
  destruct (PlayerControls.hasBall s) eqn:Eh; [exact H |].
  destruct (Ball.owner b) eqn:Eo; [| exact H].
  cbv zeta. destruct (Rlt_dec 3 _); [exact H |].
  destruct (Rlt_dec (9 / 10) _); [| exact H].
  unfold agrees. cbn. tauto.
Qed.

Lemma handle_agrees (f : Player.Frame) (e : PlayerEvent) (s : PlayerControls.t) :
  agrees s -> agrees (handle f e s).
Proof.
  intros H. destruct e as [code | code | button | delta cs]; cbn [handle].
  - destruct code; cbn; try exact H.
    + destruct (Player.onGround (PlayerControls.body s)); exact H.
    + apply attemptSteal_agrees; exact H.
  - destruct code; cbn; exact H.
  - unfold PlayerControls.onMouseDown.
    destruct (Player.pointerLocked f && Z.eqb button 0); [| exact H].
    unfold agrees in *.
    destruct (PlayerControls.hasBall s) eqn:Eh; [| rewrite Eh; exact H].
    destruct (PlayerControls.ball s) as [b |] eqn:Eb; [| rewrite Eb, Eh; exact H].
    destruct H as [H1 _]. cbn. unfold Ball.release. rewrite (H1 eq_refl). cbn.
    split; discriminate.
  - unfold PlayerControls.update.
    destruct (negb (Player.pointerLocked f)); [exact H |].
    apply interact_agrees. exact H.
Qed.

(** X6. Possession stays consistent: if the player's [hasBall] flag and the
    ball's owner agree (the flag is set exactly when the ball's owner is
    the player), they still agree after any sequence of the player's own
    handlers - key down, key up, mouse down and update frames, each under
    its own camera and pointer-lock state.  And whatever the state before,
    after an update frame with the pointer locked a set flag means that the
    ball's owner is the player. *)
Theorem possession_stays_consistent :
  (forall (events : list (Player.Frame * PlayerEvent)) (s : PlayerControls.t),
      agrees s ->
      agrees (fold_left (fun st fe => handle (fst fe) (snd fe) st) events s)) /\
  (forall (f : Player.Frame) (delta : R) (cs : list Collidable) (s : PlayerControls.t)
          (b' : Ball.t),
      Player.pointerLocked f = true ->
      PlayerControls.ball (PlayerControls.update f delta cs s) = Some b' ->
      PlayerControls.hasBall (PlayerControls.update f delta cs s) = true ->
      Ball.owner b' = Some ThePlayer).
Proof.
  split.
  - induction events as [| [f e] events IH]; intros s H; cbn [fold_left fst snd].
    + exact H.
    + apply IH. apply handle_agrees. exact H.
  - intros f delta cs s b' Hl. unfold PlayerControls.update. rewrite Hl. cbn [negb].
    unfold PlayerControls.interact, PlayerControls.setBody.
    cbn [PlayerControls.ball PlayerControls.hasBall PlayerControls.body
         PlayerControls.throwCooldown PlayerControls.currentPower
         PlayerControls.showTrajectory].
    destruct (PlayerControls.ball s) as [b |]; cbn; [| discriminate].
    destruct (PlayerControls.hasBall s).
    + destruct (Ball.owner b) as [[|] |] eqn:Eo; cbn; intros Hb Hh; try discriminate.
      injection Hb as <-. cbn. first [exact Eo | reflexivity].
    + destruct (Ball.owner b) as [o |] eqn:Eo; cbn; [discriminate |].
      destruct (Rle_dec _ 0); cbn; [destruct (Rlt_dec _ 2); cbn |];
        intros Hb Hh; try discriminate.
      injection Hb as <-. reflexivity.
Qed.

Lemma possession_stays_consistent_witness :
  (agrees (PlayerControls.assignBall freshBall (PlayerControls.initial (vec3 0 2 5))) /\
   agrees (fold_left (fun st fe => handle (fst fe) (snd fe) st)
             [(lookingNorth true, KeyDown PlayerControls.KeyE)]
             (PlayerControls.assignBall freshBall (PlayerControls.initial (vec3 0 2 5))))) /\
  (exists b',
      PlayerControls.ball (PlayerControls.update (lookingNorth true) (1 / 100) [] holder)
        = Some b' /\
      PlayerControls.hasBall (PlayerControls.update (lookingNorth true) (1 / 100) [] holder)
        = true /\
      Ball.owner b' = Some ThePlayer).
Proof.
  assert (H : agrees (PlayerControls.assignBall freshBall (PlayerControls.initial (vec3 0 2 5)))).
  { unfold agrees. cbn. split; discriminate. }
  split; [split; [exact H |] |].
  - apply (proj1 possession_stays_consistent). exact H.
  - eexists.
    assert (Hb : PlayerControls.ball
                   (PlayerControls.update (lookingNorth true) (1 / 100) [] holder)
                 = Some (Ball.mk
                           (PlayerControls.holdPosition (lookingNorth true)
                              (Player.position
                                 (Player.update (lookingNorth true) (1 / 100) []
                                    (PlayerControls.body holder))))
                           zero3 (Some ThePlayer) true)) by reflexivity.
    assert (Hh : PlayerControls.hasBall
                   (PlayerControls.update (lookingNorth true) (1 / 100) [] holder) = true)
      by reflexivity.
    split; [exact Hb |]. split; [exact Hh |].
    exact (proj2 possession_stays_consistent (lookingNorth true) (1 / 100) [] holder _
             eq_refl Hb Hh).
Defined.

Lemma onKey_power (f : Player.Frame) (code : PlayerControls.Key) (s : PlayerControls.t) :
  10 <= PlayerControls.currentPower s <= 35 ->
  10 <= PlayerControls.currentPower (PlayerControls.onKey f code s) <= 35.
Proof.
  intros H. destruct code; cbn; try exact H.
  - destruct (Player.onGround (PlayerControls.body s)); exact H.
  - unfold PlayerControls.attemptSteal.
    destruct (PlayerControls.ball s); [| exact H].
    destruct (PlayerControls.hasBall s); [exact H |].
    destruct (Ball.owner t); [| exact H].
    cbv zeta. destruct (Rlt_dec 3 _); [exact H |].
    destruct (Rlt_dec (9 / 10) _); exact H.
  - unfold Rmin. destruct (Rle_dec _ _); lra.
  - unfold Rmin. destruct (Rle_dec _ _); lra.
  - unfold Rmax. destruct (Rle_dec _ _); lra.
  - unfold Rmax. destruct (Rle_dec _ _); lra.
Qed.

Lemma handle_power (f : Player.Frame) (e : PlayerEvent) (s : PlayerControls.t) :
  10 <= PlayerControls.currentPower s <= 35 ->
  10 <= PlayerControls.currentPower (handle f e s) <= 35.
Proof.
  intros H. destruct e as [code | code | button | delta cs]; cbn [handle].
  - apply onKey_power; exact H.
  - destruct code; cbn; exact H.
  - unfold PlayerControls.onMouseDown.
    destruct (Player.pointerLocked f && Z.eqb button 0); [| exact H].
    destruct (PlayerControls.hasBall s); [| exact H].
    destruct (PlayerControls.ball s); exact H.
  - unfold PlayerControls.update, PlayerControls.interact, PlayerControls.setBody.
    destruct (negb (Player.pointerLocked f)); cbn; [exact H |].
    destruct (PlayerControls.ball s) as [b |]; cbn; [| exact H].
    destruct (PlayerControls.hasBall s).
    + destruct (Ball.owner b) as [[|] |]; cbn; exact H.
    + destruct (Ball.owner b); cbn; [exact H |].
      destruct (Rle_dec _ 0); cbn; [destruct (Rlt_dec _ 2); cbn |]; exact H.
Qed.

(** X7. The shot power stays in its range: from a power between 10 and 35
    (the constructor's is 20), every sequence of the player's handlers
    leaves the power between 10 and 35 and the power ratio shown by the
    charge bar between 0 and 1.  The two power keys are not symmetric: a
    minus key lowers the power by 1, down to 10, but a plus key adds 35
    before it caps at 35, so one press sets the power to its maximum. *)
Theorem power_stays_in_range
    (events : list (Player.Frame * PlayerEvent)) (s : PlayerControls.t) :
  10 <= PlayerControls.currentPower s <= 35 ->
  let s' := fold_left (fun st fe => handle (fst fe) (snd fe) st) events s in
  (10 <= PlayerControls.currentPower s' <= 35) /\
  (0 <= PlayerControls.getPowerRatio s' <= 1) /\
  (forall f, PlayerControls.currentPower (PlayerControls.onKey f PlayerControls.Equal s') = 35) /\
  (forall f, PlayerControls.currentPower (PlayerControls.onKey f PlayerControls.Minus s')
             = Rmax (PlayerControls.currentPower s' - 1) 10).
Proof.
  intros H s'.
  assert (Hp : 10 <= PlayerControls.currentPower s' <= 35).
  { subst s'. revert s H.
    induction events as [| [f e] events IH]; intros s H; cbn [fold_left fst snd].
    - exact H.
    - apply IH. apply handle_power. exact H. }
  split; [exact Hp |]. split; [| split].
  - unfold PlayerControls.getPowerRatio. cbv zeta. split.
    + apply Rmult_le_pos; [lra |]. apply Rlt_le, Rinv_0_lt_compat. lra.
    + apply Rmult_le_reg_r with (r := 35 - 10); [lra |].
      unfold Rdiv. rewrite Rmult_assoc, Rinv_l by lra. lra.
  - intros f. cbn. unfold Rmin. destruct (Rle_dec _ _); lra.
  - intros f. reflexivity.
Qed.

Lemma power_stays_in_range_witness :
  10 <= PlayerControls.currentPower (PlayerControls.initial (vec3 0 2 5)) <= 35 /\
  10 <= PlayerControls.currentPower
          (fold_left (fun st fe => handle (fst fe) (snd fe) st)
             [(lookingNorth true, KeyDown PlayerControls.Minus);
              (lookingNorth true, KeyDown PlayerControls.Equal)]
             (PlayerControls.initial (vec3 0 2 5))) <= 35.
Proof.
  assert (H : 10 <= PlayerControls.currentPower (PlayerControls.initial (vec3 0 2 5)) <= 35).
  { cbn. lra. }
  split; [exact H |].
  exact (proj1 (power_stays_in_range
                  [(lookingNorth true, KeyDown PlayerControls.Minus);
                   (lookingNorth true, KeyDown PlayerControls.Equal)] _ H)).
Defined.

(** X8. The throw: with the pointer locked, the left button pressed and the
    ball in the player's hands (flag set, an owner on the ball), the ball
    leaves free, where it was carried, along the camera's forward direction
    with exactly the current power as its speed (for a forward vector that
    is not the zero vector and a power that is not negative); the flag is
    cleared and the pickup cooldown starts at half a second. *)
Theorem throw_speed_is_power
    (f : Player.Frame) (s : PlayerControls.t) (b : Ball.t) (e : Entity) :
  Player.pointerLocked f = true ->
  PlayerControls.hasBall s = true ->
  PlayerControls.ball s = Some b ->
  Ball.owner b = Some e ->
  length (Player.lookForward f) <> 0 ->
  0 <= PlayerControls.currentPower s ->
  let s' := PlayerControls.onMouseDown f 0 s in
  exists b',
    PlayerControls.ball s' = Some b' /\
    Ball.owner b' = None /\
    Ball.position b' = Ball.position b /\
    Ball.velocity b'
      = multiplyScalar (normalize (Player.lookForward f)) (PlayerControls.currentPower s) /\
    length (Ball.velocity b') = PlayerControls.currentPower s /\
    PlayerControls.hasBall s' = false /\
    PlayerControls.throwCooldown s' = 1 / 2.
Proof.
  intros Hl Hh Hb Ho Hf Hp s'. subst s'.
  unfold PlayerControls.onMouseDown. rewrite Hl, Hh, Hb. cbn [andb Z.eqb].
  eexists. split; [reflexivity |].
  unfold Ball.release. rewrite Ho. cbn.
  split; [reflexivity |]. split; [reflexivity |]. split; [reflexivity |].
  split; [| split; reflexivity].
  change (length (multiplyScalar (normalize (Player.lookForward f))
                                 (PlayerControls.currentPower s))
          = PlayerControls.currentPower s).
  rewrite length_scaled by exact Hp. rewrite normalize_unit by exact Hf. ring.
Qed.

Lemma throw_speed_is_power_witness :
  exists b',
    PlayerControls.ball (PlayerControls.onMouseDown (lookingNorth true) 0 holder) = Some b' /\
    Ball.owner b' = None /\
    length (Ball.velocity b') = 20.
Proof.
  assert (Hf : length (Player.lookForward (lookingNorth true)) <> 0).
  { unfold lookingNorth, length. cbn [Player.lookForward x y z].
    replace (0 * 0 + 0 * 0 + -1 * -1) with 1 by ring. rewrite sqrt_1. lra. }
  assert (Hp : 0 <= PlayerControls.currentPower holder) by (cbn; lra).
  destruct (throw_speed_is_power (lookingNorth true) holder (Ball.grab ThePlayer freshBall)
              ThePlayer eq_refl eq_refl eq_refl eq_refl Hf Hp)
    as [b' [H1 [H2 [_ [_ [H5 _]]]]]].
  exists b'. split; [exact H1 |]. split; [exact H2 | exact H5].
Defined.
(* ------------------------------------------------------------------ *)
(** ** The game loop: pickup cooldown, frame clamp, scoring *)

Lemma update_stays_free (delta : R) (cs : list Collidable) (b : Ball.t) :
  Ball.owner b = None -> Ball.owner (Ball.update delta cs b) = None.
Proof.
  intros Hfree.
  destruct (subStepSizes_enough _ _ (subStepBound_covers delta)) as [l Hl].
  rewrite (update_unowned delta cs b l _ Hfree Hl).
  unfold Ball.floorSafety. destruct (Rlt_dec _ _); [reflexivity |].
  rewrite steps_owner. exact Hfree.
Qed.

Lemma frameDelta_nonneg (d : R) : 0 <= d -> 0 <= Game.frameDelta d <= 1 / 10.
Proof. intros H. unfold Game.frameDelta, Rmin. destruct (Rle_dec _ _); lra. Qed.

(** One frame while the cooldown outlasts it: nothing is picked up. *)
Lemma physics_cooling (f : Player.Frame) (d : R) (cs : list Collidable)
    (s : PlayerControls.t) (b : Ball.t) (rest : R) :
  PlayerControls.hasBall s = false ->
  PlayerControls.ball s = Some b ->
  Ball.owner b = None ->
  0 <= d -> 0 <= rest ->
  Game.frameDelta d + rest < PlayerControls.throwCooldown s ->
  let s' := Game.physics f d cs s in
  PlayerControls.hasBall s' = false /\
  PlayerControls.ball s' = Some (Ball.update (Game.frameDelta d) cs b) /\
  rest < PlayerControls.throwCooldown s' /\
  PlayerControls.currentPower s' = PlayerControls.currentPower s.
Proof.
  intros Hh Hb Ho Hd Hrest Hc s'. subst s'.
  pose proof (frameDelta_nonneg d Hd) as Hfd.
  unfold Game.physics, PlayerControls.update. cbv zeta.
  destruct (negb (Player.pointerLocked f)).
  - cbn. rewrite Hh, Hb. cbn. repeat split; try reflexivity. lra.
  - unfold PlayerControls.interact, PlayerControls.setBody.
    cbn [PlayerControls.ball PlayerControls.hasBall PlayerControls.body
         PlayerControls.throwCooldown PlayerControls.currentPower
         PlayerControls.showTrajectory].
    rewrite Hb, Hh, Ho.
    destruct (Rlt_dec 0 (PlayerControls.throwCooldown s)) as [_ | Hn]; [| lra].
    destruct (Rle_dec _ 0) as [Hle | _]; [lra |].
    cbn. repeat split; try reflexivity. lra.
Qed.

(** X9. The pickup cooldown: while the player does not have the ball and
    the ball is free, no sequence of frames of the game loop whose clamped
    deltas add up to less than the cooldown that is left lets the player
    pick the ball up, however near it is; the ball stays free and the
    player's flag stays clear.  A throw and a steal set the cooldown to half
    a second. *)
Theorem cooldown_blocks_pickup
    (frames : list (Player.Frame * R * list Collidable)) (s : PlayerControls.t) (b : Ball.t) :
  PlayerControls.hasBall s = false ->
  PlayerControls.ball s = Some b ->
  Ball.owner b = None ->
  Forall (fun fr => 0 <= snd (fst fr)) frames ->
  sumR (map (fun fr => Game.frameDelta (snd (fst fr))) frames) < PlayerControls.throwCooldown s ->
  let s' := fold_left (fun st fr => Game.physics (fst (fst fr)) (snd (fst fr)) (snd fr) st)
                      frames s in
  PlayerControls.hasBall s' = false /\
  exists b', PlayerControls.ball s' = Some b' /\ Ball.owner b' = None.
Proof.
  revert s b. induction frames as [| [[f d] cs] frames IH]; intros s b Hh Hb Ho Hd Hsum s'.
  - subst s'. cbn. split; [exact Hh |]. exists b. split; assumption.
  - subst s'. cbn [fold_left fst snd]. cbn [map sumR fold_right fst snd] in Hsum.
    inversion Hd as [| ? ? Hd0 Hd']; subst. cbn [fst snd] in Hd0.
    fold (sumR (map (fun fr => Game.frameDelta (snd (fst fr))) frames)) in Hsum.
    assert (Hrest : 0 <= sumR (map (fun fr => Game.frameDelta (snd (fst fr))) frames)).
    { clear - Hd'. induction Hd' as [| fr l H0 _ IHl]; cbn; [lra |].
      pose proof (frameDelta_nonneg _ H0). fold (sumR (map (fun fr => Game.frameDelta (snd (fst fr))) l)).
      lra. }
    destruct (physics_cooling f d cs s b _ Hh Hb Ho Hd0 Hrest Hsum) as [H1 [H2 [H3 _]]].
    apply (IH _ _ H1 H2 (update_stays_free _ _ _ Ho) Hd' H3).
Qed.

Lemma cooldown_blocks_pickup_witness :
  let thrown := PlayerControls.onMouseDown (lookingNorth true) 0 holder in
  let frames := [(lookingNorth true, 1 / 60, [courtFloor]);
                 (lookingNorth true, 5, [courtFloor])] in
  PlayerControls.hasBall
    (fold_left (fun st fr => Game.physics (fst (fst fr)) (snd (fst fr)) (snd fr) st)
               frames thrown) = false.
Proof.
  cbv zeta.
  assert (Hf : Forall (fun fr : Player.Frame * R * list Collidable => 0 <= snd (fst fr))
                 [(lookingNorth true, 1 / 60, [courtFloor]);
                  (lookingNorth true, 5, [courtFloor])]).
  { repeat constructor; cbn; lra. }
  refine (proj1 (cooldown_blocks_pickup
                   [(lookingNorth true, 1 / 60, [courtFloor]);
                    (lookingNorth true, 5, [courtFloor])]
                   (PlayerControls.onMouseDown (lookingNorth true) 0 holder)
                   _ eq_refl eq_refl eq_refl Hf _)).
  cbn. unfold Game.frameDelta, Rmin.
  repeat (destruct (Rle_dec _ _)); lra.
Defined.

(** X10. The frame clamp: whatever time the clock reports for a frame, the
    game loop advances a free ball by the clamped time, which is at most a
    tenth of a second, in sub-steps that are each longer than 0 and at most
    0.01 s and add up to the clamped time; the floor safety follows. *)
Theorem frame_advances_clamped_time
    (f : Player.Frame) (clockDelta : R) (cs : list Collidable) (s : PlayerControls.t)
    (b : Ball.t) :
  PlayerControls.ball (PlayerControls.update f (Game.frameDelta clockDelta) cs s) = Some b ->
  Ball.owner b = None ->
  exists sizes : list R,
    Forall (fun dt => 0 < dt <= 1 / 100) sizes /\
    sumR sizes = Rmax (Rmin clockDelta (1 / 10)) 0 /\
    sumR sizes <= 1 / 10 /\
    PlayerControls.ball (Game.physics f clockDelta cs s)
    = Some (Ball.floorSafety (fold_left (fun b' dt => Ball.step dt cs b') sizes b)).
Proof.
  intros Hb Ho.
  destruct (subStepSizes_enough _ _ (subStepBound_covers (Game.frameDelta clockDelta)))
    as [l Hl].
  pose proof (subStepSizes_sum _ _ _ Hl) as Hsum.
  exists l. split; [| split; [| split]].
  - exact (subStepSizes_bounds _ _ _ Hl).
  - exact Hsum.
  - rewrite Hsum. unfold Game.frameDelta, Rmax, Rmin.
    repeat (destruct (Rle_dec _ _)); lra.
  - unfold Game.physics. cbv zeta. cbn [PlayerControls.ball]. rewrite Hb. cbn [option_map].
    rewrite (update_unowned _ cs b l _ Ho Hl). reflexivity.
Qed.

Lemma frame_advances_clamped_time_witness :
  exists sizes : list R,
    Forall (fun dt => 0 < dt <= 1 / 100) sizes /\
    sumR sizes = Rmax (Rmin 5 (1 / 10)) 0.
Proof.
  destruct (frame_advances_clamped_time (lookingNorth false) 5 [courtFloor]
              (PlayerControls.assignBall droppedBall (PlayerControls.initial (vec3 0 2 5)))
              droppedBall eq_refl eq_refl) as [sizes [H1 [H2 _]]].
  exists sizes. split; assumption.
Defined.

Lemma checkTrigger_scored (ballBox : option Box3) (b : Ball.t) (l : list World.Trigger)
    (acc : Game.Outcome) :
  Game.justScored (Game.tally acc) = true ->
  fold_left (Game.checkTrigger ballBox b) l acc = acc.
Proof.
  intros H. induction l as [| t l IH]; [reflexivity |].
  cbn [fold_left].
  assert (E : Game.checkTrigger ballBox b acc t = acc).
  { unfold Game.checkTrigger. rewrite H.
    destruct (Game.inTrigger t ballBox); [| reflexivity].
    destruct (Rlt_dec _ 0); reflexivity. }
  rewrite E. exact IH.
Qed.

Lemma checkTrigger_rising (ballBox : option Box3) (b : Ball.t) (l : list World.Trigger)
    (acc : Game.Outcome) :
  ~ y (Ball.velocity b) < 0 ->
  fold_left (Game.checkTrigger ballBox b) l acc = acc.
Proof.
  intros H. induction l as [| t l IH]; [reflexivity |].
  cbn [fold_left].
  assert (E : Game.checkTrigger ballBox b acc t = acc).
  { unfold Game.checkTrigger.
    destruct (Game.inTrigger t ballBox); [| reflexivity].
    destruct (Rlt_dec _ 0); [contradiction | reflexivity]. }
  rewrite E. exact IH.
Qed.

(** X11. What [checkScoring] does in one call: nothing, unless the ball is
    active, is falling ([velocity.y < 0]), no point is waiting for its
    respawn ([justScored] is clear) and the ball's box intersects a trigger;
    then exactly one point is given, decided by the first such trigger in
    the list alone - to the player when that trigger's centre has z < 0, to
    the bot otherwise -, [justScored] is set, one burst of 100 particles is
    asked for at the ball's position and one respawn timer is started. *)
Theorem checkScoring_gives_one_point
    (triggers : list World.Trigger) (ballBox : option Box3) (b : Ball.t) (sc : Game.Score) :
  Game.checkScoring triggers ballBox b sc
  = match
      (if Ball.active b then
         if Rlt_dec (y (Ball.velocity b)) 0 then
           if Game.justScored sc then None else firstTrigger triggers ballBox
         else None
       else None)
    with
    | Some t =>
        Game.outcome
          (if Rlt_dec (Game.triggerZ t) 0
           then Game.mkScore (S (Game.score sc)) (Game.botScore sc) true
           else Game.mkScore (Game.score sc) (S (Game.botScore sc)) true)
          [(Ball.position b, 100%nat)] 1
    | None => Game.outcome sc [] 0
    end.
Proof.
  unfold Game.checkScoring. destruct (Ball.active b); cbn [negb]; [| reflexivity].
  assert (E : match triggers with
              | [] => Game.outcome sc [] 0
              | _ => fold_left (Game.checkTrigger ballBox b) triggers (Game.outcome sc [] 0)
              end = fold_left (Game.checkTrigger ballBox b) triggers (Game.outcome sc [] 0)).
  { destruct triggers; reflexivity. }
  rewrite E. clear E.
  destruct (Rlt_dec (y (Ball.velocity b)) 0) as [Hv | Hv];
    [| apply checkTrigger_rising; exact Hv].
  destruct (Game.justScored sc) eqn:Ej; [apply checkTrigger_scored; exact Ej |].
  unfold firstTrigger.
  induction triggers as [| t l IH]; [reflexivity |].
  cbn [fold_left find]. unfold Game.checkTrigger at 2.
  destruct (Game.inTrigger t ballBox); [| exact IH].
  destruct (Rlt_dec (y (Ball.velocity b)) 0); [| contradiction].
  cbn [Game.tally Game.bursts Game.timers app]. rewrite Ej.
  destruct (Rlt_dec (Game.triggerZ t) 0); apply checkTrigger_scored; reflexivity.
Qed.
(* ------------------------------------------------------------------ *)
(** ** Remote players, the trajectory preview and the trail *)

Lemma lerp_rest (a v : Vector3) (alpha : R) :
  sub v (lerp a v alpha) = multiplyScalar (sub v a) (1 - alpha).
Proof. unfold sub, lerp, multiplyScalar. cbn. f_equal; ring. Qed.

Lemma distance_sym (a b : Vector3) : distance a b = distance b a.
Proof.
  unfold distance, length, sub. cbn. f_equal. ring.
Qed.

Lemma lerpRest_range (ds : list R) :
  Forall (fun d => 0 <= d) ds -> 0 <= lerpRest ds <= 1.
Proof.
  unfold lerpRest. induction 1 as [| d ds Hd _ IH]; cbn [map fold_right]; [lra |].
  pose proof (frameDelta_nonneg d Hd). nra.
Qed.

Lemma remoteFrames_rest (ds : list R) (r : RemotePlayer.t) :
  RemotePlayer.targetPosition (remoteFrames ds r) = RemotePlayer.targetPosition r /\
  sub (RemotePlayer.targetPosition r) (RemotePlayer.position (remoteFrames ds r))
  = multiplyScalar (sub (RemotePlayer.targetPosition r) (RemotePlayer.position r))
                   (lerpRest ds).
Proof.
  unfold remoteFrames, lerpRest. revert r.
  induction ds as [| d ds IH]; intros r; cbn [fold_left map fold_right].
  - split; [reflexivity |]. unfold multiplyScalar, sub. cbn.
    destruct (RemotePlayer.targetPosition r), (RemotePlayer.position r). cbn.
    f_equal; ring.
  - destruct (IH (RemotePlayer.update (Game.frameDelta d) r)) as [Ht Hs].
    cbn [RemotePlayer.update RemotePlayer.targetPosition RemotePlayer.position] in Ht, Hs.
    unfold RemotePlayer.update in *.
    cbn [RemotePlayer.targetPosition RemotePlayer.position] in *.
    split; [exact Ht |]. rewrite Hs, lerp_rest.
    unfold multiplyScalar. cbn. f_equal; ring.
Qed.

(** X12. Remote players never overshoot: in the game loop, where the frame
    delta is the clock's time capped at 0.1 s, every frame moves a remote
    player's mesh along the straight line towards its target and leaves the
    part [1 - 10 * delta], between 0 and 1, of the way that was left.  After
    any number of frames the mesh is nearer to the target by exactly the
    product of these parts, so never farther than before, and a single frame
    of 0.1 s or more puts it on the target. *)
Theorem remote_player_never_overshoots (clockDeltas : list R) (r : RemotePlayer.t) :
  Forall (fun d => 0 <= d) clockDeltas ->
  let r' := remoteFrames clockDeltas r in
  let target := RemotePlayer.targetPosition r in
  0 <= lerpRest clockDeltas <= 1 /\
  RemotePlayer.targetPosition r' = target /\
  RemotePlayer.position r'
  = between (RemotePlayer.position r) target (1 - lerpRest clockDeltas) /\
  distance (RemotePlayer.position r') target
  = lerpRest clockDeltas * distance (RemotePlayer.position r) target /\
  distance (RemotePlayer.position r') target <= distance (RemotePlayer.position r) target /\
  (Exists (fun d => 1 / 10 <= d) clockDeltas -> RemotePlayer.position r' = target).
Proof.
  intros Hds r' target.
  pose proof (lerpRest_range clockDeltas Hds) as Hk.
  destruct (remoteFrames_rest clockDeltas r) as [Ht Hs].
  fold r' in Ht, Hs. fold target in Ht, Hs.
  assert (Hd : distance (RemotePlayer.position r') target
               = lerpRest clockDeltas * distance (RemotePlayer.position r) target).
  { rewrite (distance_sym _ target), (distance_sym _ target). unfold distance.
    rewrite Hs. apply length_scaled. lra. }
  assert (Hp : RemotePlayer.position r'
               = between (RemotePlayer.position r) target (1 - lerpRest clockDeltas)).
  { unfold sub, multiplyScalar, between in *. cbn [x y z] in Hs.
    injection Hs as Hx Hy Hz.
    destruct (RemotePlayer.position r') as [px py pz]. cbn [x y z] in *.
    f_equal; lra. }
  split; [exact Hk |]. split; [exact Ht |]. split; [exact Hp |].
  split; [exact Hd |]. split.
  - rewrite Hd. pose proof (length_nonneg (sub (RemotePlayer.position r) target)).
    unfold distance. nra.
  - intros Hex. rewrite Hp.
    assert (Hz : lerpRest clockDeltas = 0).
    { clear - Hex. unfold lerpRest.
      induction Hex as [d ds Hd | d ds _ IH]; cbn [map fold_right].
      - unfold Game.frameDelta. rewrite Rmin_right by lra. lra.
      - rewrite IH. ring. }
    rewrite Hz. unfold between. destruct target. cbn. f_equal; ring.
Qed.

Lemma remote_player_never_overshoots_witness :
  let r := RemotePlayer.updateData (Some (vec3 3 2 (-4))) (RemotePlayer.create None) in
  distance (RemotePlayer.position (remoteFrames [1 / 60; 1 / 30] r))
           (RemotePlayer.targetPosition r)
  <= distance (RemotePlayer.position r) (RemotePlayer.targetPosition r).
Proof.
  cbv zeta.
  assert (H : Forall (fun d => 0 <= d) [1 / 60; 1 / 30]) by (repeat constructor; lra).
  exact (proj1 (proj2 (proj2 (proj2 (proj2
           (remote_player_never_overshoots [1 / 60; 1 / 30]
              (RemotePlayer.updateData (Some (vec3 3 2 (-4))) (RemotePlayer.create None))
              H)))))).
Defined.

(** A turn of the preview's loop with no hit is a collision-free sub-step
    of the ball. *)
Lemma point_free (cast : Trajectory.RayCast) (cs : list Collidable) (b : Ball.t) :
  let b' := Ball.step Trajectory.stepSize [] b in
  cast (Ball.position b)
       (normalize (sub (Ball.position b') (Ball.position b)))
       (length (sub (Ball.position b') (Ball.position b))) cs = None ->
  Trajectory.point cast cs (Trajectory.sim (Ball.position b) (Ball.velocity b) false)
  = (Trajectory.sim (Ball.position b') (Ball.velocity b') false, Some (Ball.position b')).
Proof.
  intros b'. subst b'. rewrite step_free. cbv zeta.
  cbn [Ball.position Ball.velocity]. unfold Trajectory.point.
  cbn [Trajectory.stopped Trajectory.pos Trajectory.vel].
  unfold Trajectory.drag, Trajectory.gravity, Ball.drag, Ball.gravity.
  intros H. rewrite H. reflexivity.
Qed.

Lemma point_hit (cast : Trajectory.RayCast) (cs : list Collidable) (b : Ball.t)
    (hit : Vector3) :
  let b' := Ball.step Trajectory.stepSize [] b in
  cast (Ball.position b)
       (normalize (sub (Ball.position b') (Ball.position b)))
       (length (sub (Ball.position b') (Ball.position b))) cs = Some hit ->
  Trajectory.point cast cs (Trajectory.sim (Ball.position b) (Ball.velocity b) false)
  = (Trajectory.sim hit (Ball.velocity b') true, Some hit).
Proof.
  intros b'. subst b'. rewrite step_free. cbv zeta.
  cbn [Ball.position Ball.velocity]. unfold Trajectory.point.
  cbn [Trajectory.stopped Trajectory.pos Trajectory.vel].
  unfold Trajectory.drag, Trajectory.gravity, Ball.drag, Ball.gravity.
  intros H. rewrite H. reflexivity.
Qed.

Lemma points_stopped (cast : Trajectory.RayCast) (cs : list Collidable) (n : nat)
    (p v : Vector3) :
  Trajectory.points cast cs n (Trajectory.sim p v true) = repeat None n.
Proof. induction n as [| n IH]; [reflexivity |]. cbn. f_equal. exact IH. Qed.

Lemma points_length (cast : Trajectory.RayCast) (cs : list Collidable) (n : nat)
    (s : Trajectory.Sim) :
  List.length (Trajectory.points cast cs n s) = n.
Proof.
  revert s. induction n as [| n IH]; intros s; [reflexivity |].
  cbn [Trajectory.points]. destruct (Trajectory.point cast cs s) as [s' d].
  cbn. f_equal. apply IH.
Qed.

Lemma previewFlight_S (origin velocity : Vector3) (j : nat) :
  previewFlight origin velocity (S j)
  = Ball.step Trajectory.stepSize [] (previewFlight origin velocity j).
Proof. reflexivity. Qed.

(** The dots from the [j]-th on, while the flight is free. *)
Lemma points_flight (cast : Trajectory.RayCast) (cs : list Collidable)
    (origin velocity : Vector3) (k n j : nat) :
  (k <= n)%nat ->
  (forall i, (i < k)%nat -> rayAt cast cs origin velocity (j + i) = None) ->
  let s := Trajectory.sim (Ball.position (previewFlight origin velocity j))
                          (Ball.velocity (previewFlight origin velocity j)) false in
  firstn k (Trajectory.points cast cs n s)
  = map (fun i => Some (Ball.position (previewFlight origin velocity (S i)))) (seq j k) /\
  forall hit, (k < n)%nat -> rayAt cast cs origin velocity (j + k) = Some hit ->
    skipn k (Trajectory.points cast cs n s) = Some hit :: repeat None (n - S k).
Proof.
  revert n j. induction k as [| k IH]; intros n j Hkn Hfree s.
  - split; [reflexivity |]. intros hit Hn Hray.
    destruct n as [| n]; [lia |]. cbn [skipn Trajectory.points]. subst s.
    rewrite Nat.add_0_r in Hray. unfold rayAt in Hray. cbv zeta in Hray.
    rewrite previewFlight_S in Hray.
    rewrite (point_hit cast cs _ hit Hray).
    rewrite points_stopped. replace (S n - 1)%nat with n by lia. reflexivity.
  - destruct n as [| n]; [lia |]. subst s. cbn [Trajectory.points].
    pose proof (Hfree 0%nat ltac:(lia)) as H0. rewrite Nat.add_0_r in H0.
    unfold rayAt in H0. cbv zeta in H0. rewrite previewFlight_S in H0.
    rewrite (point_free cast cs _ H0). rewrite <- previewFlight_S.
    destruct (IH n (S j) ltac:(lia)) as [IH1 IH2].
    { intros i Hi. replace (S j + i)%nat with (j + S i)%nat by lia. apply Hfree. lia. }
    cbv zeta in IH1, IH2. split.
    + cbn [firstn seq map]. rewrite IH1. reflexivity.
    + intros hit Hn Hray. cbn [skipn].
      replace (S n - S (S k))%nat with (n - S k)%nat by lia.
      apply IH2; [lia |]. replace (S j + k)%nat with (j + S k)%nat by lia. exact Hray.
Qed.

(** X13. The trajectory preview follows the ball's own stepper: there are
    always 30 dots; as long as the ray cast reports no hit, the dots are the
    positions a ball launched from the origin with the given velocity takes
    after 1, 2, 3, ... collision-free sub-steps of [Ball.step], with the
    preview's step of 0.05 s where the ball itself moves in steps of 0.01 s;
    at the first hit the dot is put on the hit point and every later dot is
    hidden. *)
Theorem trajectory_follows_stepper
    (cast : Trajectory.RayCast) (origin velocity : Vector3) (cs : list Collidable) :
  let dots := Trajectory.update cast origin velocity cs in
  List.length dots = 30%nat /\
  forall k : nat, (k <= 30)%nat ->
    (forall j, (j < k)%nat -> rayAt cast cs origin velocity j = None) ->
    firstn k dots
    = map (fun j => Some (Ball.position (previewFlight origin velocity (S j)))) (seq 0 k) /\
    forall hit, (k < 30)%nat -> rayAt cast cs origin velocity k = Some hit ->
      skipn k dots = Some hit :: repeat None (29 - k).
Proof.
  intros dots. subst dots. unfold Trajectory.update, Trajectory.pointCount.
  split; [apply points_length |].
  intros k Hk Hfree.
  destruct (points_flight cast cs origin velocity k 30 0 Hk Hfree) as [H1 H2].
  cbv zeta in H1, H2. split; [exact H1 |].
  intros hit Hlt Hray. replace (29 - k)%nat with (30 - S k)%nat by lia.
  apply H2; assumption.
Qed.

Lemma trajectory_follows_stepper_witness :
  let cast : Trajectory.RayCast := fun _ _ _ _ => None in
  firstn 2 (Trajectory.update cast (vec3 0 2 5) (vec3 0 5 (-10)) [courtFloor])
  = map (fun j => Some (Ball.position (previewFlight (vec3 0 2 5) (vec3 0 5 (-10)) (S j))))
        (seq 0 2).
Proof.
  cbv zeta.
  refine (proj1 (proj2 (trajectory_follows_stepper (fun _ _ _ _ => None)
                          (vec3 0 2 5) (vec3 0 5 (-10)) [courtFloor]) 2%nat _ _)).
  - lia.
  - intros j _. reflexivity.
Defined.
(* ------------------------------------------------------------------ *)
(** ** The trail buffer *)

Lemma setAt_length (i : nat) (v : R) (a : list R) :
  List.length (Trail.setAt i v a) = List.length a.
Proof.
  revert i. induction a as [| h a IH]; intros i; [destruct i; reflexivity |].
  destruct i; cbn; [reflexivity | f_equal; apply IH].
Qed.

Lemma getAt_setAt (k i : nat) (v : R) (a : list R) :
  (i < List.length a)%nat ->
  Trail.getAt k (Trail.setAt i v a) = if Nat.eqb k i then v else Trail.getAt k a.
Proof.
  unfold Trail.getAt. revert k i. induction a as [| h a IH]; intros k i Hi; [cbn in Hi; lia |].
  destruct i as [| i], k as [| k]; cbn; try reflexivity.
  apply IH. cbn in Hi. lia.
Qed.

Lemma copyPoint_length (i : nat) (a : list R) :
  List.length (Trail.copyPoint i a) = List.length a.
Proof. unfold Trail.copyPoint. cbv zeta. rewrite !setAt_length. reflexivity. Qed.

Lemma getAt_copyPoint (k i : nat) (a : list R) :
  (1 <= i)%nat -> (i * 3 + 2 < List.length a)%nat ->
  Trail.getAt k (Trail.copyPoint i a)
  = if (i * 3 <=? k)%nat && (k <? i * 3 + 3)%nat then Trail.getAt (k - 3) a
    else Trail.getAt k a.
Proof.
  intros Hi Hlen. unfold Trail.copyPoint. cbv zeta.
  rewrite !getAt_setAt by (rewrite ?setAt_length; lia).
  destruct (Nat.eqb_spec k (i * 3 + 2)) as [-> | N2].
  - replace ((i - 1) * 3 + 2 =? i * 3 + 1)%nat with false by (symmetry; apply Nat.eqb_neq; lia).
    replace ((i - 1) * 3 + 2 =? i * 3)%nat with false by (symmetry; apply Nat.eqb_neq; lia).
    replace (i * 3 <=? i * 3 + 2)%nat with true by (symmetry; apply Nat.leb_le; lia).
    replace (i * 3 + 2 <? i * 3 + 3)%nat with true by (symmetry; apply Nat.ltb_lt; lia).
    cbn [andb]. f_equal. lia.
  - destruct (Nat.eqb_spec k (i * 3 + 1)) as [-> | N1].
    + replace ((i - 1) * 3 + 1 =? i * 3)%nat with false by (symmetry; apply Nat.eqb_neq; lia).
      replace (i * 3 <=? i * 3 + 1)%nat with true by (symmetry; apply Nat.leb_le; lia).
      replace (i * 3 + 1 <? i * 3 + 3)%nat with true by (symmetry; apply Nat.ltb_lt; lia).
      cbn [andb]. f_equal. lia.
    + destruct (Nat.eqb_spec k (i * 3)) as [-> | N0].
      * replace (i * 3 <=? i * 3)%nat with true by (symmetry; apply Nat.leb_le; lia).
        replace (i * 3 <? i * 3 + 3)%nat with true by (symmetry; apply Nat.ltb_lt; lia).
        cbn [andb]. f_equal. lia.
      * destruct (Nat.leb_spec (i * 3) k); [| reflexivity].
        destruct (Nat.ltb_spec k (i * 3 + 3)); [lia | reflexivity].
Qed.

Lemma shiftFrom_length (i : nat) (a : list R) :
  List.length (Trail.shiftFrom i a) = List.length a.
Proof.
  revert a. induction i as [| i IH]; intros a; [reflexivity |].
  cbn [Trail.shiftFrom]. rewrite IH. apply copyPoint_length.
Qed.

(** The loop runs from the tail to the head, so that every point takes the
    old value of the point before it. *)
Lemma getAt_shiftFrom (k i : nat) (a : list R) :
  (i * 3 + 2 < List.length a)%nat ->
  Trail.getAt k (Trail.shiftFrom i a)
  = if (3 <=? k)%nat && (k <? i * 3 + 3)%nat then Trail.getAt (k - 3) a
    else Trail.getAt k a.
Proof.
  revert a. induction i as [| i IH]; intros a Hlen.
  - cbn [Trail.shiftFrom]. destruct (Nat.leb_spec 3 k); [| reflexivity].
    destruct (Nat.ltb_spec k (0 * 3 + 3)); [lia | reflexivity].
  - cbn [Trail.shiftFrom]. rewrite IH by (rewrite copyPoint_length; lia).
    rewrite !getAt_copyPoint by lia.
    destruct (Nat.leb_spec 3 k) as [H3 | H3]; cbn [andb].
    + destruct (Nat.ltb_spec k (i * 3 + 3)) as [Hk | Hk].
      * replace (S i * 3 <=? k - 3)%nat with false by (symmetry; apply Nat.leb_gt; lia).
        replace (k <? S i * 3 + 3)%nat with true by (symmetry; apply Nat.ltb_lt; lia).
        reflexivity.
      * destruct (Nat.leb_spec (S i * 3) k); [| lia]. reflexivity.
    + replace (S i * 3 <=? k)%nat with false by (symmetry; apply Nat.leb_gt; lia).
      reflexivity.
Qed.

Lemma updateTrail_length (active visible : bool) (p : Vector3) (a : list R) :
  List.length (Trail.updateTrail active visible p a) = List.length a.
Proof.
  unfold Trail.updateTrail. destruct (negb active && negb visible); [reflexivity |].
  cbv zeta. rewrite !setAt_length. apply shiftFrom_length.
Qed.

Lemma trailPoint_updateTrail (active visible : bool) (p : Vector3) (a : list R) (i : nat) :
  negb active && negb visible = false ->
  List.length a = 90%nat -> (i < 30)%nat ->
  trailPoint (Trail.updateTrail active visible p a) i
  = match i with O => p | S j => trailPoint a j end.
Proof.
  intros Hv Hlen Hi. unfold Trail.updateTrail. rewrite Hv. cbv zeta.
  unfold trailPoint, Trail.trailLength.
  rewrite !getAt_setAt by (rewrite ?setAt_length, shiftFrom_length; lia).
  rewrite !getAt_shiftFrom by (cbn; lia).
  destruct i as [| j].
  - cbn. destruct p; reflexivity.
  - replace (S j * 3 =? 2)%nat with false by (symmetry; apply Nat.eqb_neq; lia).
    replace (S j * 3 =? 1)%nat with false by (symmetry; apply Nat.eqb_neq; lia).
    replace (S j * 3 =? 0)%nat with false by (symmetry; apply Nat.eqb_neq; lia).
    replace (S j * 3 + 1 =? 2)%nat with false by (symmetry; apply Nat.eqb_neq; lia).
    replace (S j * 3 + 1 =? 1)%nat with false by (symmetry; apply Nat.eqb_neq; lia).
    replace (S j * 3 + 1 =? 0)%nat with false by (symmetry; apply Nat.eqb_neq; lia).
    replace (S j * 3 + 2 =? 2)%nat with false by (symmetry; apply Nat.eqb_neq; lia).
    replace (S j * 3 + 2 =? 1)%nat with false by (symmetry; apply Nat.eqb_neq; lia).
    replace (S j * 3 + 2 =? 0)%nat with false by (symmetry; apply Nat.eqb_neq; lia).
    replace (3 <=? S j * 3)%nat with true by (symmetry; apply Nat.leb_le; lia).
    replace (3 <=? S j * 3 + 1)%nat with true by (symmetry; apply Nat.leb_le; lia).
    replace (3 <=? S j * 3 + 2)%nat with true by (symmetry; apply Nat.leb_le; lia).
    replace (S j * 3 <? (30 - 1) * 3 + 3)%nat with true by (symmetry; apply Nat.ltb_lt; lia).
    replace (S j * 3 + 1 <? (30 - 1) * 3 + 3)%nat with true
      by (symmetry; apply Nat.ltb_lt; lia).
    replace (S j * 3 + 2 <? (30 - 1) * 3 + 3)%nat with true
      by (symmetry; apply Nat.ltb_lt; lia).
    cbn [andb].
    replace (S j * 3 - 3)%nat with (j * 3)%nat by lia.
    replace (S j * 3 + 1 - 3)%nat with (j * 3 + 1)%nat by lia.
    replace (S j * 3 + 2 - 3)%nat with (j * 3 + 2)%nat by lia.
    reflexivity.
Qed.

Lemma setPoint_length (i : nat) (p : Vector3) (a : list R) :
  List.length (Trail.setPoint i p a) = List.length a.
Proof. unfold Trail.setPoint. rewrite !setAt_length. reflexivity. Qed.

Lemma trailPoint_setPoint (i j : nat) (p : Vector3) (a : list R) :
  (i * 3 + 2 < List.length a)%nat ->
  trailPoint (Trail.setPoint i p a) j = if Nat.eqb j i then p else trailPoint a j.
Proof.
  intros Hlen. unfold trailPoint, Trail.setPoint.
  rewrite !getAt_setAt by (rewrite ?setAt_length; lia).
  destruct (Nat.eqb_spec j i) as [-> | N].
  - rewrite !Nat.eqb_refl.
    replace (i * 3 =? i * 3 + 2)%nat with false by (symmetry; apply Nat.eqb_neq; lia).
    replace (i * 3 =? i * 3 + 1)%nat with false by (symmetry; apply Nat.eqb_neq; lia).
    replace (i * 3 + 1 =? i * 3 + 2)%nat with false by (symmetry; apply Nat.eqb_neq; lia).
    destruct p; reflexivity.
  - replace (j * 3 =? i * 3 + 2)%nat with false by (symmetry; apply Nat.eqb_neq; lia).
    replace (j * 3 =? i * 3 + 1)%nat with false by (symmetry; apply Nat.eqb_neq; lia).
    replace (j * 3 =? i * 3)%nat with false by (symmetry; apply Nat.eqb_neq; lia).
    replace (j * 3 + 1 =? i * 3 + 2)%nat with false by (symmetry; apply Nat.eqb_neq; lia).
    replace (j * 3 + 1 =? i * 3 + 1)%nat with false by (symmetry; apply Nat.eqb_neq; lia).
    replace (j * 3 + 1 =? i * 3)%nat with false by (symmetry; apply Nat.eqb_neq; lia).
    replace (j * 3 + 2 =? i * 3 + 2)%nat with false by (symmetry; apply Nat.eqb_neq; lia).
    replace (j * 3 + 2 =? i * 3 + 1)%nat with false by (symmetry; apply Nat.eqb_neq; lia).
    replace (j * 3 + 2 =? i * 3)%nat with false by (symmetry; apply Nat.eqb_neq; lia).
    reflexivity.
Qed.

Lemma fill_points (p : Vector3) (n : nat) (a : list R) (j : nat) :
  (n * 3 <= List.length a)%nat ->
  List.length (fold_left (fun a' i => Trail.setPoint i p a') (seq 0 n) a) = List.length a /\
  trailPoint (fold_left (fun a' i => Trail.setPoint i p a') (seq 0 n) a) j
  = if (j <? n)%nat then p else trailPoint a j.
Proof.
  induction n as [| n IH]; intros Hlen.
  - split; reflexivity.
  - rewrite seq_S, fold_left_app. cbn [fold_left Nat.add].
    destruct IH as [IHl IHp]; [lia |].
    split; [rewrite setPoint_length; exact IHl |].
    rewrite trailPoint_setPoint by (rewrite IHl; lia). rewrite IHp.
    destruct (Nat.eqb_spec j n) as [-> | N].
    + replace (n <? S n)%nat with true by (symmetry; apply Nat.ltb_lt; lia). reflexivity.
    + destruct (Nat.ltb_spec j n), (Nat.ltb_spec j (S n)); try lia; reflexivity.
Qed.

(** X14. The trail holds the last positions, the newest first: after
    [resetTrail] all 30 points are the given position, and each
    [updateTrail] of a ball that is active or visible puts the ball's
    position in front and moves every older point one place back, dropping
    the oldest.  So after a reset at [p0] and updates at [ps], point [i] is
    the [i]-th last of [ps], or [p0] where there have been fewer updates. *)
Theorem trail_keeps_last_positions
    (active visible : bool) (p0 : Vector3) (ps : list Vector3) (a : list R) :
  negb active && negb visible = false ->
  List.length a = 90%nat ->
  let a' := fold_left (fun t p => Trail.updateTrail active visible p t) ps
                      (Trail.resetTrail p0 a) in
  List.length a' = 90%nat /\
  forall i : nat, (i < 30)%nat -> trailPoint a' i = nth i (rev ps) p0.
Proof.
  intros Hv Hlen. induction ps as [| p ps IH] using rev_ind.
  - cbn [fold_left rev]. unfold Trail.resetTrail, Trail.trailLength.
    destruct (fill_points p0 30 a 0 ltac:(lia)) as [Hl _].
    split; [rewrite Hl; exact Hlen |].
    intros i Hi. destruct (fill_points p0 30 a i ltac:(lia)) as [_ Hp].
    rewrite Hp. replace (i <? 30)%nat with true by (symmetry; apply Nat.ltb_lt; lia).
    destruct i; reflexivity.
  - rewrite fold_left_app, rev_app_distr. cbn [fold_left rev app].
    cbv zeta in IH. destruct IH as [IHl IHp].
    split; [rewrite updateTrail_length; exact IHl |].
    intros i Hi. rewrite (trailPoint_updateTrail _ _ _ _ i Hv IHl Hi).
    destruct i as [| j]; [reflexivity |]. cbn [nth]. apply IHp. lia.
Qed.

Lemma trail_keeps_last_positions_witness :
  trailPoint (fold_left (fun t p => Trail.updateTrail true true p t)
                        [vec3 0 5 0; vec3 0 4 0]
                        (Trail.resetTrail (vec3 0 5 0) (repeat 0 90))) 1
  = nth 1 (rev [vec3 0 5 0; vec3 0 4 0]) (vec3 0 5 0).
Proof.
  refine (proj2 (trail_keeps_last_positions true true (vec3 0 5 0)
                   [vec3 0 5 0; vec3 0 4 0] (repeat 0 90) eq_refl eq_refl) 1%nat _).
  lia.
Defined.
(* ------------------------------------------------------------------ *)
(** ** The confetti pool *)

Lemma spawn_fresh (rand : ParticleSystem.Random) (drawn : nat) (pos : Vector3)
    (p : ParticleSystem.Particle) :
  (forall n, 0 <= rand n < 1) ->
  freshlyEmitted pos (ParticleSystem.spawn rand drawn pos p).
Proof.
  intros Hr. unfold freshlyEmitted, ParticleSystem.spawn. cbn.
  pose proof (Hr drawn) as H0. pose proof (Hr (drawn + 3)%nat) as H3.
  pose proof (Hr (drawn + 4)%nat) as H4. pose proof (Hr (drawn + 5)%nat) as H5.
  split; [reflexivity |]. split; [reflexivity |]. split; [reflexivity |].
  split; [nra |]. split; apply Rabs_le; nra.
Qed.

Lemma emitLoop_spec (rand : ParticleSystem.Random) (pos : Vector3) (count : nat)
    (pool : list ParticleSystem.Particle) :
  (forall n, 0 <= rand n < 1) ->
  forall drawn spawned : nat,
    let pool' := ParticleSystem.emitLoop rand drawn pos count spawned pool in
    List.length pool' = List.length pool /\
    activeCount pool'
    = (activeCount pool + Nat.min (Nat.max (count - spawned) 1) (inactiveCount pool))%nat /\
    forall i p, nth_error pool i = Some p ->
      exists p', nth_error pool' i = Some p' /\
        (p' = p \/ (ParticleSystem.active p = false /\ freshlyEmitted pos p')).
Proof.
  intros Hr. unfold activeCount, inactiveCount.
  induction pool as [| p rest IH]; intros drawn spawned; cbv zeta.
  - cbn. split; [reflexivity |]. split; [lia |]. intros [| i] p H; discriminate.
  - cbn [ParticleSystem.emitLoop filter]. destruct (ParticleSystem.active p) eqn:Ea.
    + destruct (IH drawn spawned) as [Hl [Hc Hn]]. cbv zeta in Hl, Hc, Hn.
      cbn [negb List.length filter]. rewrite Ea. cbn [List.length].
      split; [lia |]. split; [lia |].
      intros [| i] q Hq; cbn [nth_error] in *.
      * exists p. split; [reflexivity | left; congruence].
      * apply Hn. exact Hq.
    + cbn [negb List.length]. destruct (Nat.leb_spec count (S spawned)) as [Hle | Hgt].
      * cbn [List.length filter ParticleSystem.spawn ParticleSystem.active].
        split; [reflexivity |]. split; [lia |].
        intros [| i] q Hq; cbn [nth_error] in *.
        -- injection Hq as <-. eexists. split; [reflexivity |]. right.
           split; [exact Ea | apply spawn_fresh; exact Hr].
        -- exists q. split; [exact Hq | left; reflexivity].
      * destruct (IH (drawn + 7)%nat (S spawned)) as [Hl [Hc Hn]]. cbv zeta in Hl, Hc, Hn.
        cbn [List.length filter ParticleSystem.spawn ParticleSystem.active].
        split; [lia |]. split; [lia |].
        intros [| i] q Hq; cbn [nth_error] in *.
        -- injection Hq as <-. eexists. split; [reflexivity |]. right.
           split; [exact Ea | apply (spawn_fresh rand drawn pos p Hr)].
        -- apply Hn. exact Hq.
Qed.

(** Which particle of the pool the loop of [emit] activates, and with which
    random values: the inactive particle that has [k] inactive particles
    before it is the [k]-th to be activated, as long as the quota lasts, and
    uses the seven values drawn after the [7 k] of its predecessors. *)
Lemma emitLoop_nth (rand : ParticleSystem.Random) (pos : Vector3) (count : nat)
    (pool : list ParticleSystem.Particle) :
  forall (drawn spawned i : nat) (p : ParticleSystem.Particle),
    nth_error pool i = Some p ->
    nth_error (ParticleSystem.emitLoop rand drawn pos count spawned pool) i
    = Some (if ParticleSystem.active p then p
            else if (inactiveCount (firstn i pool) <? Nat.max (count - spawned) 1)%nat
                 then ParticleSystem.spawn rand
                        (drawn + 7 * inactiveCount (firstn i pool)) pos p
                 else p).
Proof.
  unfold inactiveCount.
  induction pool as [| p0 rest IH]; intros drawn spawned i p Hp.
  - destruct i; discriminate.
  - cbn [ParticleSystem.emitLoop]. destruct (ParticleSystem.active p0) eqn:Ea.
    + destruct i as [| i]; cbn [nth_error firstn filter] in *.
      * injection Hp as <-. rewrite Ea. reflexivity.
      * rewrite Ea. cbn [negb]. apply IH. exact Hp.
    + cbv zeta. destruct (Nat.leb_spec count (S spawned)) as [Hle | Hgt].
      * replace (Nat.max (count - spawned) 1) with 1%nat by lia.
        destruct i as [| i]; cbn [nth_error firstn filter List.length] in *.
        -- injection Hp as <-. rewrite Ea. cbn [Nat.ltb Nat.leb].
           replace (drawn + 7 * 0)%nat with drawn by lia. reflexivity.
        -- rewrite Ea. cbn [negb List.length]. rewrite Hp.
           destruct (ParticleSystem.active p); reflexivity.
      * destruct i as [| i]; cbn [nth_error firstn filter List.length] in *.
        -- injection Hp as <-. rewrite Ea.
           destruct (Nat.ltb_spec 0 (Nat.max (count - spawned) 1)) as [_ | H]; [| lia].
           replace (drawn + 7 * 0)%nat with drawn by lia. reflexivity.
        -- rewrite Ea. cbn [negb List.length].
           rewrite (IH (drawn + 7)%nat (S spawned) i p Hp).
           set (k := List.length (filter (fun q => negb (ParticleSystem.active q))
                                         (firstn i rest))).
           destruct (ParticleSystem.active p); [reflexivity |].
           replace (drawn + 7 + 7 * k)%nat with (drawn + 7 * S k)%nat by lia.
           destruct (Nat.ltb_spec k (Nat.max (count - S spawned) 1));
             destruct (Nat.ltb_spec (S k) (Nat.max (count - spawned) 1));
             try reflexivity; lia.
Qed.

(** X15. A burst takes its particles from the pool: [emit(position, count)]
    keeps the size of the pool, leaves every active particle as it is, and
    activates the first inactive ones in pool order - [count] of them, one
    when [count] is 0, all that are left when the pool has fewer: the
    inactive particle with [k] inactive particles before it is activated
    exactly when [k] is below that number, from the seven random values that
    follow the [7 k] values of its predecessors, and every other particle is
    left as it is.  Every particle it activates has two seconds to live,
    starts at the given position and flies upwards, with a vertical speed
    from 1 to 5 and at most 2.5 along x and z. *)
Theorem emit_takes_from_pool (rand : ParticleSystem.Random) (pos : Vector3) (count : nat)
    (pool : list ParticleSystem.Particle) :
  (forall n, 0 <= rand n < 1) ->
  let pool' := ParticleSystem.emit rand pos count pool in
  List.length pool' = List.length pool /\
  activeCount pool' = (activeCount pool + Nat.min (Nat.max count 1) (inactiveCount pool))%nat /\
  (forall i p, nth_error pool i = Some p ->
     exists p', nth_error pool' i = Some p' /\
       (p' = p \/ (ParticleSystem.active p = false /\ freshlyEmitted pos p'))) /\
  (forall i p, nth_error pool i = Some p ->
     let k := inactiveCount (firstn i pool) in
     nth_error pool' i
     = Some (if ParticleSystem.active p then p
             else if (k <? Nat.max count 1)%nat then
               let speed := 2 + rand (7 * k)%nat * 3 in
               ParticleSystem.particle true 2 pos
                 (vec3 ((rand (7 * k + 3)%nat - 5 / 10) * speed)
                       ((rand (7 * k + 4)%nat * (5 / 10) + 5 / 10) * speed)
                       ((rand (7 * k + 5)%nat - 5 / 10) * speed))
             else p)).
Proof.
  intros Hr pool'. subst pool'. unfold ParticleSystem.emit.
  destruct (emitLoop_spec rand pos count pool Hr 0 0) as [Hl [Hc Hn]].
  cbv zeta in Hl, Hc, Hn. rewrite Nat.sub_0_r in Hc.
  split; [exact Hl |]. split; [exact Hc |]. split; [exact Hn |].
  intros i p Hp. cbv zeta.
  rewrite (emitLoop_nth rand pos count pool 0 0 i p Hp).
  rewrite Nat.sub_0_r. reflexivity.
Qed.

Lemma emit_takes_from_pool_witness :
  let idle := ParticleSystem.particle false 0 zero3 zero3 in
  let pool := [ParticleSystem.particle true 1 (vec3 0 3 0) (vec3 0 1 0); idle; idle] in
  let pool' := ParticleSystem.emit (fun _ => 1 / 2) (vec3 0 3 (-14)) 1 pool in
  activeCount pool' = 2%nat /\
  nth_error pool' 1
  = Some (ParticleSystem.particle true 2 (vec3 0 3 (-14))
            (vec3 ((1 / 2 - 5 / 10) * (2 + 1 / 2 * 3))
                  ((1 / 2 * (5 / 10) + 5 / 10) * (2 + 1 / 2 * 3))
                  ((1 / 2 - 5 / 10) * (2 + 1 / 2 * 3)))) /\
  nth_error pool' 2 = Some idle.
Proof.
  cbv zeta.
  assert (Hr : forall n : nat, 0 <= (fun _ : nat => 1 / 2) n < 1) by (intros _; lra).
  destruct (emit_takes_from_pool (fun _ => 1 / 2) (vec3 0 3 (-14)) 1
              [ParticleSystem.particle true 1 (vec3 0 3 0) (vec3 0 1 0);
               ParticleSystem.particle false 0 zero3 zero3;
               ParticleSystem.particle false 0 zero3 zero3] Hr) as [_ [Hc [_ Hn]]].
  split; [exact Hc |].
  split; [exact (Hn 1%nat _ eq_refl) | exact (Hn 2%nat _ eq_refl)].
Defined.

Lemma updateParticle_inactive (delta : R) (p : ParticleSystem.Particle) :
  ParticleSystem.active p = false -> ParticleSystem.updateParticle delta p = p.
Proof. intros H. unfold ParticleSystem.updateParticle. rewrite H. reflexivity. Qed.

Lemma updates_inactive (ds : list R) (p : ParticleSystem.Particle) :
  ParticleSystem.active p = false ->
  fold_left (fun q d => ParticleSystem.updateParticle d q) ds p = p.
Proof.
  intros H. induction ds as [| d ds IH]; [reflexivity |].
  cbn [fold_left]. rewrite updateParticle_inactive by exact H. exact IH.
Qed.

Lemma update_fold (ds : list R) (pool : list ParticleSystem.Particle) :
  fold_left (fun q d => ParticleSystem.update d q) ds pool
  = map (fun p => fold_left (fun q d => ParticleSystem.updateParticle d q) ds p) pool.
Proof.
  revert pool. induction ds as [| d ds IH]; intros pool; cbn [fold_left].
  - symmetry. apply map_id.
  - rewrite IH. unfold ParticleSystem.update. rewrite map_map. reflexivity.
Qed.

Lemma particle_life (ds : list R) (p : ParticleSystem.Particle) :
  Forall (fun d => 0 <= d) ds ->
  ParticleSystem.active p = true -> 0 < ParticleSystem.life p ->
  let p' := fold_left (fun q d => ParticleSystem.updateParticle d q) ds p in
  (ParticleSystem.active p' = true <-> sumR ds < ParticleSystem.life p) /\
  (ParticleSystem.active p' = true ->
     ParticleSystem.life p' = ParticleSystem.life p - sumR ds).
Proof.
  intros Hds. revert p. induction Hds as [| d ds Hd Hds IH]; intros p Ha Hl; cbv zeta.
  - cbn. rewrite Ha. split; [tauto | intros _; lra].
  - cbn [fold_left sumR fold_right]. fold (sumR ds).
    assert (Hs : 0 <= sumR ds).
    { clear - Hds. induction Hds as [| e l He _ IHl]; cbn; [lra |]. fold (sumR l). lra. }
    destruct (Rle_dec (ParticleSystem.life p - d) 0) as [Hdead | Hlive].
    + assert (E : ParticleSystem.updateParticle d p
                  = ParticleSystem.particle false (ParticleSystem.life p - d)
                      (ParticleSystem.position p) (ParticleSystem.velocity p)).
      { unfold ParticleSystem.updateParticle. rewrite Ha. cbv zeta.
        destruct (Rle_dec _ 0); [reflexivity | contradiction]. }
      rewrite E, updates_inactive by reflexivity. cbn.
      split; [split; [discriminate | lra] | discriminate].
    + set (v' := vec3 (x (ParticleSystem.velocity p) * (98 / 100))
                      (y (ParticleSystem.velocity p) - 98 / 10 * d)
                      (z (ParticleSystem.velocity p) * (98 / 100))).
      assert (E : ParticleSystem.updateParticle d p
                  = ParticleSystem.particle true (ParticleSystem.life p - d)
                      (addScaledVector (ParticleSystem.position p) v' d) v').
      { unfold ParticleSystem.updateParticle. rewrite Ha. cbv zeta.
        destruct (Rle_dec _ 0); [contradiction | reflexivity]. }
      rewrite E.
      destruct (IH (ParticleSystem.particle true (ParticleSystem.life p - d)
                      (addScaledVector (ParticleSystem.position p) v' d) v')
                  eq_refl) as [H1 H2].
      { cbn. lra. }
      cbv zeta in H1, H2. cbn [ParticleSystem.life] in H1, H2.
      split.
      * rewrite H1. split; lra.
      * intros H. rewrite (H2 H). lra.
Qed.

(** X16. A particle lives as long as its life says: over any frames with
    deltas that are not negative, [update] keeps the size of the pool,
    leaves an inactive particle as it is, and leaves an active particle with
    a positive life (2 s from [emit]) active exactly as long as the deltas
    add up to less than that life; while it is active, its life is what is
    left of it. *)
Theorem particle_lives_its_life (ds : list R) (pool : list ParticleSystem.Particle) :
  Forall (fun d => 0 <= d) ds ->
  let pool' := fold_left (fun q d => ParticleSystem.update d q) ds pool in
  List.length pool' = List.length pool /\
  forall i p, nth_error pool i = Some p ->
    exists p', nth_error pool' i = Some p' /\
      (ParticleSystem.active p = false -> p' = p) /\
      (ParticleSystem.active p = true -> 0 < ParticleSystem.life p ->
         (ParticleSystem.active p' = true <-> sumR ds < ParticleSystem.life p) /\
         (ParticleSystem.active p' = true ->
            ParticleSystem.life p' = ParticleSystem.life p - sumR ds)).
Proof.
  intros Hds pool'. subst pool'. rewrite update_fold.
  split; [apply length_map |].
  intros i p Hp. rewrite nth_error_map, Hp. cbn [option_map].
  eexists. split; [reflexivity |]. split; [apply updates_inactive |].
  intros Ha Hl. exact (particle_life ds p Hds Ha Hl).
Qed.

Lemma particle_lives_its_life_witness :
  let p := ParticleSystem.particle true 2 (vec3 0 3 (-14)) (vec3 1 3 0) in
  exists p',
    nth_error (fold_left (fun q d => ParticleSystem.update d q) [1 / 60; 1 / 10] [p]) 0
    = Some p' /\
    (ParticleSystem.active p' = true <-> sumR [1 / 60; 1 / 10] < 2).
Proof.
  cbv zeta.
  assert (Hds : Forall (fun d => 0 <= d) [1 / 60; 1 / 10]) by (repeat constructor; lra).
  assert (Hl : 0 < ParticleSystem.life
                     (ParticleSystem.particle true 2 (vec3 0 3 (-14)) (vec3 1 3 0)))
    by (cbn; lra).
  destruct (proj2 (particle_lives_its_life [1 / 60; 1 / 10]
                     [ParticleSystem.particle true 2 (vec3 0 3 (-14)) (vec3 1 3 0)] Hds)
                  0%nat _ eq_refl) as [p' [Hn [_ H]]].
  exists p'. split; [exact Hn |]. exact (proj1 (H eq_refl Hl)).
Defined.
(* ------------------------------------------------------------------ *)
(** ** The bot *)

Lemma settle_on_court (b : BotAI.t) :
  y (BotAI.position (BotAI.settle b)) = 1 /\
  -9 <= x (BotAI.position (BotAI.settle b)) <= 9 /\
  -16 <= z (BotAI.position (BotAI.settle b)) <= 16.
Proof.
  unfold BotAI.settle. cbn. unfold Rmax, Rmin.
  repeat (destruct (Rle_dec _ _)); lra.
Qed.

Lemma settle_stamina (b : BotAI.t) : BotAI.stamina (BotAI.settle b) = BotAI.stamina b.
Proof. reflexivity. Qed.

Lemma attack_stamina (rand delta : R) (b : BotAI.t) (sh : BotAI.Shared) :
  0 <= BotAI.stamina b <= 60 ->
  0 <= BotAI.stamina (fst (BotAI.attack rand delta b sh)) <= 60.
Proof.
  intros H. unfold BotAI.attack. cbv zeta. cbn [fst].
  destruct (Rlt_dec (BotAI.drawDistance rand b) (BotAI.hoopDistance b)).
  - cbn [fst BotAI.stamina]. unfold BotAI.maxStamina.
    repeat (destruct (Rlt_dec _ _)); lra.
  - destruct (Rlt_dec (2 / 10) _); cbn [fst BotAI.stamina]; exact H.
Qed.

(** X17. The bot stays on the court: [update] throws in one state only,
    that of a bot whose flag is clear while the ball names the bot as its
    owner; in every other state it returns with the bot at height 1, with x
    between -9 and 9 and z between -16 and 16, and with a stamina between 0
    and 60 if it was so before. *)
Theorem bot_stays_on_court (rand delta : R) (camera : Vector3) (b : BotAI.t)
    (sh : BotAI.Shared) :
  (BotAI.update rand delta camera b sh = None <->
   BotAI.hasBall b = false /\ Ball.owner (BotAI.ball sh) = Some TheBot) /\
  forall b' sh', BotAI.update rand delta camera b sh = Some (b', sh') ->
    y (BotAI.position b') = 1 /\
    -9 <= x (BotAI.position b') <= 9 /\
    -16 <= z (BotAI.position b') <= 16 /\
    (0 <= BotAI.stamina b <= 60 -> 0 <= BotAI.stamina b' <= 60).
Proof.
  unfold BotAI.update. split.
  - destruct (BotAI.hasBall b); [split; [discriminate | intros [H _]; discriminate] |].
    destruct (Ball.owner (BotAI.ball sh)) as [[|] |]; cbv zeta;
      split; try discriminate; try tauto; intros [_ H]; discriminate.
  - intros b' sh' H.
    assert (Hs : exists r, b' = BotAI.settle r /\
                   (0 <= BotAI.stamina b <= 60 -> 0 <= BotAI.stamina r <= 60)).
    { destruct (BotAI.hasBall b).
      - cbv zeta in H. injection H as <- _. eexists. split; [reflexivity |].
        apply attack_stamina.
      - destruct (Ball.owner (BotAI.ball sh)) as [[|] |]; cbv zeta in H;
          try discriminate; injection H as <- _; eexists; (split; [reflexivity |]).
        + unfold BotAI.defend. cbv zeta.
          destruct (Rlt_dec _ 2); [destruct (Rlt_dec 1 _) |]; cbn; tauto.
        + unfold BotAI.chase. cbv zeta. destruct (Rlt_dec _ (15 / 10)); cbn; tauto. }
    destruct Hs as [r [-> Hst]].
    destruct (settle_on_court r) as [Hy [Hx Hz]].
    split; [exact Hy |]. split; [exact Hx |]. split; [exact Hz |].
    rewrite settle_stamina. exact Hst.
Qed.

Lemma bot_stays_on_court_witness :
  exists b' sh',
    BotAI.update (1 / 2) (1 / 60) (vec3 0 2 5) BotAI.initial (BotAI.shared freshBall false)
    = Some (b', sh') /\
    y (BotAI.position b') = 1 /\
    0 <= BotAI.stamina b' <= 60.
Proof.
  eexists. eexists.
  assert (E : BotAI.update (1 / 2) (1 / 60) (vec3 0 2 5) BotAI.initial
                (BotAI.shared freshBall false)
              = Some (BotAI.settle (fst (BotAI.chase (1 / 60) BotAI.initial
                                           (BotAI.shared freshBall false))),
                      snd (BotAI.chase (1 / 60) BotAI.initial
                             (BotAI.shared freshBall false)))) by reflexivity.
  split; [exact E |].
  destruct (proj2 (bot_stays_on_court (1 / 2) (1 / 60) (vec3 0 2 5) BotAI.initial
                     (BotAI.shared freshBall false)) _ _ E) as [Hy [_ [_ Hs]]].
  split; [exact Hy |]. apply Hs. cbn. lra.
Defined.

(** X18. The bot's shot: a bot that has the ball, is within its shooting
    range of the hoop and has aimed for more than 0.2 s releases the ball
    in this update.  The velocity is the one the ballistic solver gives for
    a 70 degree shot from the bot's position to the centre of the near rim,
    (0, 2.8, 14.55), or (0, 10, 0) when the solver gives none; but the ball
    does not start at the bot's position: it is released where it is
    carried, 1.5 above and 0.5 in front of it along z.  The bot's flag, its
    aiming time and its shooting distance are cleared. *)
Theorem bot_shot (rand delta : R) (camera : Vector3) (b : BotAI.t) (sh : BotAI.Shared)
    (e : Entity) :
  BotAI.hasBall b = true ->
  Ball.owner (BotAI.ball sh) = Some e ->
  BotAI.hoopDistance b <= BotAI.drawDistance rand b ->
  2 / 10 < BotAI.aimingTime b + delta ->
  exists b' ball',
    BotAI.update rand delta camera b sh = Some (b', BotAI.shared ball' (BotAI.playerHasBall sh)) /\
    Ball.owner ball' = None /\
    Ball.velocity ball'
    = match Bot.calculateShotVelocity (BotAI.position b) (vec3 0 (28 / 10) (1455 / 100)) 70 with
      | Some v => v
      | None => vec3 0 10 0
      end /\
    Ball.position ball' = Player.add (BotAI.position b) (vec3 0 (15 / 10) (5 / 10)) /\
    BotAI.hasBall b' = false /\
    BotAI.aimingTime b' = 0 /\
    BotAI.shootDistance b' = None.
Proof.
  intros Hh Ho Hin Haim. unfold BotAI.update. rewrite Hh. cbv zeta.
  unfold BotAI.attack. cbv zeta.
  destruct (Rlt_dec (BotAI.drawDistance rand b) (BotAI.hoopDistance b)) as [Hfar | _]; [lra |].
  destruct (Rlt_dec (2 / 10) (BotAI.aimingTime b + delta)) as [_ | Hn]; [| lra].
  cbn [fst snd BotAI.position]. eexists. eexists. split; [reflexivity |].
  unfold Ball.release. rewrite Ho. cbn. repeat split; reflexivity.
Qed.

Lemma bot_shot_witness :
  exists b' ball',
    BotAI.update (1 / 2) (1 / 60) (vec3 0 2 5) aimingBot
                 (BotAI.shared (Ball.grab TheBot freshBall) false)
    = Some (b', BotAI.shared ball' false) /\
    Ball.owner ball' = None /\
    Ball.position ball' = vec3 (0 + 0) (1 + 15 / 10) (10 + 5 / 10).
Proof.
  assert (Hd : BotAI.hoopDistance aimingBot <= BotAI.drawDistance (1 / 2) aimingBot).
  { unfold BotAI.hoopDistance, BotAI.drawDistance, aimingBot, BotAI.targetHoop.
    cbn [BotAI.position BotAI.shootDistance x y z].
    destruct (Req_dec_T 6 0) as [E | _]; [lra |].
    replace ((0 - 0) * (0 - 0) + (10 - 15) * (10 - 15)) with (5 * 5) by ring.
    rewrite sqrt_square by lra. lra. }
  assert (Ha : 2 / 10 < BotAI.aimingTime aimingBot + 1 / 60) by (cbn; lra).
  destruct (bot_shot (1 / 2) (1 / 60) (vec3 0 2 5) aimingBot
              (BotAI.shared (Ball.grab TheBot freshBall) false) TheBot
              eq_refl eq_refl Hd Ha) as [b' [ball' [H1 [H2 [_ [H4 _]]]]]].
  exists b', ball'. split; [exact H1 |]. split; [exact H2 | exact H4].
Defined.

Lemma botFrames_cons (fr : BotFrame) (frames : list BotFrame) (b : BotAI.t)
    (sh : BotAI.Shared) :
  botFrames (fr :: frames) (b, sh)
  = match BotAI.update (frameRand fr) (frameTime fr) (frameCamera fr) b
            (BotAI.shared (BotAI.setBallPosition (frameBall fr) (BotAI.ball sh))
                          (BotAI.playerHasBall sh)) with
    | Some st => botFrames frames st
    | None => None
    end.
Proof.
  unfold botFrames. cbn [fold_left].
  destruct (BotAI.update _ _ _ _ _) as [st |]; [reflexivity |].
  induction frames as [| f l IH]; [reflexivity | exact IH].
Qed.

(** X19. The bot needs more than a second to steal: while the player owns
    the ball and the bot's flag is clear, no sequence of updates of the bot
    whose deltas, none negative, bring its steal timer to at most 1 s takes
    the ball from the player, wherever the player and the ball are in each
    frame: every update returns, the ball keeps the player as its owner, the
    player's flag is left as it is and the bot's flag stays clear. *)
Theorem bot_needs_a_second_to_steal (frames : list BotFrame) (b : BotAI.t)
    (sh : BotAI.Shared) :
  BotAI.hasBall b = false ->
  Ball.owner (BotAI.ball sh) = Some ThePlayer ->
  0 <= BotAI.stealTimer b ->
  Forall (fun fr => 0 <= frameTime fr) frames ->
  BotAI.stealTimer b + sumR (map frameTime frames) <= 1 ->
  exists b' sh',
    botFrames frames (b, sh) = Some (b', sh') /\
    BotAI.hasBall b' = false /\
    Ball.owner (BotAI.ball sh') = Some ThePlayer /\
    BotAI.playerHasBall sh' = BotAI.playerHasBall sh.
Proof.
  intros Hh Ho Ht Hf. revert b sh Hh Ho Ht.
  induction Hf as [| fr frames Hd Hf IH]; intros b sh Hh Ho Ht Hsum.
  - exists b, sh. repeat split; assumption.
  - cbn [map sumR fold_right] in Hsum. fold (sumR (map frameTime frames)) in Hsum.
    assert (Hrest : 0 <= sumR (map frameTime frames)).
    { clear - Hf. induction Hf as [| e l He _ IHl]; cbn; [lra |].
      fold (sumR (map frameTime l)). lra. }
    rewrite botFrames_cons. unfold BotAI.update. rewrite Hh.
    cbn [BotAI.ball BotAI.setBallPosition Ball.owner]. rewrite Ho. cbv zeta.
    unfold BotAI.defend. cbv zeta.
    cbn [BotAI.ball BotAI.playerHasBall BotAI.setBallPosition Ball.position].
    destruct (Rlt_dec _ 2) as [Hnear | Hfar].
    + destruct (Rlt_dec 1 (BotAI.stealTimer b + frameTime fr)) as [Hsteal | Hwait]; [lra |].
      cbn [fst snd].
      match goal with
      | |- exists b' sh', botFrames frames (?b1, ?s1) = _ /\ _ =>
          destruct (IH b1 s1) as [b' [sh' [H1 [H2 [H3 H4]]]]]
      end; try (cbn; first [reflexivity | assumption | lra]).
      exists b', sh'. repeat split; assumption.
    + cbn [fst snd].
      match goal with
      | |- exists b' sh', botFrames frames (?b1, ?s1) = _ /\ _ =>
          destruct (IH b1 s1) as [b' [sh' [H1 [H2 [H3 H4]]]]]
      end; try (cbn; first [reflexivity | assumption | lra]).
      exists b', sh'. repeat split; assumption.
Qed.

Lemma bot_needs_a_second_to_steal_witness :
  exists b' sh',
    botFrames [botFrame (1 / 2) (1 / 2) (vec3 0 1 (-10)) (vec3 0 1 (-9));
               botFrame (1 / 2) (1 / 2) (vec3 0 1 (-10)) (vec3 0 1 (-9))]
              (BotAI.initial, BotAI.shared (Ball.grab ThePlayer freshBall) true)
    = Some (b', sh') /\
    Ball.owner (BotAI.ball sh') = Some ThePlayer.
Proof.
  assert (Hf : Forall (fun fr => 0 <= frameTime fr)
                 [botFrame (1 / 2) (1 / 2) (vec3 0 1 (-10)) (vec3 0 1 (-9));
                  botFrame (1 / 2) (1 / 2) (vec3 0 1 (-10)) (vec3 0 1 (-9))]).
  { repeat constructor; cbn; lra. }
  assert (Ht : 0 <= BotAI.stealTimer BotAI.initial) by (cbn; lra).
  assert (Hs : BotAI.stealTimer BotAI.initial
               + sumR (map frameTime
                         [botFrame (1 / 2) (1 / 2) (vec3 0 1 (-10)) (vec3 0 1 (-9));
                          botFrame (1 / 2) (1 / 2) (vec3 0 1 (-10)) (vec3 0 1 (-9))]) <= 1)
    by (cbn; lra).
  destruct (bot_needs_a_second_to_steal _ BotAI.initial
              (BotAI.shared (Ball.grab ThePlayer freshBall) true) eq_refl eq_refl Ht Hf Hs)
    as [b' [sh' [H1 [_ [H3 _]]]]].
  exists b', sh'. split; assumption.
Defined.

Lemma attemptSteal_taken (f : Player.Frame) (s : PlayerControls.t) :
  PlayerControls.hasBall s = false ->
  PlayerControls.hasBall (PlayerControls.attemptSteal f s) = true ->
  exists b, PlayerControls.ball s = Some b /\
    PlayerControls.ball (PlayerControls.attemptSteal f s) = Some (Ball.grab ThePlayer b).
Proof.
  intros Hh. unfold PlayerControls.attemptSteal.
  destruct (PlayerControls.ball s) as [b |]; [| congruence].
  rewrite Hh. destruct (Ball.owner b); [| congruence]. cbv zeta.
  destruct (Rlt_dec 3 _); [congruence |].
  destruct (Rlt_dec (9 / 10) _); [| congruence].
  intros _. exists b. split; reflexivity.
Qed.

(** X20. A steal does not stop the bot: when the player's [attemptSteal]
    takes the ball from a bot that has it, the ball names the player as its
    owner, but the bot's own flag is still set and its next update does not
    look at the owner: it returns, puts the ball over the bot's head again,
    1.5 above and 0.5 along z from where the bot has moved to, and either
    goes on carrying it, flag set, while the ball still names the player, or
    shoots it, which leaves the ball free. *)
Theorem steal_does_not_stop_the_bot
    (f : Player.Frame) (s : PlayerControls.t) (rand delta : R) (camera : Vector3)
    (bot : BotAI.t) :
  PlayerControls.hasBall s = false ->
  BotAI.hasBall bot = true ->
  PlayerControls.hasBall (PlayerControls.attemptSteal f s) = true ->
  exists stolen bot' sh',
    PlayerControls.ball (PlayerControls.attemptSteal f s) = Some stolen /\
    Ball.owner stolen = Some ThePlayer /\
    BotAI.update rand delta camera bot (BotAI.shared stolen true) = Some (bot', sh') /\
    Ball.position (BotAI.ball sh')
    = Player.add (BotAI.meshPosition bot') (vec3 0 (15 / 10) (5 / 10)) /\
    BotAI.playerHasBall sh' = true /\
    ((BotAI.hasBall bot' = true /\ Ball.owner (BotAI.ball sh') = Some ThePlayer) \/
     (BotAI.hasBall bot' = false /\ Ball.owner (BotAI.ball sh') = None)).
Proof.
  intros Hs Hb Hst.
  destruct (attemptSteal_taken f s Hs Hst) as [b [_ Hball]].
  exists (Ball.grab ThePlayer b). unfold BotAI.update. rewrite Hb. cbv zeta.
  eexists. eexists. split; [exact Hball |]. split; [reflexivity |].
  split; [reflexivity |].
  unfold BotAI.attack. cbv zeta.
  destruct (Rlt_dec (BotAI.drawDistance rand bot) (BotAI.hoopDistance bot)).
  - cbn. split; [reflexivity |]. split; [reflexivity |]. left. split; reflexivity.
  - destruct (Rlt_dec (2 / 10) _); cbn.
    + split; [reflexivity |]. split; [reflexivity |]. right. split; reflexivity.
    + split; [reflexivity |]. split; [reflexivity |]. left. split; reflexivity.
Qed.

Lemma thief_steals :
  PlayerControls.hasBall (PlayerControls.attemptSteal (lookingNorth true) thief) = true.
Proof.
  assert (Hd : distance (vec3 0 (25 / 10) 12) (vec3 0 (25 / 10) (105 / 10)) = 3 / 2).
  { unfold distance, length, sub. cbn [x y z].
    replace ((0 - 0) * (0 - 0) + (25 / 10 - 25 / 10) * (25 / 10 - 25 / 10)
             + (12 - 105 / 10) * (12 - 105 / 10)) with (3 / 2 * (3 / 2)) by field.
    apply sqrt_square. lra. }
  assert (Hf : normalize (vec3 0 0 (-1)) = vec3 0 0 (-1)).
  { unfold normalize, length. cbn [x y z].
    replace (0 * 0 + 0 * 0 + -1 * -1) with (1 * 1) by ring.
    rewrite sqrt_square by lra. destruct (Req_dec_T 1 0); [lra |].
    unfold divideScalar, multiplyScalar. cbn [x y z]. f_equal; field. }
  assert (Hb : normalize (sub (vec3 0 (25 / 10) (105 / 10)) (vec3 0 (25 / 10) 12))
               = vec3 0 0 (-1)).
  { unfold normalize, length, sub. cbn [x y z].
    replace ((0 - 0) * (0 - 0) + (25 / 10 - 25 / 10) * (25 / 10 - 25 / 10)
             + (105 / 10 - 12) * (105 / 10 - 12)) with (3 / 2 * (3 / 2)) by field.
    rewrite sqrt_square by lra. destruct (Req_dec_T (3 / 2) 0); [lra |].
    unfold divideScalar, multiplyScalar. cbn [x y z]. f_equal; field. }
  unfold PlayerControls.attemptSteal, thief, lookingNorth.
  cbn [PlayerControls.ball PlayerControls.hasBall PlayerControls.body Player.position
       Player.lookForward BotAI.setBallPosition Ball.owner Ball.position Ball.grab].
  cbv zeta. rewrite Hd, Hf, Hb.
  destruct (Rlt_dec 3 (3 / 2)); [lra |].
  destruct (Rlt_dec (9 / 10) (dot (vec3 0 0 (-1)) (vec3 0 0 (-1)))) as [_ | Hn];
    [reflexivity |].
  exfalso. apply Hn. unfold dot. cbn [x y z]. lra.
Qed.

Lemma steal_does_not_stop_the_bot_witness :
  exists stolen bot' sh',
    PlayerControls.ball (PlayerControls.attemptSteal (lookingNorth true) thief) = Some stolen /\
    Ball.owner stolen = Some ThePlayer /\
    BotAI.update (1 / 2) (1 / 60) (vec3 0 (25 / 10) 12) aimingBot (BotAI.shared stolen true)
    = Some (bot', sh').
Proof.
  destruct (steal_does_not_stop_the_bot (lookingNorth true) thief (1 / 2) (1 / 60)
              (vec3 0 (25 / 10) 12) aimingBot eq_refl eq_refl thief_steals)
    as [stolen [bot' [sh' [H1 [H2 [H3 _]]]]]].
  exists stolen, bot', sh'. split; [exact H1 |]. split; [exact H2 | exact H3].
Defined.
(* ------------------------------------------------------------------ *)
(** ** The server and the ball messages *)

Lemma lookup_assign_same {A : Type} (id : Server.Id) (v : A) (ps : Dict.t A) :
  Dict.lookup id (Dict.assign id v ps) = Some v.
Proof.
  unfold Dict.lookup. induction ps as [| [i w] ps IH]; cbn.
  - rewrite String.eqb_refl. reflexivity.
  - destruct (String.eqb i id) eqn:E; cbn.
    + rewrite String.eqb_refl. reflexivity.
    + rewrite E. exact IH.
Qed.

Lemma lookup_assign_other {A : Type} (id id' : Server.Id) (v : A) (ps : Dict.t A) :
  id' <> id -> Dict.lookup id' (Dict.assign id v ps) = Dict.lookup id' ps.
Proof.
  intros Hne. unfold Dict.lookup. induction ps as [| [i w] ps IH]; cbn.
  - replace (String.eqb id id') with false; [reflexivity |].
    symmetry. apply String.eqb_neq. congruence.
  - destruct (String.eqb i id) eqn:E; cbn.
    + apply String.eqb_eq in E. subst i.
      replace (String.eqb id id') with false; [reflexivity |].
      symmetry. apply String.eqb_neq. congruence.
    + destruct (String.eqb i id'); [reflexivity | exact IH].
Qed.

Lemma lookup_remove_same {A : Type} (id : Server.Id) (ps : Dict.t A) :
  Dict.lookup id (Dict.remove id ps) = None.
Proof.
  unfold Dict.lookup, Dict.remove. induction ps as [| [i w] ps IH]; cbn; [reflexivity |].
  destruct (String.eqb i id) eqn:E; cbn; [exact IH |]. rewrite E. exact IH.
Qed.

Lemma lookup_remove_other {A : Type} (id id' : Server.Id) (ps : Dict.t A) :
  id' <> id -> Dict.lookup id' (Dict.remove id ps) = Dict.lookup id' ps.
Proof.
  intros Hne. unfold Dict.lookup, Dict.remove.
  induction ps as [| [i w] ps IH]; cbn; [reflexivity |].
  destruct (String.eqb i id) eqn:E; cbn.
  - apply String.eqb_eq in E. subst i.
    replace (String.eqb id id') with false; [exact IH |].
    symmetry. apply String.eqb_neq. congruence.
  - destruct (String.eqb i id'); [reflexivity | exact IH].
Qed.

Lemma connected_assign (id o : Server.Id) (v : Vector3) (s : Server.t) (b : Server.BallState) :
  connected o s -> connected o (Server.mk (Dict.assign id v (Server.players s)) b).
Proof.
  unfold connected. cbn. intros H. destruct (String.string_dec o id) as [-> | Hne].
  - rewrite lookup_assign_same. discriminate.
  - rewrite lookup_assign_other by exact Hne. exact H.
Qed.

Lemma handle_ownerConnected (e : Server.Event) (s : Server.t) :
  ownerConnected s -> honest e s -> ownerConnected (fst (Server.handle e s)).
Proof.
  unfold ownerConnected. intros Hinv Hh. destruct e as [id | id pos | id data | id]; cbn.
  - destruct (Server.ownerId (Server.ball s)) as [o |]; [| exact I].
    apply connected_assign. exact Hinv.
  - destruct (Dict.lookup id (Server.players s)) as [old |] eqn:El; cbn; [| exact Hinv].
    destruct (Server.ownerId (Server.ball s)) as [o |]; [| exact I].
    apply connected_assign. exact Hinv.
  - cbn in Hh. destruct Hh as [Hc [Ho _]]. rewrite Ho. exact Hc.
  - destruct (Server.ownerId (Server.ball s)) as [o |] eqn:Eo; cbn; [| rewrite Eo; exact I].
    destruct (String.eqb o id) eqn:E; cbn; [exact I |]. rewrite Eo.
    unfold connected in *. cbn. rewrite lookup_remove_other; [exact Hinv |].
    apply String.eqb_neq. exact E.
Qed.

Lemma run_cons (e : Server.Event) (events : list Server.Event) (s : Server.t) :
  Server.run (e :: events) s
  = (fst (Server.run events (fst (Server.handle e s))),
     snd (Server.handle e s) ++ snd (Server.run events (fst (Server.handle e s)))).
Proof.
  cbn [Server.run]. destruct (Server.handle e s) as [s1 out1]. cbn [fst snd].
  destruct (Server.run events s1) as [s2 out2]. reflexivity.
Qed.

(** X21. The server never keeps a player who has left as the owner of the
    ball: over every sequence of connections, player updates, disconnections
    and ball updates as the game client sends them (over a connected socket,
    with the sender's own id as owner), the owner on record, if there is
    one, is a connected player.  A disconnection removes the player; if the
    player was the owner on record, the ball is put back to (0, 5, 0) at
    rest without owner, and this is sent to everyone. *)
Theorem server_owner_is_connected :
  (forall (events : list Server.Event) (s : Server.t),
      ownerConnected s -> honestRun events s ->
      ownerConnected (fst (Server.run events s))) /\
  (forall (id : Server.Id) (s : Server.t),
      ~ connected id (fst (Server.handle (Server.Disconnect id) s)) /\
      (Server.ownerId (Server.ball s) = Some id ->
       Server.ball (fst (Server.handle (Server.Disconnect id) s))
       = Server.ballState None (vec3 0 5 0) zero3 /\
       In (Server.ToAll, Server.BallUpdated (Server.ballState None (vec3 0 5 0) zero3))
          (snd (Server.handle (Server.Disconnect id) s)))).
Proof.
  split.
  - induction events as [| e events IH]; intros s Hinv Hrun.
    + exact Hinv.
    + destruct Hrun as [Hh Hrest]. rewrite run_cons. cbn [fst].
      apply IH; [| exact Hrest]. apply handle_ownerConnected; assumption.
  - intros id s. split.
    + unfold connected. intros H. apply H. cbn.
      destruct (Server.ownerId (Server.ball s)) as [o |]; [destruct (String.eqb o id) |];
        cbn; apply lookup_remove_same.
    + intros Ho. cbn. rewrite Ho, String.eqb_refl. cbn.
      split; [reflexivity |]. right. left. reflexivity.
Qed.

Lemma server_owner_is_connected_witness :
  let events :=
    [Server.Connection socketA;
     Server.BallUpdate socketA
       (Server.ballData (Some (Some socketA)) (Some (vec3 0 2 0)) (Some zero3));
     Server.Disconnect socketA] in
  ownerConnected Server.initial /\ honestRun events Server.initial /\
  ownerConnected (fst (Server.run events Server.initial)).
Proof.
  cbv zeta.
  assert (Hi : ownerConnected Server.initial) by exact I.
  assert (Hr : honestRun
                 [Server.Connection socketA;
                  Server.BallUpdate socketA
                    (Server.ballData (Some (Some socketA))
                       (Some (vec3 0 2 0)) (Some zero3));
                  Server.Disconnect socketA]
                 Server.initial).
  { cbn. repeat split; try discriminate. }
  split; [exact Hi |]. split; [exact Hr |].
  exact (proj1 server_owner_is_connected _ _ Hi Hr).
Defined.

(** The ball messages of an event the game client can cause. *)
Lemma handle_ball_messages (e : Server.Event) (s : Server.t) (to : Server.Recipients)
    (bs : Server.BallState) :
  honest e s ->
  In (to, Server.BallUpdated bs) (snd (Server.handle e s)) ->
  (exists id, to = Server.ToOthers id /\ Server.ownerId bs = Some id) \/
  Server.ownerId bs = None.
Proof.
  intros Hh Hin. destruct e as [id | id pos | id data | id]; cbn in Hin.
  - destruct Hin as [H | [H | []]]; discriminate.
  - destruct (Dict.lookup id (Server.players s)); cbn in Hin;
      [destruct Hin as [H | []]; discriminate | contradiction].
  - destruct Hin as [H | []]. injection H as <- <-. left. exists id.
    split; [reflexivity |]. cbn in Hh. destruct Hh as [_ [Ho _]].
    unfold Server.merge. cbn. rewrite Ho. reflexivity.
  - destruct (Server.ownerId (Server.ball s)) as [o |];
      [destruct (String.eqb o id) |]; cbn in Hin.
    + destruct Hin as [H | [H | []]]; [discriminate |]. injection H as _ <-. right. reflexivity.
    + destruct Hin as [H | []]. discriminate.
    + destruct Hin as [H | []]. discriminate.
Qed.

(** X22. A held ball is a free ball on every other client: in a run of the
    server with the game's clients, no [ball_updated] message that reaches a
    client names that client as the owner.  So the client's handler, which
    knows no owner but the local player, takes the position and the velocity
    from the message and leaves the ball without owner, whoever holds it
    elsewhere; a client that has the ball ignores the message. *)
Theorem remote_ball_has_no_owner
    (events : list Server.Event) (s : Server.t) (to : Server.Recipients)
    (bs : Server.BallState) (client : Server.Id) (c : PlayerControls.t) (b : Ball.t) :
  honestRun events s ->
  In (to, Server.BallUpdated bs) (snd (Server.run events s)) ->
  reaches to client ->
  PlayerControls.ball c = Some b ->
  Server.ownerId bs <> Some client /\
  (PlayerControls.hasBall c = false ->
   PlayerControls.ball (onBallUpdated client bs c)
   = Some (Ball.mk (Server.ballPosition bs) (Server.ballVelocity bs) None (Ball.active b))) /\
  (PlayerControls.hasBall c = true -> onBallUpdated client bs c = c).
Proof.
  intros Hrun Hin Hreach Hb.
  assert (Hown : (exists id, to = Server.ToOthers id /\ Server.ownerId bs = Some id) \/
                 Server.ownerId bs = None).
  { revert s Hrun Hin. induction events as [| e events IH]; intros s Hrun Hin.
    - cbn in Hin. contradiction.
    - destruct Hrun as [Hh Hrest]. rewrite run_cons in Hin. cbn [snd] in Hin.
      apply in_app_or in Hin. destruct Hin as [Hin | Hin].
      + exact (handle_ball_messages e s to bs Hh Hin).
      + exact (IH _ Hrest Hin). }
  assert (Hne : Server.ownerId bs <> Some client).
  { destruct Hown as [[id [-> Ho]] | Ho]; rewrite Ho; [| discriminate].
    cbn in Hreach. congruence. }
  split; [exact Hne |]. split.
  - intros Hh. unfold onBallUpdated. rewrite Hh, Hb.
    destruct (Server.ownerId bs) as [o |]; [| reflexivity].
    destruct (String.eqb o String.EmptyString); [reflexivity |].
    destruct (String.eqb o client) eqn:E; [| reflexivity].
    apply String.eqb_eq in E. congruence.
  - intros Hh. unfold onBallUpdated. rewrite Hh. reflexivity.
Qed.

Lemma remote_ball_has_no_owner_witness :
  let bs := Server.ballState (Some socketA) (vec3 0 2 0) zero3 in
  PlayerControls.ball
    (onBallUpdated socketB bs (PlayerControls.assignBall freshBall
                           (PlayerControls.initial (vec3 0 2 5))))
  = Some (Ball.mk (vec3 0 2 0) zero3 None true).
Proof.
  cbv zeta.
  refine (proj1 (proj2 (remote_ball_has_no_owner
            [Server.Connection socketA;
             Server.BallUpdate socketA
               (Server.ballData (Some (Some socketA))
                  (Some (vec3 0 2 0)) (Some zero3))]
            Server.initial
            (Server.ToOthers socketA)
            (Server.ballState (Some socketA)
               (vec3 0 2 0) zero3)
            socketB
            (PlayerControls.assignBall freshBall (PlayerControls.initial (vec3 0 2 5)))
            freshBall _ _ _ eq_refl)) eq_refl).
  - cbn. repeat split; discriminate.
  - cbn. right. right. left. reflexivity.
  - cbn. discriminate.
Defined.

Lemma lookup_cons {A : Type} (id : Server.Id) (p : Server.Id * A) (d : Dict.t A) :
  Dict.lookup id (p :: d) <> None <-> fst p = id \/ Dict.lookup id d <> None.
Proof.
  unfold Dict.lookup. destruct p as [k v]. cbn. destruct (String.eqb k id) eqn:E.
  - apply String.eqb_eq in E. cbn. split; [intros _; left; exact E | intros _; discriminate].
  - apply String.eqb_neq in E. tauto.
Qed.

Lemma lookup_assign_iff {A : Type} (id id' : Server.Id) (v : A) (d : Dict.t A) :
  Dict.lookup id' (Dict.assign id v d) <> None <-> id' = id \/ Dict.lookup id' d <> None.
Proof.
  destruct (String.string_dec id' id) as [-> | Hne].
  - rewrite lookup_assign_same. split; [intros _; left; reflexivity | intros _; discriminate].
  - rewrite lookup_assign_other by exact Hne. tauto.
Qed.

Lemma lookup_remove_iff {A : Type} (id id' : Server.Id) (d : Dict.t A) :
  Dict.lookup id' (Dict.remove id d) <> None <-> id' <> id /\ Dict.lookup id' d <> None.
Proof.
  destruct (String.string_dec id' id) as [-> | Hne].
  - rewrite lookup_remove_same. tauto.
  - rewrite lookup_remove_other by exact Hne. tauto.
Qed.

(** The roster the handler of [init] builds. *)
Lemma init_roster (c id : Server.Id) (ps : Dict.t Vector3) (ball : Server.BallState)
    (r : Client.Roster) :
  Dict.lookup id (Client.deliver c (Server.Init ps ball) r) <> None
  <-> (id <> c /\ Dict.lookup id ps <> None) \/ Dict.lookup id r <> None.
Proof.
  cbn [Client.deliver]. revert r. induction ps as [| [k v] ps IH]; intros r; cbn [fold_left].
  - unfold Dict.lookup at 2. cbn. tauto.
  - rewrite IH, lookup_cons. cbn [fst snd]. destruct (String.eqb k c) eqn:E.
    + apply String.eqb_eq in E. subst k. split; [tauto |].
      intros [[Hne [Hp | Hl]] | Hr]; [exfalso; apply Hne; symmetry; exact Hp | tauto | tauto].
    + apply String.eqb_neq in E. rewrite lookup_assign_iff. split.
      * intros [H | [-> | H]]; tauto.
      * intros [[Hne [Hp | Hl]] | Hr]; [right; left; symmetry; exact Hp | tauto | tauto].
Qed.

Lemma eqb_false (a b : Server.Id) : a <> b -> String.eqb a b = false.
Proof. intros H. apply String.eqb_neq. exact H. Qed.

Lemma relay_matches (c : Server.Id) (e : Server.Event) (s : Server.t) (r : Client.Roster) :
  rosterMatches c s r ->
  e <> Server.Connection c -> e <> Server.Disconnect c ->
  rosterMatches c (fst (relay c (s, r) e)) (snd (relay c (s, r) e)).
Proof.
  unfold rosterMatches, connected, relay. intros H Hc Hd.
  destruct e as [id | id pos | id data | id]; cbn [fst snd Server.handle].
  - assert (Hne : id <> c) by congruence. cbv zeta.
    cbn [fst snd filter reachesb]. rewrite (eqb_false id c Hne).
    cbn [negb fold_left snd Client.deliver Server.players].
    intros i. rewrite !lookup_assign_iff, H. split.
    + intros [-> | [H1 H2]]; tauto.
    + intros [H1 [-> | H2]]; tauto.
  - destruct (Dict.lookup id (Server.players s)) as [old |] eqn:El;
      cbn [fst snd filter fold_left]; [| exact H].
    assert (Hkeys : forall i v,
              Dict.lookup i (Dict.assign id v (Server.players s)) <> None
              <-> Dict.lookup i (Server.players s) <> None).
    { intros i v. rewrite lookup_assign_iff. split; [| tauto].
      intros [-> | H1]; [rewrite El; discriminate | exact H1]. }
    cbn [reachesb]. destruct (String.eqb id c) eqn:E; cbn [negb fold_left snd Server.players].
    + intros i. rewrite Hkeys. apply H.
    + cbn [Client.deliver]. destruct (Dict.lookup id r) as [remote |] eqn:Er.
      * intros i. rewrite Hkeys, lookup_assign_iff, <- H. split; [| tauto].
        intros [-> | H1]; [rewrite Er; discriminate | exact H1].
      * intros i. rewrite Hkeys. apply H.
  - cbv zeta. cbn [fst snd filter reachesb Server.players].
    destruct (negb (String.eqb id c)); cbn [fold_left snd Client.deliver]; exact H.
  - assert (Hne : id <> c) by congruence.
    assert (Hgoal : forall i, Dict.lookup i (Dict.remove id r) <> None
                    <-> i <> c /\ Dict.lookup i (Dict.remove id (Server.players s)) <> None).
    { intros i. rewrite !lookup_remove_iff, H. tauto. }
    cbv zeta.
    destruct (Server.ownerId (Server.ball s)) as [o |]; [destruct (String.eqb o id) |];
      cbn [fst snd filter reachesb fold_left Client.deliver Server.players]; exact Hgoal.
Qed.

(** X23. The roster follows the server: the remote players a client lists
    are the players connected to the server, but for the client itself.
    This holds after the client has connected, whoever was connected before,
    and it keeps holding through every later event of the server - the
    connections, updates and disconnections of others and the client's own
    updates - when the client handles the messages the server sends it. *)
Theorem roster_follows_server (c : Server.Id) :
  (forall s : Server.t,
      rosterMatches c (fst (relay c (s, []) (Server.Connection c)))
                      (snd (relay c (s, []) (Server.Connection c)))) /\
  (forall (events : list Server.Event) (s : Server.t) (r : Client.Roster),
      rosterMatches c s r ->
      Forall (fun e => e <> Server.Connection c /\ e <> Server.Disconnect c) events ->
      rosterMatches c (fst (fold_left (relay c) events (s, r)))
                      (snd (fold_left (relay c) events (s, r)))).
Proof.
  split.
  - intros s. unfold rosterMatches, connected, relay.
    cbn [fst snd Server.handle]. cbv zeta. cbn [fst snd filter reachesb].
    rewrite String.eqb_refl. cbn [negb fold_left snd Server.players].
    intros i. rewrite init_roster, lookup_assign_iff.
    unfold Dict.lookup at 2. cbn. tauto.
  - intros events s r H Hev. revert s r H.
    induction Hev as [| e events [Hc Hd] _ IH]; intros s r H; cbn [fold_left].
    + exact H.
    + pose proof (relay_matches c e s r H Hc Hd) as H1.
      destruct (relay c (s, r) e) as [s1 r1]. apply IH. exact H1.
Qed.

Lemma roster_follows_server_witness :
  let st := relay socketB (Server.initial, []) (Server.Connection socketB) in
  let events := [Server.Connection socketA; Server.PlayerUpdate socketA (Some (vec3 1 2 3))] in
  rosterMatches socketB (fst st) (snd st) /\
  rosterMatches socketB (fst (fold_left (relay socketB) events st))
                        (snd (fold_left (relay socketB) events st)).
Proof.
  cbv zeta.
  pose proof (proj1 (roster_follows_server socketB) Server.initial) as H0.
  split; [exact H0 |].
  assert (Hev : Forall (fun e => e <> Server.Connection socketB /\ e <> Server.Disconnect socketB)
                  [Server.Connection socketA;
                   Server.PlayerUpdate socketA (Some (vec3 1 2 3))]).
  { repeat constructor; discriminate. }
  destruct (relay socketB (Server.initial, []) (Server.Connection socketB)) as [s1 r1].
  exact (proj2 (roster_follows_server socketB) _ s1 r1 H0 Hev).
Defined.
(* ------------------------------------------------------------------ *)
(** ** The level's hoops and the preview of a throw *)

Lemma createBox_box (pos size : Vector3) :
  0 <= x size -> 0 <= y size -> 0 <= z size ->
  World.createBox pos size
  = box3 (vec3 (x pos - x size / 2) (y pos - y size / 2) (z pos - z size / 2))
         (vec3 (x pos + x size / 2) (y pos + y size / 2) (z pos + z size / 2)).
Proof.
  intros Hx Hy Hz. unfold World.createBox, World.placed, World.boxGeometry, isEmpty,
    multiplyScalar, Player.add.
  cbn [bmin bmax x y z].
  destruct (Rlt_dec _ _); [lra |]. destruct (Rlt_dec _ _); [lra |].
  destruct (Rlt_dec _ _); [lra |]. f_equal; f_equal; field.
Qed.

(** The boxes of the scenarios are boxes of the level. *)
Lemma level_boxes :
  World.floor = courtFloor /\ In backboard World.collidables /\ In hoopPost World.collidables.
Proof.
  split; [| split].
  - unfold World.floor. rewrite createBox_box by (cbn; lra).
    unfold courtFloor. cbn [x y z]. f_equal; f_equal; field.
  - unfold World.collidables, World.walls, World.hoopBoxes.
    right. do 4 right. right. left.
    rewrite createBox_box by (cbn; lra).
    unfold backboard, World.farHoop. cbn [x y z]. f_equal; f_equal; field.
  - unfold World.collidables, World.walls, World.hoopBoxes.
    right. do 4 right. left.
    rewrite createBox_box by (cbn; lra).
    unfold hoopPost, World.farHoop, World.zDir. cbn [x y z]. f_equal; f_equal; field.
Qed.

Lemma hoopTrigger_box (pos : Vector3) (facingForward : bool) :
  Game.triggerBox (World.hoopTrigger pos facingForward)
  = box3 (vec3 (x pos - 25 / 100) (24 / 10)
               (z pos + 45 / 100 * World.zDir facingForward - 25 / 100))
         (vec3 (x pos + 25 / 100) (26 / 10)
               (z pos + 45 / 100 * World.zDir facingForward + 25 / 100)).
Proof.
  unfold Game.triggerBox, World.hoopTrigger, World.createTrigger. cbv zeta.
  cbn [World.geometryBox World.triggerPosition].
  change (World.placed (World.boxGeometry ?s) ?p) with (World.createBox p s).
  rewrite createBox_box by (cbn; lra).
  unfold World.rimCenter. cbn [x y z]. f_equal; f_equal; field.
Qed.

Lemma hoopTrigger_z (pos : Vector3) (facingForward : bool) :
  Game.triggerZ (World.hoopTrigger pos facingForward)
  = z pos + 45 / 100 * World.zDir facingForward.
Proof.
  unfold Game.triggerZ, World.hoopTrigger, World.createTrigger. cbv zeta.
  cbn [World.geometryBox World.triggerPosition].
  rewrite getCenter_nonempty by (unfold World.boxGeometry, multiplyScalar; cbn; lra).
  unfold World.boxGeometry, multiplyScalar, World.rimCenter. cbn [bmin bmax x y z]. field.
Qed.

(** X24. Whose hoop is whose: in the level that [World.init] builds, the
    trigger of the far hoop is the box from (-0.25, 2.4, -14.8) to
    (0.25, 2.6, -14.3) and that of the near hoop its mirror image at
    z from 14.3 to 14.8.  For an active, falling ball with no point pending,
    [checkScoring] gives the player a point when the ball's box meets the far
    trigger, gives the bot a point when it meets the near trigger and not the
    far one, and changes nothing otherwise. *)
Theorem level_hoops_score (bb : Box3) (b : Ball.t) (sc : Game.Score) :
  let far := World.hoopTrigger World.farHoop true in
  let near := World.hoopTrigger World.nearHoop false in
  Game.triggerBox far
  = box3 (vec3 (- (25 / 100)) (24 / 10) (- (148 / 10)))
         (vec3 (25 / 100) (26 / 10) (- (143 / 10))) /\
  Game.triggerBox near
  = box3 (vec3 (- (25 / 100)) (24 / 10) (143 / 10))
         (vec3 (25 / 100) (26 / 10) (148 / 10)) /\
  (Ball.active b = true -> y (Ball.velocity b) < 0 -> Game.justScored sc = false ->
   Game.tally (Game.checkScoring World.triggers (Some bb) b sc)
   = if intersectsBox (Game.triggerBox far) bb
     then Game.mkScore (S (Game.score sc)) (Game.botScore sc) true
     else if intersectsBox (Game.triggerBox near) bb
          then Game.mkScore (Game.score sc) (S (Game.botScore sc)) true
          else sc).
Proof.
  intros far near.
  assert (Zf : Game.triggerZ far < 0).
  { subst far. rewrite hoopTrigger_z. unfold World.farHoop, World.zDir. cbn [z]. lra. }
  assert (Zn : ~ Game.triggerZ near < 0).
  { subst near. rewrite hoopTrigger_z. unfold World.nearHoop, World.zDir. cbn [z]. lra. }
  split; [| split].
  - subst far. rewrite hoopTrigger_box. unfold World.farHoop, World.zDir. cbn [x z].
    f_equal; f_equal; field.
  - subst near. rewrite hoopTrigger_box. unfold World.nearHoop, World.zDir. cbn [x z].
    f_equal; f_equal; field.
  - intros Ha Hv Hj. unfold Game.checkScoring, World.triggers. rewrite Ha. cbn [negb].
    fold far near. cbn [fold_left].
    unfold Game.checkTrigger at 2. cbn [Game.inTrigger Game.tally Game.bursts Game.timers].
    destruct (intersectsBox (Game.triggerBox far) bb).
    + destruct (Rlt_dec (y (Ball.velocity b)) 0) as [_ | Hn]; [| contradiction].
      rewrite Hj. destruct (Rlt_dec (Game.triggerZ far) 0) as [_ | Hn]; [| contradiction].
      unfold Game.checkTrigger. cbn [Game.inTrigger Game.tally Game.justScored].
      destruct (intersectsBox (Game.triggerBox near) bb); [| reflexivity].
      destruct (Rlt_dec (y (Ball.velocity b)) 0); reflexivity.
    + unfold Game.checkTrigger. cbn [Game.inTrigger Game.tally Game.bursts Game.timers].
      destruct (intersectsBox (Game.triggerBox near) bb); [| reflexivity].
      destruct (Rlt_dec (y (Ball.velocity b)) 0) as [_ | Hn]; [| contradiction].
      rewrite Hj. destruct (Rlt_dec (Game.triggerZ near) 0) as [Hc | _]; [contradiction |].
      reflexivity.
Qed.

Lemma level_hoops_score_witness :
  let ball := launch (vec3 0 (25 / 10) (- (1455 / 100))) (vec3 0 (-3) 0) in
  Game.tally (Game.checkScoring World.triggers
                (Some (Ball.ballBoxAt (Ball.position ball))) ball (Game.mkScore 0 0 false))
  = if intersectsBox (Game.triggerBox (World.hoopTrigger World.farHoop true))
                     (Ball.ballBoxAt (Ball.position ball))
    then Game.mkScore 1 0 true
    else if intersectsBox (Game.triggerBox (World.hoopTrigger World.nearHoop false))
                          (Ball.ballBoxAt (Ball.position ball))
         then Game.mkScore 0 1 true
         else Game.mkScore 0 0 false.
Proof.
  cbv zeta.
  refine (proj2 (proj2 (level_hoops_score
            (Ball.ballBoxAt (vec3 0 (25 / 10) (- (1455 / 100))))
            (launch (vec3 0 (25 / 10) (- (1455 / 100))) (vec3 0 (-3) 0))
            (Game.mkScore 0 0 false))) eq_refl _ eq_refl).
  cbn. lra.
Defined.

(** X25. The preview shows the throw, from a little behind: in a frame with
    the pointer locked, a player who holds the ball and has the preview
    switched on gets the preview drawn for the velocity a throw would give
    the ball right now - the camera's forward direction times the current
    power - but from the point half a unit in front of the camera, whereas
    the ball is carried, and thrown from, one unit in front of the camera
    and 0.2 below. *)
Theorem preview_shows_the_throw
    (cast : Trajectory.RayCast) (f : Player.Frame) (delta : R) (cs : list Collidable)
    (s : PlayerControls.t) (b : Ball.t) :
  Player.pointerLocked f = true ->
  PlayerControls.hasBall s = true ->
  PlayerControls.ball s = Some b ->
  Ball.owner b = Some ThePlayer ->
  PlayerControls.showTrajectory s = true ->
  let s' := fst (playerFrame cast f delta cs s) in
  let camera := Player.position (PlayerControls.body s') in
  let dir := normalize (Player.lookForward f) in
  let velocity := multiplyScalar dir (PlayerControls.currentPower s) in
  snd (playerFrame cast f delta cs s)
  = Shown (Trajectory.update cast (Player.add camera (multiplyScalar dir (5 / 10)))
                             velocity cs) /\
  exists thrown,
    PlayerControls.ball (PlayerControls.onMouseDown f 0 s') = Some thrown /\
    Ball.owner thrown = None /\
    Ball.velocity thrown = velocity /\
    Ball.position thrown
    = vec3 (x camera + x dir * 1) (y camera + y dir * 1 - 2 / 10) (z camera + z dir * 1).
Proof.
  intros Hl Hh Hb Ho Hshow. cbv zeta.
  assert (E : PlayerControls.update f delta cs s
              = PlayerControls.mk (Player.update f delta cs (PlayerControls.body s)) true
                  (if Rlt_dec 0 (PlayerControls.throwCooldown s)
                   then PlayerControls.throwCooldown s - delta
                   else PlayerControls.throwCooldown s)
                  (PlayerControls.currentPower s) true
                  (Some (Ball.mk (PlayerControls.holdPosition f
                                    (Player.position
                                       (Player.update f delta cs (PlayerControls.body s))))
                                 (Ball.velocity b) (Some ThePlayer) (Ball.active b)))).
  { unfold PlayerControls.update. rewrite Hl. cbn [negb].
    unfold PlayerControls.interact, PlayerControls.setBody.
    cbn [PlayerControls.ball PlayerControls.hasBall PlayerControls.body
         PlayerControls.throwCooldown PlayerControls.currentPower
         PlayerControls.showTrajectory].
    rewrite Hb, Hh, Ho, Hshow. reflexivity. }
  unfold playerFrame. cbv zeta. rewrite Hl, Hh, Hb, Ho, E. cbn [negb andb fst snd].
  cbn [PlayerControls.showTrajectory PlayerControls.hasBall PlayerControls.body
       PlayerControls.currentPower andb].
  split; [reflexivity |].
  unfold PlayerControls.onMouseDown. rewrite Hl.
  cbn [andb Z.eqb PlayerControls.hasBall PlayerControls.ball PlayerControls.currentPower].
  eexists. split; [reflexivity |].
  unfold Ball.release. cbn [Ball.owner Ball.velocity Ball.position].
  split; [reflexivity |]. split; [reflexivity |].
  unfold PlayerControls.holdPosition, Player.add, multiplyScalar. cbn [x y z]. reflexivity.
Qed.

Lemma preview_shows_the_throw_witness :
  exists dots,
    snd (playerFrame (fun _ _ _ _ => None) (lookingNorth true) (1 / 60) [courtFloor] holder)
    = Shown dots.
Proof.
  eexists.
  exact (proj1 (preview_shows_the_throw (fun _ _ _ _ => None) (lookingNorth true) (1 / 60)
                  [courtFloor] holder (Ball.grab ThePlayer freshBall)
                  eq_refl eq_refl eq_refl eq_refl eq_refl)).
Defined.
(* ------------------------------------------------------------------ *)
(** ** Standing on the floor *)

Lemma steer_idle (f : Player.Frame) (delta : R) (usingSprint : bool) (p : Player.t) :
  Player.moving p = false -> Player.velocity p = zero3 ->
  Player.steer f delta usingSprint p = vec3 0 (- (30 * delta)) 0.
Proof.
  intros Hm Hv. unfold Player.moving in Hm.
  destruct (Player.moveForward p) eqn:E1; [discriminate |].
  destruct (Player.moveBackward p) eqn:E2; [discriminate |].
  destruct (Player.moveLeft p) eqn:E3; [discriminate |].
  destruct (Player.moveRight p) eqn:E4; [discriminate |].
  unfold Player.steer, Player.accelerate, Player.inputDirection. cbv zeta.
  rewrite Hv, E1, E2, E3, E4. unfold zero3, dot. cbn [x y z].
  destruct (Rlt_dec 0 (0 * 0 + 0 * 0 + 0 * 0)) as [H | _]; [lra |].
  unfold Player.capHorizontal. cbv zeta.
  replace (0 - 0 * Player.damping * delta) with 0 by ring.
  replace (0 * 0 + 0 * 0) with 0 by ring. rewrite sqrt_0.
  pose proof (targetSpeed_pos usingSprint) as Ht.
  destruct (Rlt_dec (Player.targetSpeed usingSprint) 0) as [H | _]; [lra |].
  unfold Player.gravity. f_equal. ring.
Qed.

(** A player whose feet are on the top of the court floor touches it and is
    left alone by a pass on any axis. *)
Lemma resolveOne_standing (axis : Axis) (p : Player.t) :
  y (Player.position p) = 16 / 10 ->
  Player.resolveOne axis p courtFloor = p.
Proof.
  intros Hy. apply (resolveOne_tiny axis AxisY).
  unfold Player.touchEpsilon, overlap, Player.playerBoxAt, Player.width, Player.height, courtFloor.
  cbn [coord bmin bmax x y z]. rewrite Hy.
  rewrite (Rmin_right (16 / 10) 0) by lra.
  rewrite (Rmax_left (16 / 10 - 16 / 10) (-1)) by lra.
  replace (0 - (16 / 10 - 16 / 10)) with 0 by ring. rewrite Rabs_R0. lra.
Qed.

(** The overlaps of the floor and a player who has sunk into it by [d]. *)
Lemma sunk_overlaps (a c d : R) :
  - (97 / 10) <= a <= 97 / 10 -> - (167 / 10) <= c <= 167 / 10 -> 0 <= d <= 1 ->
  let box := Player.playerBoxAt (vec3 a (16 / 10 - d) c) in
  intersectsBox box courtFloor = true /\
  overlap AxisX box courtFloor = 6 / 10 /\
  overlap AxisY box courtFloor = d /\
  overlap AxisZ box courtFloor = 6 / 10.
Proof.
  intros Ha Hc Hd box. subst box.
  split; [| split; [| split]].
  - apply intersects_true; unfold courtFloor; eval_box; lra.
  - unfold courtFloor; eval_box; lra.
  - unfold courtFloor; eval_box; lra.
  - unfold courtFloor; eval_box; lra.
Qed.

(** X26. Whether a standing player is grounded depends on the frame time:
    a player at rest with the feet on the top of the court floor, with no
    movement key held, sinks by 30 * delta^2 under gravity in a frame with
    the pointer locked.  If that is below the touch threshold 0.001 (frame
    times under about 5.8 ms), the floor is skipped as a tiny touch: the
    player stays sunk, keeps falling at 30 * delta and is not grounded, so
    that the jump key does nothing.  Otherwise the player is put back on the
    floor at rest and is grounded. *)
Theorem standing_player_grounding (f : Player.Frame) (delta : R) (p : Player.t) :
  Player.pointerLocked f = true ->
  Player.moving p = false ->
  Player.velocity p = zero3 ->
  y (Player.position p) = 16 / 10 ->
  - (97 / 10) <= x (Player.position p) <= 97 / 10 ->
  - (167 / 10) <= z (Player.position p) <= 167 / 10 ->
  0 < delta <= 1 / 10 ->
  let p' := Player.update f delta [courtFloor] p in
  (30 * delta * delta < 1 / 1000 ->
   Player.onGround p' = false /\
   Player.position p'
   = vec3 (x (Player.position p)) (16 / 10 - 30 * delta * delta) (z (Player.position p)) /\
   Player.velocity p' = vec3 0 (- (30 * delta)) 0 /\
   forall (s : PlayerControls.t) (g : Player.Frame),
     PlayerControls.body s = p' -> PlayerControls.onKey g PlayerControls.Space s = s) /\
  (1 / 1000 <= 30 * delta * delta ->
   Player.onGround p' = true /\
   Player.position p' = Player.position p /\
   Player.velocity p' = zero3).
Proof.
  intros Hl Hm Hv Hy Hx Hz Hd p'. subst p'.
  assert (Hsink : 0 < 30 * delta * delta <= 3 / 10) by nra.
  unfold Player.update. rewrite Hl. cbn [negb]. cbv zeta.
  assert (Ep : Player.prepare f delta p
               = Player.mk (Player.position p) (vec3 0 (- (30 * delta)) 0) false
                   (snd (Player.staminaStep delta p))
                   (Player.moveForward p) (Player.moveBackward p) (Player.moveLeft p)
                   (Player.moveRight p) (Player.isRunning p)).
  { unfold Player.prepare. destruct (Player.staminaStep delta p) as [u st].
    rewrite (steer_idle f delta u p Hm Hv). reflexivity. }
  rewrite Ep. clear Ep.
  destruct (Player.position p) as [px py pz] eqn:Epos. cbn [x y z] in Hy, Hx, Hz. subst py.
  set (st := snd (Player.staminaStep delta p)).
  set (q0 := Player.mk (vec3 px (16 / 10) pz) (vec3 0 (- (30 * delta)) 0) false st
               (Player.moveForward p) (Player.moveBackward p) (Player.moveLeft p)
               (Player.moveRight p) (Player.isRunning p)).
  set (q1 := Player.mk (vec3 px (16 / 10 - 30 * delta * delta) pz)
               (vec3 0 (- (30 * delta)) 0) false st
               (Player.moveForward p) (Player.moveBackward p) (Player.moveLeft p)
               (Player.moveRight p) (Player.isRunning p)).
  assert (E1 : Player.moveAxis delta [courtFloor] AxisX q0 = q0).
  { rewrite moveAxis_single. unfold movedTo, Player.setMotion, q0.
    cbn [Player.position Player.velocity Player.onGround Player.stamina Player.moveForward
         Player.moveBackward Player.moveLeft Player.moveRight Player.isRunning
         coord addCoord x y z].
    replace (px + 0 * delta) with px by ring.
    apply resolveOne_standing. reflexivity. }
  assert (E2 : Player.moveAxis delta [courtFloor] AxisZ q0 = q0).
  { rewrite moveAxis_single. unfold movedTo, Player.setMotion, q0.
    cbn [Player.position Player.velocity Player.onGround Player.stamina Player.moveForward
         Player.moveBackward Player.moveLeft Player.moveRight Player.isRunning
         coord addCoord x y z].
    replace (pz + 0 * delta) with pz by ring.
    apply resolveOne_standing. reflexivity. }
  assert (E3 : Player.moveAxis delta [courtFloor] AxisY q0
               = Player.resolveOne AxisY q1 courtFloor).
  { rewrite moveAxis_single. unfold movedTo, Player.setMotion, q0, q1.
    cbn [Player.position Player.velocity Player.onGround Player.stamina Player.moveForward
         Player.moveBackward Player.moveLeft Player.moveRight Player.isRunning
         coord addCoord x y z].
    replace (16 / 10 + - (30 * delta) * delta) with (16 / 10 - 30 * delta * delta) by ring.
    reflexivity. }
  rewrite E1, E2, E3. clear E1 E2 E3.
  destruct (sunk_overlaps px pz (30 * delta * delta) Hx Hz ltac:(lra)) as [Hi [Ox [Oy Oz]]].
  cbv zeta in Hi, Ox, Oy, Oz.
  split.
  - intros Htiny.
    assert (E : Player.resolveOne AxisY q1 courtFloor = q1).
    { apply (resolveOne_tiny AxisY AxisY). unfold q1. cbn [Player.position].
      rewrite Oy, Rabs_pos_eq by lra. unfold Player.touchEpsilon. lra. }
    rewrite E. unfold Player.fallSafety, q1. cbn [Player.position y].
    destruct (Rlt_dec (16 / 10 - 30 * delta * delta) (-20)) as [Hf | _]; [lra |].
    cbn [Player.onGround Player.position Player.velocity].
    split; [reflexivity |]. split; [reflexivity |]. split; [reflexivity |].
    intros s g Hs. cbn [PlayerControls.onKey]. rewrite Hs. reflexivity.
  - intros Hhard.
    assert (Ht : Player.tinyTouch
                   (Player.playerBoxAt (vec3 px (16 / 10 - 30 * delta * delta) pz)) courtFloor
                 = false).
    { apply tinyTouch_false. unfold Player.touchEpsilon.
      intros [ | | ]; rewrite ?Ox, ?Oy, ?Oz, Rabs_pos_eq; lra. }
    assert (E : Player.resolveOne AxisY q1 courtFloor
                = Player.setMotion
                    (vec3 px (16 / 10 - 30 * delta * delta + 30 * delta * delta) pz)
                    (vec3 0 0 0) true q1).
    { unfold Player.resolveOne, q1. cbn [Player.position Player.velocity]. cbv zeta.
      rewrite Hi, Ht, Oy.
      destruct (Rlt_dec 0 (30 * delta * delta)) as [_ | Hn]; [| lra].
      cbn [y]. destruct (Rlt_dec (- (30 * delta)) 0) as [_ | Hn]; [| lra].
      reflexivity. }
    rewrite E. unfold Player.fallSafety, Player.setMotion. cbn [Player.position y].
    destruct (Rlt_dec (16 / 10 - 30 * delta * delta + 30 * delta * delta) (-20)) as [Hf | _];
      [lra |].
    cbn [Player.onGround Player.position Player.velocity].
    split; [reflexivity |]. split; [f_equal; ring | reflexivity].
Qed.

Lemma standing_player_grounding_witness :
  let p := Player.mk (vec3 0 (16 / 10) 0) zero3 true 60 false false false false false in
  Player.onGround (Player.update (lookingNorth true) (1 / 240) [courtFloor] p) = false /\
  Player.onGround (Player.update (lookingNorth true) (1 / 60) [courtFloor] p) = true.
Proof.
  cbv zeta. split.
  - refine (proj1 (proj1 (standing_player_grounding (lookingNorth true) (1 / 240)
                     (Player.mk (vec3 0 (16 / 10) 0) zero3 true 60 false false false false false)
                     eq_refl eq_refl eq_refl eq_refl _ _ _) _));
      cbn [Player.position x y z]; lra.
  - refine (proj1 (proj2 (standing_player_grounding (lookingNorth true) (1 / 60)
                     (Player.mk (vec3 0 (16 / 10) 0) zero3 true 60 false false false false false)
                     eq_refl eq_refl eq_refl eq_refl _ _ _) _));
      cbn [Player.position x y z]; lra.
Defined.

(* ------------------------------------------------------------------ *)
(** ** Looking around, and how fast the bot runs *)

Lemma onMouseMove_pitch (locked : bool) (mx my : R) (c : Look.t) :
  - PI / 2 <= Look.pitch c <= PI / 2 ->
  - PI / 2 <= Look.pitch (Look.onMouseMove locked mx my c) <= PI / 2.
Proof.
  intros H. unfold Look.onMouseMove. destruct locked; [| exact H].
  cbv zeta. cbn [Look.pitch]. pose proof PI_RGT_0 as Hpi.
  unfold Rmax, Rmin. repeat (destruct (Rle_dec _ _)); lra.
Qed.

(** X27. The camera cannot be turned over: from a pitch within a quarter
    turn up or down (the camera starts level), every sequence of mouse
    movements leaves the pitch between -PI/2 and PI/2.  The yaw is not
    limited: it is the old yaw minus 0.002 times the horizontal movement
    made while the pointer was locked.  Movements with the pointer unlocked
    change neither. *)
Theorem camera_pitch_is_clamped (moves : list (bool * R * R)) (c : Look.t) :
  - PI / 2 <= Look.pitch c <= PI / 2 ->
  - PI / 2 <= Look.pitch (mouseMoves moves c) <= PI / 2 /\
  Look.yaw (mouseMoves moves c) = Look.yaw c - 2 / 1000 * lockedTravel moves /\
  (Forall (fun m => fst (fst m) = false) moves -> mouseMoves moves c = c).
Proof.
  unfold mouseMoves, lockedTravel. revert c.
  induction moves as [| [[locked mx] my] moves IH]; intros c H; cbn [fold_left map fst snd].
  - cbn. split; [exact H |]. split; [lra | reflexivity].
  - destruct (IH (Look.onMouseMove locked mx my c) (onMouseMove_pitch locked mx my c H))
      as [H1 [H2 H3]].
    split; [exact H1 |]. split.
    + rewrite H2. unfold sumR. cbn [fold_right]. fold (sumR (map
        (fun m : bool * R * R => if fst (fst m) then snd (fst m) else 0) moves)).
      unfold Look.onMouseMove, Look.sensitivity. destruct locked; cbn [Look.yaw]; lra.
    + intros Hall. inversion Hall as [| ? ? Hm Hrest]; subst. cbn [fst] in Hm. subst locked.
      cbn [Look.onMouseMove] in *. apply H3. exact Hrest.
Qed.

Lemma camera_pitch_is_clamped_witness :
  - PI / 2 <= Look.pitch (mouseMoves [(true, 10, -4000); (false, 3, 3)] (Look.mk 0 0)) <= PI / 2.
Proof.
  refine (proj1 (camera_pitch_is_clamped [(true, 10, -4000); (false, 3, 3)] (Look.mk 0 0) _)).
  cbn [Look.pitch]. pose proof PI_RGT_0. lra.
Defined.

Lemma normalize_short (v : Vector3) : length (normalize v) <= 1.
Proof.
  destruct (Req_dec_T (length v) 0) as [E | N].
  - unfold normalize. destruct (Req_dec_T (length v) 0) as [_ | N]; [| contradiction].
    assert (Hv : length (divideScalar v 1) = length v).
    { unfold divideScalar, multiplyScalar, length. cbn [x y z]. f_equal. field. }
    rewrite Hv, E. lra.
  - rewrite normalize_unit by exact N. lra.
Qed.

(** The step along a flattened direction is no longer than the speed
    allows. *)
Lemma flat_step (target pos : Vector3) (k : R) :
  0 <= k ->
  distance (addScaledVector pos (BotAI.flatDirection target pos) k) pos <= k /\
  y (addScaledVector pos (BotAI.flatDirection target pos) k) = y pos.
Proof.
  intros Hk. unfold BotAI.flatDirection.
  pose proof (normalize_short (sub target pos)) as Hn.
  set (n := normalize (sub target pos)) in *.
  split.
  - unfold distance, addScaledVector, sub, setCoord, length in *. cbn [x y z] in *.
    replace ((x pos + x n * k - x pos) * (x pos + x n * k - x pos)
             + (y pos + 0 * k - y pos) * (y pos + 0 * k - y pos)
             + (z pos + z n * k - z pos) * (z pos + z n * k - z pos))
      with (k * k * (x n * x n + z n * z n)) by ring.
    rewrite sqrt_mult; [| nra |].
    + rewrite sqrt_square by exact Hk.
      assert (Hs : sqrt (x n * x n + z n * z n) <= 1).
      { apply Rle_trans with (sqrt (x n * x n + y n * y n + z n * z n)); [| exact Hn].
        apply sqrt_le_1_alt. pose proof (Rle_0_sqr (y n)). unfold Rsqr in *. lra. }
      pose proof (sqrt_pos (x n * x n + z n * z n)). nra.
    + pose proof (Rle_0_sqr (x n)). pose proof (Rle_0_sqr (z n)). unfold Rsqr in *. lra.
  - unfold addScaledVector, setCoord. cbn [x y z]. ring.
Qed.

Lemma distance_self (p : Vector3) : distance p p = 0.
Proof.
  unfold distance, length, sub. cbn [x y z].
  replace ((x p - x p) * (x p - x p) + (y p - y p) * (y p - y p) + (z p - z p) * (z p - z p))
    with 0 by ring.
  apply sqrt_0.
Qed.

(** X28. How fast the bot runs: in an update with a delta that is not
    negative, the bot moves at its height, in a straight line, by at most
    10.2 * delta (its speed 6 times the sprint multiplier 1.7) before the
    clamp to the court: this bounds the distance from its old position to
    the position its mesh is given.  Without the ball, chasing or defending,
    it moves by at most 6 * delta, and while it aims it stands still. *)
Theorem bot_speed_limit (rand delta : R) (camera : Vector3) (b b' : BotAI.t)
    (sh sh' : BotAI.Shared) :
  0 <= delta ->
  BotAI.update rand delta camera b sh = Some (b', sh') ->
  distance (BotAI.meshPosition b') (BotAI.position b) <= 102 / 10 * delta /\
  y (BotAI.meshPosition b') = y (BotAI.position b) /\
  (BotAI.hasBall b = false ->
   distance (BotAI.meshPosition b') (BotAI.position b) <= 6 * delta) /\
  (BotAI.hasBall b = true -> BotAI.hoopDistance b <= BotAI.drawDistance rand b ->
   BotAI.meshPosition b' = BotAI.position b).
Proof.
  intros Hd. unfold BotAI.update.
  destruct (BotAI.hasBall b) eqn:Eh.
  - cbv zeta. intros [= <- _]. unfold BotAI.attack. cbv zeta.
    destruct (Rlt_dec (BotAI.drawDistance rand b) (BotAI.hoopDistance b)) as [Hfar | Hin].
    + cbn [fst snd BotAI.settle BotAI.meshPosition BotAI.position].
      assert (Hk : 0 <= (if Rlt_dec 0 (BotAI.stamina b)
                         then BotAI.speed * BotAI.sprintMultiplier else BotAI.speed) * delta
                   <= 102 / 10 * delta).
      { unfold BotAI.speed, BotAI.sprintMultiplier. destruct (Rlt_dec 0 _); nra. }
      destruct (flat_step (vec3 0 0 15) (BotAI.position b) _ (proj1 Hk)) as [H1 H2].
      split; [lra |]. split; [exact H2 |]. split; [discriminate |]. intros _ Hc. lra.
    + destruct (Rlt_dec (2 / 10) _);
        cbn [fst snd BotAI.settle BotAI.meshPosition BotAI.position];
        rewrite distance_self; (split; [nra |]); (split; [reflexivity |]);
        (split; [discriminate | reflexivity]).
  - destruct (Ball.owner (BotAI.ball sh)) as [[|] |]; cbv zeta; try discriminate.
    + intros [= <- _]. unfold BotAI.defend. cbv zeta.
      assert (Hk : 0 <= BotAI.speed * (9 / 10) * delta <= 6 * delta)
        by (unfold BotAI.speed; nra).
      destruct (flat_step (Ball.position (BotAI.ball sh)) (BotAI.position b) _ (proj1 Hk))
        as [H1 H2].
      destruct (Rlt_dec _ 2); [destruct (Rlt_dec 1 _) |];
        cbn [fst snd BotAI.settle BotAI.meshPosition BotAI.position];
        (split; [lra |]); (split; [exact H2 |]); (split; [intros _; lra | discriminate]).
    + intros [= <- _]. unfold BotAI.chase. cbv zeta.
      assert (Hk : 0 <= BotAI.speed * delta <= 6 * delta) by (unfold BotAI.speed; nra).
      destruct (flat_step (Ball.position (BotAI.ball sh)) (BotAI.position b) _ (proj1 Hk))
        as [H1 H2].
      destruct (Rlt_dec _ (15 / 10));
        cbn [fst snd BotAI.settle BotAI.meshPosition BotAI.position];
        (split; [lra |]); (split; [exact H2 |]); (split; [intros _; lra | discriminate]).
Qed.

Lemma bot_speed_limit_witness :
  exists b' sh',
    BotAI.update (1 / 2) (1 / 60) (vec3 0 2 5) BotAI.initial (BotAI.shared freshBall false)
    = Some (b', sh') /\
    distance (BotAI.meshPosition b') (BotAI.position BotAI.initial) <= 102 / 10 * (1 / 60).
Proof.
  eexists. eexists.
  assert (E : BotAI.update (1 / 2) (1 / 60) (vec3 0 2 5) BotAI.initial
                (BotAI.shared freshBall false)
              = Some (BotAI.settle (fst (BotAI.chase (1 / 60) BotAI.initial
                                           (BotAI.shared freshBall false))),
                      snd (BotAI.chase (1 / 60) BotAI.initial
                             (BotAI.shared freshBall false)))) by reflexivity.
  split; [exact E |].
  assert (Hd : 0 <= 1 / 60) by lra.
  exact (proj1 (bot_speed_limit (1 / 2) (1 / 60) (vec3 0 2 5) BotAI.initial _
                  (BotAI.shared freshBall false) _ Hd E)).
Defined.
